(** * Insight Readiness Analyzer: correction pipeline, audit sink and
      readiness score

    A shallow embedding of the Python sources under [src/ira] together
    with the properties the specification states about them.

    Conventions of the embedding.
    - Python floats are idealised as exact rationals ([Q], kept reduced
      with [Qred]); the two infinities and NaN are separate constructors
      where the code can meet them.
    - Cell text is a [string] of ASCII characters.  On ASCII text Unicode
      NFKC normalisation is the identity and the zero-width / no-break
      characters removed by the standardizer cannot occur.
    - A Python [dict] whose iteration order matters is an association
      list in insertion order.
    - Library calls the repository does not implement (pandas datetime
      parsing, the regex engine, [repr] of a float, the wall clock, the
      hash of a string) are fields of an environment record. *)

From Stdlib Require Import ZArith QArith Qround Qreduction Lia Lqa List Bool.
From Stdlib Require Import Ascii String Permutation Sorted.
Import ListNotations.

Local Open Scope Z_scope.

(* ================================================================== *)
(** * Rational helpers                                                  *)
(* ================================================================== *)

(** [d.get(key, default)] for a value that may be absent. *)
Definition get_or {A : Type} (o : option A) (d : A) : A :=
  match o with Some x => x | None => d end.

Definition Qltb (a b : Q) : bool :=
  match Qcompare a b with Lt => true | _ => false end.

Definition Qmaxb (a b : Q) : Q := if Qltb a b then b else a.
Definition Qminb (a b : Q) : Q := if Qltb b a then b else a.

(** Round half to even, the rounding of Python's [round] and of the
    [f] format. *)
Definition round_half_even (q : Q) : Z :=
  let f := Qfloor q in
  match Qcompare (q - inject_Z f) (1 # 2) with
  | Lt => f
  | Gt => f + 1
  | Eq => if Z.even f then f else f + 1
  end.

(** [round(x, 2)]. *)
Definition py_round2 (q : Q) : Q :=
  Qred (inject_Z (round_half_even (q * 100)) / 100).


(* ================================================================== *)
(** * Readiness score ([ira/scoring/readiness.py])                      *)
(* ================================================================== *)

Module Readiness.

(** Per-column statistics of a profile, as [calculate_readiness_score]
    reads them.  An optional field is [None] when the key is absent (or,
    for [invalid_type_pct], when its value is Python's [None]). *)
Record col_stats := {
  cs_role : option string;
  cs_effective_missing_pct : option Q;
  cs_invalid_type_pct : option Q;
  cs_is_mixed_type : bool
}.

Record profile := {
  p_columns : list (string * col_stats);
  p_row_count : option Z;            (* metadata.get("row_count", 0) *)
  p_exact_row_dupe_count : option Z; (* duplicates.get(.., 0) *)
  p_pk_dupe_count : option Z         (* duplicates.get("pk_dupe_count") *)
}.

Record breakdown := {
  completeness : Q;
  validity : Q;
  uniqueness : Q;
  consistency : Q
}.

Record readiness := {
  score : Q;
  parts : breakdown
}.

Definition is_critical (st : col_stats) : bool :=
  match cs_role st with
  | Some r => String.eqb r "critical"
  | None => false
  end.

(** Loop 1: accumulates [(comp_total_weight, comp_weighted_sum)]. *)
Definition comp_step (acc : Q * Q) (kv : string * col_stats) : Q * Q :=
  let st := snd kv in
  let weight := if is_critical st then 2%Q else 1%Q in
  let success_rate := (1 - get_or (cs_effective_missing_pct st) 0)%Q in
  (fst acc + weight, snd acc + success_rate * weight)%Q.

Definition completeness_score (cols : list (string * col_stats)) : Q :=
  let acc := fold_left comp_step cols (0%Q, 0%Q) in
  if Qltb 0 (fst acc) then (snd acc / fst acc)%Q else 1%Q.

(** Loop 2: accumulates [(valid_total_weight, valid_sum)]. *)
Definition valid_step (acc : Z * Q) (kv : string * col_stats) : Z * Q :=
  match cs_invalid_type_pct (snd kv) with
  | Some v => (fst acc + 1, (snd acc + (1 - v))%Q)
  | None => acc
  end.

Definition validity_score (cols : list (string * col_stats)) : Q :=
  let acc := fold_left valid_step cols (0, 0%Q) in
  if 0 <? fst acc then (snd acc / inject_Z (fst acc))%Q else 1%Q.

Definition uniqueness_score (p : profile) (row_count : Z) : Q :=
  let exact_dupe_pct :=
    (inject_Z (get_or (p_exact_row_dupe_count p) 0%Z) / inject_Z row_count)%Q in
  match p_pk_dupe_count p with
  | Some pk =>
      let pk_dupe_pct := (inject_Z pk / inject_Z row_count)%Q in
      (1 - Qmaxb exact_dupe_pct pk_dupe_pct)%Q
  | None => (1 - exact_dupe_pct)%Q
  end.

Definition mixed_count (cols : list (string * col_stats)) : Z :=
  Z.of_nat (List.length (filter (fun kv => cs_is_mixed_type (snd kv)) cols)).

Definition consistency_score (cols : list (string * col_stats)) : Q :=
  let total_cols := Z.of_nat (List.length cols) in
  if 0 <? total_cols
  then (1 - inject_Z (mixed_count cols) / inject_Z total_cols)%Q
  else 1%Q.

(** Loop 5, with its two [break]s: the first critical column with an
    issue settles the flag. *)
Fixpoint has_critical_issue (cols : list (string * col_stats)) : bool :=
  match cols with
  | [] => false
  | (_, st) :: rest =>
      if is_critical st then
        if Qltb 0 (get_or (cs_effective_missing_pct st) 0%Q) then true
        else if Qltb 0 (get_or (cs_invalid_type_pct st) 0%Q) then true
        else has_critical_issue rest
      else has_critical_issue rest
  end.

Definition zero_breakdown : breakdown :=
  {| completeness := 0%Q; validity := 0%Q; uniqueness := 0%Q;
     consistency := 0%Q |}.

Definition calculate_readiness_score (p : profile) : readiness :=
  let cols_stats := p_columns p in
  let row_count := get_or (p_row_count p) 0 in
  if row_count =? 0 then {| score := 0%Q; parts := zero_breakdown |}
  else
    let completeness_score := completeness_score cols_stats in
    let validity_score := validity_score cols_stats in
    let uniqueness_score := uniqueness_score p row_count in
    let consistency_score := consistency_score cols_stats in
    let final_score :=
      (completeness_score * 40 + validity_score * 30
       + uniqueness_score * 20 + consistency_score * 10)%Q in
    let final_score :=
      if has_critical_issue cols_stats then (final_score - 10)%Q
      else final_score in
    let final_score := Qmaxb 0%Q (Qminb 100%Q final_score) in
    {| score := py_round2 final_score;
       parts := {| completeness := py_round2 (completeness_score * 40);
                   validity := py_round2 (validity_score * 30);
                   uniqueness := py_round2 (uniqueness_score * 20);
                   consistency := py_round2 (consistency_score * 10) |} |}.

(** ** The formula in the specification's words *)














End Readiness.

(* ================================================================== *)
(** * Text: the [str] methods the pipeline calls, on ASCII text         *)
(* ================================================================== *)

Module Text.

Local Open Scope string_scope.
Local Open Scope nat_scope.

Definition code (c : ascii) : nat := nat_of_ascii c.

(** [c.isspace()] on ASCII: tab, LF, VT, FF, CR, FS, GS, RS, US, space.
    The regex class [\s] matches the same ASCII characters. *)
Definition is_space (c : ascii) : bool :=
  let n := code c in
  ((9 <=? n) && (n <=? 13)) || ((28 <=? n) && (n <=? 32)).

Definition is_digit (c : ascii) : bool :=
  let n := code c in (48 <=? n) && (n <=? 57).

Definition is_upper (c : ascii) : bool :=
  let n := code c in (65 <=? n) && (n <=? 90).

Definition is_lower (c : ascii) : bool :=
  let n := code c in (97 <=? n) && (n <=? 122).

Definition is_alpha (c : ascii) : bool := is_upper c || is_lower c.

Definition to_lower (c : ascii) : ascii :=
  if is_upper c then ascii_of_nat (code c + 32) else c.

Definition to_upper (c : ascii) : ascii :=
  if is_lower c then ascii_of_nat (code c - 32) else c.

Fixpoint smap (f : ascii -> ascii) (s : string) : string :=
  match s with
  | EmptyString => EmptyString
  | String c r => String (f c) (smap f r)
  end.

Fixpoint sfilter (f : ascii -> bool) (s : string) : string :=
  match s with
  | EmptyString => EmptyString
  | String c r => if f c then String c (sfilter f r) else sfilter f r
  end.

Fixpoint sexists (f : ascii -> bool) (s : string) : bool :=
  match s with
  | EmptyString => false
  | String c r => f c || sexists f r
  end.

(** [s.lower()], [s.upper()]. *)
Definition lower : string -> string := smap to_lower.
Definition upper : string -> string := smap to_upper.

(** [s.title()]: a letter that follows a non-letter is upper-cased, any
    other letter is lower-cased. *)
Fixpoint title_from (prev_cased : bool) (s : string) : string :=
  match s with
  | EmptyString => EmptyString
  | String c r =>
      String (if is_alpha c
              then (if prev_cased then to_lower c else to_upper c)
              else c)
             (title_from (is_alpha c) r)
  end.

Definition title : string -> string := title_from false.

(** [s.lstrip()], [s.rstrip()], [s.strip()]. *)
Fixpoint lstrip (s : string) : string :=
  match s with
  | EmptyString => EmptyString
  | String c r => if is_space c then lstrip r else s
  end.

Fixpoint rstrip (s : string) : string :=
  match s with
  | EmptyString => EmptyString
  | String c r =>
      match rstrip r with
      | EmptyString => if is_space c then EmptyString else String c EmptyString
      | r' => String c r'
      end
  end.

Definition strip (s : string) : string := rstrip (lstrip s).

(** [s.replace(ch, "")] for a one-character [ch]. *)
Definition remove_char (ch : ascii) : string -> string :=
  sfilter (fun c => negb (Ascii.eqb c ch)).

(** [ch in s]. *)
Definition contains_char (ch : ascii) : string -> bool :=
  sexists (fun c => Ascii.eqb c ch).

(** [re.sub(r'\s+', ' ', s)]: every maximal whitespace run becomes one
    space. *)
Fixpoint collapse_from (in_run : bool) (s : string) : string :=
  match s with
  | EmptyString => EmptyString
  | String c r =>
      if is_space c
      then (if in_run then collapse_from true r
            else String " "%char (collapse_from true r))
      else String c (collapse_from false r)
  end.

Definition collapse_ws : string -> string := collapse_from false.

(** [" ".join(s.split())]. *)
Definition split_join (s : string) : string := collapse_ws (strip s).

(** The ASCII part of the standardizer's control-character class:
    [\x00-\x08\x0B\x0C\x0E-\x1F\x7F]. *)
Definition is_control (c : ascii) : bool :=
  let n := code c in
  (n <=? 8) || (n =? 11) || (n =? 12) || ((14 <=? n) && (n <=? 31))
  || (n =? 127).

Definition remove_controls : string -> string :=
  sfilter (fun c => negb (is_control c)).

(** [s.startswith(p)], [s.endswith(p)]. *)
Definition startswith (s p : string) : bool := String.prefix p s.

Fixpoint srev_onto (s acc : string) : string :=
  match s with
  | EmptyString => acc
  | String c r => srev_onto r (String c acc)
  end.

Definition srev (s : string) : string := srev_onto s EmptyString.

Definition endswith (s p : string) : bool := String.prefix (srev p) (srev s).

(** [s[n:]] and [s[:-n]] for [0 < n]. *)
Fixpoint drop (n : nat) (s : string) : string :=
  match n, s with
  | O, _ => s
  | S k, EmptyString => EmptyString
  | S k, String _ r => drop k r
  end.

Definition drop_last (n : nat) (s : string) : string :=
  String.substring 0 (String.length s - n) s.

(** [re.sub(r'(?<=\d) (?=\d)', '', s)]: a space between two digits is
    removed. *)
Fixpoint unspace_digits_from (prev_digit : bool) (s : string) : string :=
  match s with
  | EmptyString => EmptyString
  | String c r =>
      let next_digit :=
        match r with String d _ => is_digit d | EmptyString => false end in
      if Ascii.eqb c " "%char && prev_digit && next_digit
      then unspace_digits_from false r
      else String c (unspace_digits_from (is_digit c) r)
  end.

Definition unspace_digits : string -> string := unspace_digits_from false.

(** Membership in a tuple of strings. *)
Definition str_in (s : string) (l : list string) : bool :=
  existsb (String.eqb s) l.

(** Decimal rendering of an integer, as [str(int)]. *)
Definition digit_char (d : nat) : ascii := ascii_of_nat (48 + d).

Fixpoint pos_digits (fuel : nat) (n : N) (acc : string) : string :=
  match fuel with
  | O => acc
  | S k =>
      let acc' := String (digit_char (N.to_nat (N.modulo n 10))) acc in
      if N.ltb n 10 then acc' else pos_digits k (N.div n 10) acc'
  end.

Definition N_to_string (n : N) : string :=
  pos_digits (S (N.to_nat (N.log2 n))) n EmptyString.

Definition nat_to_string (n : nat) : string := N_to_string (N.of_nat n).

Definition Z_to_string (z : Z) : string :=
  if (z <? 0)%Z then String "-"%char (N_to_string (Z.abs_N z))
  else N_to_string (Z.abs_N z).

(** [s.rjust(w, "0")]. *)
Fixpoint zeros (n : nat) : string :=
  match n with
  | O => EmptyString
  | S k => String "0"%char (zeros k)
  end.

Definition pad_left (w : nat) (s : string) : string :=
  zeros (w - String.length s) ++ s.

(** [f"{q:.4f}"]. *)
Definition format_4f (q : Q) : string :=
  let a := Z.abs_N (round_half_even (q * 10000)) in
  let sign := if Qltb q 0 then "-" else "" in
  sign ++ N_to_string (N.div a 10000) ++ "." ++
  pad_left 4 (N_to_string (N.modulo a 10000)).

End Text.

(* ================================================================== *)
(** * Sorting and finite sets as lists                                  *)
(* ================================================================== *)

Section Sorting.
Context {A : Type} (leb : A -> A -> bool).

Fixpoint insert_sorted (x : A) (l : list A) : list A :=
  match l with
  | [] => [x]
  | y :: r => if leb x y then x :: l else y :: insert_sorted x r
  end.

(** [sorted(l)]; stable, as Python's sort is. *)
Definition sorted (l : list A) : list A := fold_right insert_sorted [] l.
End Sorting.

Section ListSet.
Context {A : Type} (eqb : A -> A -> bool).

Definition mem (x : A) (l : list A) : bool := existsb (eqb x) l.

(** [s.add(x)] on a set kept as a duplicate-free list. *)
Definition set_add (x : A) (l : list A) : list A :=
  if mem x l then l else l ++ [x].

(** [set(l)], in first-occurrence order. *)
Definition dedupe (l : list A) : list A :=
  fold_left (fun acc x => set_add x acc) l [].
End ListSet.

Definition str_leb (a b : string) : bool := String.leb a b.

(** [d[k] = v] and [d.get(k)] on a dict kept in insertion order. *)
Fixpoint dict_set {V : Type} (k : string) (v : V) (d : list (string * V))
  : list (string * V) :=
  match d with
  | [] => [(k, v)]
  | (k', v') :: r =>
      if String.eqb k k' then (k, v) :: r else (k', v') :: dict_set k v r
  end.

Fixpoint dict_get {V : Type} (k : string) (d : list (string * V)) : option V :=
  match d with
  | [] => None
  | (k', v) :: r => if String.eqb k k' then Some v else dict_get k r
  end.

(* ================================================================== *)
(** * Cell values                                                       *)
(* ================================================================== *)

(** A cell of a table.  [VNull] stands for every pandas null ([None],
    [NaN], [NaT], [pd.NA]); [VNum] is a finite float, [VInt] a Python or
    numpy integer, [VTime] a timezone-naive UTC timestamp. *)
Inductive value :=
| VNull
| VStr (s : string)
| VInt (z : Z)
| VNum (q : Q)
| VInf (neg : bool)
| VBool (b : bool)
| VTime (t : Z).

(** The number a numeric cell denotes. *)
Definition as_Q (v : value) : option Q :=
  match v with
  | VInt z => Some (inject_Z z)
  | VNum q => Some q
  | VBool b => Some (if b then 1%Q else 0%Q)
  | _ => None
  end.

(** Python's [==] on scalars: numbers compare by value across [int],
    [float] and [bool]; a null equals nothing. *)
Definition value_eqb (a b : value) : bool :=
  match a, b with
  | VStr s, VStr t => String.eqb s t
  | VInf x, VInf y => Bool.eqb x y
  | VTime s, VTime t => Z.eqb s t
  | VNull, _ | _, VNull => false
  | _, _ =>
      match as_Q a, as_Q b with
      | Some x, Some y => Qeq_bool x y
      | _, _ => false
      end
  end.

(** [pd.isna(x)] / [pd.notna(x)]. *)
Definition isna (v : value) : bool :=
  match v with VNull => true | _ => false end.

(* ================================================================== *)
(** * Audit sink ([ira/reporting/audit.py])                              *)
(* ================================================================== *)

Module Audit.

Local Open Scope string_scope.

Inductive AuditDetail := summary | detailed.

(** An audit event: a dict carrying the four mandatory keys.  [ev_column]
    is [None] when the dict has no ["column"] key; [ev_timestamp] is
    [None] when the timestamp is Python's [None]. *)
Record event := {
  ev_timestamp : option string;
  ev_event_type : string;
  ev_reason : string;
  ev_policy_section : string;
  ev_column : option string;
  ev_row_id : option value;
  ev_old_value : option string;
  ev_new_value : option string;
  ev_count : option nat
}.

Definition key := (string * string * string)%type.

Record footer := {
  f_detail : AuditDetail;
  f_total_events : nat;
  f_event_type_counts : list (string * nat);
  f_unique_columns_touched : nat;
  f_timestamp_start : option string;
  f_timestamp_end : option string;
  f_job_context : list (string * string)
}.

(** One line of the JSON Lines stream. *)
Inductive record :=
| RecEvent (e : event)
| RecSummary (event_type column reason : string) (count : nat)
             (samples : list event)
| RecFooter (f : footer).

(** The ["type"] field of a line; detailed events have none. *)
Definition record_type (r : record) : option string :=
  match r with
  | RecEvent _ => None
  | RecSummary _ _ _ _ _ => Some "summary_aggregate"
  | RecFooter _ => Some "job_summary"
  end.

Record AuditLogger := {
  detail : AuditDetail;
  file_lines : list record;       (* what has been written to [self.file] *)
  file_closed : bool;             (* [self.file.closed] *)
  opened : bool;                  (* [self._opened] *)
  summary_counts : list (key * nat);
  summary_samples : list (key * list event);
  context : list (string * string);
  timestamp_start : option string;
  timestamp_end : option string
}.

Definition max_samples_per_group : nat := 25.

(** [AuditLogger(path, detail)]: the file is opened by the constructor. *)
Definition new_logger (d : AuditDetail) : AuditLogger :=
  {| detail := d; file_lines := []; file_closed := false; opened := true;
     summary_counts := []; summary_samples := []; context := [];
     timestamp_start := None; timestamp_end := None |}.

Definition key_eqb (a b : key) : bool :=
  let '(a1, a2, a3) := a in
  let '(b1, b2, b3) := b in
  String.eqb a1 b1 && String.eqb a2 b2 && String.eqb a3 b3.

(** Tuple comparison: lexicographic, strings by code point. *)
Definition key_leb (a b : key) : bool :=
  let '(a1, a2, a3) := a in
  let '(b1, b2, b3) := b in
  match String.compare a1 b1 with
  | Lt => true
  | Gt => false
  | Eq =>
      match String.compare a2 b2 with
      | Lt => true
      | Gt => false
      | Eq => String.leb a3 b3
      end
  end.

Fixpoint kget {V : Type} (k : key) (d : list (key * V)) : option V :=
  match d with
  | [] => None
  | (k', v) :: r => if key_eqb k k' then Some v else kget k r
  end.

Fixpoint kset {V : Type} (k : key) (v : V) (d : list (key * V))
  : list (key * V) :=
  match d with
  | [] => [(k, v)]
  | (k', v') :: r =>
      if key_eqb k k' then (k, v) :: r else (k', v') :: kset k v r
  end.

Definition write_line (r : record) (a : AuditLogger) : AuditLogger :=
  if file_closed a then a
  else {| detail := detail a; file_lines := (file_lines a ++ [r])%list;
          file_closed := file_closed a; opened := opened a;
          summary_counts := summary_counts a;
          summary_samples := summary_samples a; context := context a;
          timestamp_start := timestamp_start a;
          timestamp_end := timestamp_end a |}.

Definition event_key (e : event) : key :=
  (ev_event_type e, get_or (ev_column e) "", ev_reason e).

Definition aggregate (e : event) (a : AuditLogger) : AuditLogger :=
  let k := event_key e in
  let counts := kset k (S (get_or (kget k (summary_counts a)) O))
                     (summary_counts a) in
  let old := get_or (kget k (summary_samples a)) [] in
  let samples :=
    kset k (if (List.length old <? max_samples_per_group)%nat
            then (old ++ [e])%list else old) (summary_samples a) in
  {| detail := detail a; file_lines := file_lines a;
     file_closed := file_closed a; opened := opened a;
     summary_counts := counts; summary_samples := samples;
     context := context a;
     timestamp_start := timestamp_start a;
     timestamp_end := timestamp_end a |}.

(** [log(event)] for an event that carries the mandatory keys. *)
Definition log (e : event) (a : AuditLogger) : AuditLogger :=
  let a1 :=
    {| detail := detail a; file_lines := file_lines a;
       file_closed := file_closed a; opened := opened a;
       summary_counts := summary_counts a;
       summary_samples := summary_samples a; context := context a;
       timestamp_start :=
         match timestamp_start a with
         | None => ev_timestamp e
         | Some t => Some t
         end;
       timestamp_end := ev_timestamp e |} in
  let a2 := aggregate e a1 in
  match detail a2 with
  | detailed => write_line (RecEvent e) a2
  | summary => a2
  end.

(** [set_context(k=v)]. *)
Definition set_context (k v : string) (a : AuditLogger) : AuditLogger :=
  {| detail := detail a; file_lines := file_lines a;
     file_closed := file_closed a; opened := opened a;
     summary_counts := summary_counts a;
     summary_samples := summary_samples a;
     context := dict_set k v (context a);
     timestamp_start := timestamp_start a;
     timestamp_end := timestamp_end a |}.

Definition summary_record (a : AuditLogger) (k : key) : record :=
  let '(etype, col, reason) := k in
  RecSummary etype col reason
    (get_or (kget k (summary_counts a)) O)
    (get_or (kget k (summary_samples a)) []).

(** The footer loop over [self._summary_counts.items()]. *)
Definition total_events (counts : list (key * nat)) : nat :=
  fold_left (fun acc kc => (acc + snd kc)%nat) counts O.

Definition by_event_type (counts : list (key * nat)) : list (string * nat) :=
  fold_left (fun acc kc =>
               let etype := fst (fst (fst kc)) in
               dict_set etype (get_or (dict_get etype acc) O + snd kc)%nat acc)
            counts [].

Definition touched_columns (counts : list (key * nat)) : list string :=
  fold_left (fun acc kc =>
               let col := snd (fst (fst kc)) in
               if negb (String.eqb col "" || String.eqb col "__row__")
               then set_add String.eqb col acc else acc)
            counts [].

Definition pair_leb (a b : string * nat) : bool :=
  match String.compare (fst a) (fst b) with
  | Lt => true
  | Gt => false
  | Eq => (snd a <=? snd b)%nat
  end.

Definition make_footer (a : AuditLogger) : footer :=
  {| f_detail := detail a;
     f_total_events := total_events (summary_counts a);
     f_event_type_counts := sorted pair_leb (by_event_type (summary_counts a));
     f_unique_columns_touched :=
       List.length (touched_columns (summary_counts a));
     f_timestamp_start := timestamp_start a;
     f_timestamp_end := timestamp_end a;
     f_job_context :=
       map (fun k => (k, get_or (dict_get k (context a)) ""))
           (sorted str_leb (map fst (context a))) |}.

Definition close (a : AuditLogger) : AuditLogger :=
  if negb (opened a) then a
  else
    let a1 :=
      if negb (file_closed a) then
        let a' :=
          match detail a with
          | summary =>
              fold_left (fun acc k => write_line (summary_record a k) acc)
                        (sorted key_leb (map fst (summary_counts a))) a
          | detailed => a
          end in
        write_line (RecFooter (make_footer a)) a'
      else a in
    {| detail := detail a1; file_lines := file_lines a1;
       file_closed := true; opened := false;
       summary_counts := summary_counts a1;
       summary_samples := summary_samples a1; context := context a1;
       timestamp_start := timestamp_start a1;
       timestamp_end := timestamp_end a1 |}.

(** What a client does with a logger before sealing it. *)
Inductive op :=
| OpLog (e : event)
| OpContext (k v : string).

Definition apply_op (a : AuditLogger) (o : op) : AuditLogger :=
  match o with
  | OpLog e => log e a
  | OpContext k v => set_context k v a
  end.

Definition run_ops (d : AuditDetail) (ops : list op) : AuditLogger :=
  fold_left apply_op ops (new_logger d).

(** The events among the operations. *)
Definition logged (ops : list op) : list event :=
  flat_map (fun o => match o with OpLog e => [e] | _ => [] end) ops.

(** The distinct real column names the logged events carry. *)
Definition real_columns (es : list event) : list string :=
  dedupe String.eqb
    (filter (fun c => negb (String.eqb c "" || String.eqb c "__row__"))
            (map (fun e => get_or (ev_column e) "") es)).

(** The column a line is about, for a detailed event. *)
Definition ev_column_of (r : record) : option string :=
  match r with
  | RecEvent e => ev_column e
  | _ => None
  end.

Definition is_job_summary (r : record) : bool :=
  match record_type r with
  | Some t => String.eqb t "job_summary"
  | None => false
  end.

End Audit.

(* ================================================================== *)
(** * Tables                                                            *)
(* ================================================================== *)

(** The pandas dtypes the pipeline distinguishes: [object], [float64],
    [int64], [bool], nullable [boolean], [datetime64[ns]]. *)
Inductive dtype := DObject | DFloat | DInt | DBool | DBoolean | DDatetime.

Record Series := {
  s_dtype : dtype;
  s_values : list value      (* positionally aligned with the index *)
}.

(** A DataFrame: the row labels and the columns in order. *)
Record DataFrame := {
  df_index : list Z;
  df_data : list (string * Series)
}.

Definition zlookup {V : Type} (k : Z) (d : list (Z * V)) : option V :=
  match find (fun kv => Z.eqb (fst kv) k) d with
  | Some kv => Some (snd kv)
  | None => None
  end.

Module Frame.

Definition columns (df : DataFrame) : list string := map fst (df_data df).

(** [col in df.columns]. *)
Definition has_column (df : DataFrame) (c : string) : bool :=
  mem String.eqb c (columns df).

(** [df[col]]. *)
Definition col (df : DataFrame) (c : string) : option Series :=
  dict_get c (df_data df).

(** [df[col] = s]. *)
Definition set_col (df : DataFrame) (c : string) (s : Series) : DataFrame :=
  {| df_index := df_index df; df_data := dict_set c s (df_data df) |}.

(** The cells of a series with their row labels. *)
Definition items (df : DataFrame) (s : Series) : list (Z * value) :=
  combine (df_index df) (s_values s).

(** The same, in the order of [sorted(src.index)]. *)
Definition sorted_items (df : DataFrame) (s : Series) : list (Z * value) :=
  sorted (fun a b => Z.leb (fst a) (fst b)) (items df s).

(** [s.at[idx]]. *)
Definition at_label (df : DataFrame) (s : Series) (idx : Z) : value :=
  get_or (zlookup idx (items df s)) VNull.

(** A buffer initialised to [init] and then written at the labels of
    [outs]. *)
Definition buffer (df : DataFrame) (init : value) (outs : list (Z * value))
  : list value :=
  map (fun idx => get_or (zlookup idx outs) init) (df_index df).

Fixpoint keep_by {A : Type} (mask : list bool) (l : list A) : list A :=
  match mask, l with
  | b :: m, x :: r => if b then x :: keep_by m r else keep_by m r
  | _, _ => []
  end.

(** [df[mask]] for a boolean mask aligned with the index. *)
Definition select_rows (df : DataFrame) (mask : list bool) : DataFrame :=
  {| df_index := keep_by mask (df_index df);
     df_data := map (fun cs => (fst cs,
                                {| s_dtype := s_dtype (snd cs);
                                   s_values := keep_by mask (s_values (snd cs)) |}))
                    (df_data df) |}.

(** [df.drop(index=labels)]. *)
Definition drop_labels (df : DataFrame) (labels : list Z) : DataFrame :=
  select_rows df (map (fun idx => negb (mem Z.eqb idx labels)) (df_index df)).

(** The cell of column [c] in the row labelled [idx]. *)
Definition cell (df : DataFrame) (c : string) (idx : Z) : option value :=
  match col df c with
  | Some s => zlookup idx (items df s)
  | None => None
  end.

Definition is_numeric_dtype (s : Series) : bool :=
  match s_dtype s with
  | DFloat | DInt | DBool | DBoolean => true
  | _ => false
  end.

Definition is_datetime64_any_dtype (s : Series) : bool :=
  match s_dtype s with DDatetime => true | _ => false end.

(** [is_object_dtype(s) or is_string_dtype(s)]. *)
Definition is_string_like (s : Series) : bool :=
  match s_dtype s with DObject => true | _ => false end.

End Frame.

(* ================================================================== *)
(** * Policy                                                            *)
(* ================================================================== *)

(** The policy sections the pipeline reads.  A field holds what the
    code's [.get(key, default)] yields; [default_policy] is the policy
    [{}]. *)
Record RolesCfg := {
  critical_columns : list string;
  protected_columns : list string
}.

Record BoolCfg := {
  true_values : list string;
  false_values : list string;
  bool_on_failure : string
}.

Record NumCfg := {
  allow_commas : bool;
  allow_currency_symbols : bool;
  allow_percent_symbol : bool;
  percent_scale : string;
  num_on_failure : string
}.

Record DtCfg := {
  dayfirst : bool;
  yearfirst : bool;
  allowed_formats : list string;
  dt_on_failure : string
}.

Record ParsingCfg := {
  column_types : list (string * string);
  parsing_boolean : BoolCfg;
  parsing_numeric : NumCfg;
  parsing_datetime : DtCfg
}.

Record StdCfg := {
  strip_nonprinting : bool;
  global_trim_whitespace : bool;
  global_collapse_whitespace : bool;
  casefold : string;
  mappings : list (string * list (string * string))
}.

Record BucketCfg := {
  bucket_default : string;                  (* "default" *)
  bucket_constants : list (string * value); (* "constants" *)
  allow_if_missing_pct_leq : Q
}.

Record MissingCfg := {
  missing_enabled : bool;
  drop_if_missing_critical : bool;
  imputation_numeric : BucketCfg;
  imputation_datetime : BucketCfg;
  imputation_categorical : BucketCfg
}.

Record ValidityCfg := {
  validity_enabled : bool;
  ranges : list (string * (option Q * option Q));
  allowed_values : list (string * list value);
  regex : list (string * string);
  non_negative_columns : list string;
  on_violation : string
}.

Record Policy := {
  roles : RolesCfg;
  parsing : ParsingCfg;
  standardization : StdCfg;
  missing_data : MissingCfg;
  validity_rules : ValidityCfg
}.

Definition default_bucket : BucketCfg :=
  {| bucket_default := "none"; bucket_constants := [];
     allow_if_missing_pct_leq := 1 |}.

Definition default_roles : RolesCfg :=
  {| critical_columns := []; protected_columns := [] |}.

Definition default_parsing : ParsingCfg :=
  {| column_types := [];
     parsing_boolean := {| true_values := []; false_values := [];
                           bool_on_failure := "null" |};
     parsing_numeric := {| allow_commas := true;
                           allow_currency_symbols := true;
                           allow_percent_symbol := true;
                           percent_scale := "auto";
                           num_on_failure := "null" |};
     parsing_datetime := {| dayfirst := false; yearfirst := false;
                            allowed_formats := [];
                            dt_on_failure := "null" |} |}.

Definition default_standardization : StdCfg :=
  {| strip_nonprinting := false; global_trim_whitespace := false;
     global_collapse_whitespace := false; casefold := "none";
     mappings := [] |}.

Definition default_missing : MissingCfg :=
  {| missing_enabled := true; drop_if_missing_critical := true;
     imputation_numeric := default_bucket;
     imputation_datetime := default_bucket;
     imputation_categorical := default_bucket |}.

Definition default_validity : ValidityCfg :=
  {| validity_enabled := true; ranges := []; allowed_values := [];
     regex := []; non_negative_columns := []; on_violation := "flag" |}.

Definition default_policy : Policy :=
  {| roles := default_roles; parsing := default_parsing;
     standardization := default_standardization;
     missing_data := default_missing;
     validity_rules := default_validity |}.

(* ================================================================== *)
(** * Environment and effects                                           *)
(* ================================================================== *)

(** What a datetime parser returns for a text it accepts: a timestamp
    that fits a nanosecond column, or one outside that range. *)
Inductive parsed_time := InRange (t : Z) | OutOfBounds (t : Z).

(** The library behaviour the pipeline relies on. *)
Record Env := {
  wall_clock : nat -> string;
    (* [_utc_iso_now()] at its n-th call *)
  float_repr : Q -> string;
    (* [str(x)] of a finite float *)
  time_repr : Z -> string;
    (* [str(t)] of a timestamp *)
  try_format : string -> bool -> bool -> string -> option parsed_time;
    (* [pd.to_datetime(text, format=fmt, errors="raise", ..)] *)
  to_datetime : bool -> bool -> value -> option parsed_time;
    (* [pd.to_datetime(val, errors="coerce", ..)], UTC-normalised *)
  timestamp_of : string -> option Z;
    (* [pd.Timestamp(text)], UTC-normalised; [None] when it raises *)
  re_match : string -> string -> bool;
    (* [re.match(pattern, text) is not None] *)
  str_hash : string -> Z
    (* [hash(s)], salted per process unless PYTHONHASHSEED is fixed *)
}.

(** A phase runs against the trace of events handed to [AuditLogger.log]
    and the number of clock calls made so far; it may raise. *)
Record pstate := {
  trace : list Audit.event;
  ticks : nat
}.

Inductive res (A : Type) :=
| Ok (a : A)
| Err (msg : string).

Arguments Ok {A} a.
Arguments Err {A} msg.

Definition M (A : Type) : Type := pstate -> res (A * pstate).

Definition ret {A : Type} (a : A) : M A := fun st => Ok (a, st).

Definition bind {A B : Type} (m : M A) (f : A -> M B) : M B :=
  fun st =>
    match m st with
    | Ok (a, st') => f a st'
    | Err msg => Err msg
    end.

Definition raise {A : Type} (msg : string) : M A := fun _ => Err msg.

Declare Scope m_scope.
Delimit Scope m_scope with M.
Notation "x <- c1 ;; c2" := (bind c1 (fun x => c2))
  (at level 61, c1 at next level, right associativity) : m_scope.
Notation "c1 ;; c2" := (bind c1 (fun _ => c2))
  (at level 61, right associativity) : m_scope.

Local Open Scope m_scope.

(** [audit.log(event)]. *)
Definition emit (e : Audit.event) : M unit :=
  fun st => Ok (tt, {| trace := trace st ++ [e]; ticks := ticks st |}).

(** One call of the zero-argument clock. *)
Definition call_clock (clk : nat -> string) : M string :=
  fun st => Ok (clk (ticks st),
                {| trace := trace st; ticks := S (ticks st) |}).

(** [for x in l: acc = f(acc, x)]. *)
Fixpoint foldM {A B : Type} (f : B -> A -> M B) (l : list A) (acc : B) : M B :=
  match l with
  | [] => ret acc
  | x :: r => acc' <- f acc x ;; foldM f r acc'
  end.

(** [for x in l: f(x)]. *)
Definition forM_ {A : Type} (f : A -> M unit) (l : list A) : M unit :=
  foldM (fun _ x => f x) l tt.

(** [AuditLogger.log_value_change]: the timestamp key is only set when
    the timestamp is truthy, and [log] raises on a missing key. *)
Definition log_value_change (event_type : string) (row_id : value)
    (column : string) (old_value new_value : option string)
    (reason policy_section timestamp : string) : M unit :=
  if String.eqb timestamp ""
  then raise "Missing required audit fields: {'timestamp'}"
  else emit {| Audit.ev_timestamp := Some timestamp;
               Audit.ev_event_type := event_type;
               Audit.ev_reason := reason;
               Audit.ev_policy_section := policy_section;
               Audit.ev_column := Some column;
               Audit.ev_row_id := Some row_id;
               Audit.ev_old_value := old_value;
               Audit.ev_new_value := new_value;
               Audit.ev_count := None |}.

Definition initial : pstate := {| trace := []; ticks := O |}.

(* ================================================================== *)
(** * Python's [float(text)]                                            *)
(* ================================================================== *)

Inductive pyfloat := PFinite (q : Q) | PInfinite (neg : bool) | PNaN.

Module PyFloat.

Import Text.
Local Open Scope string_scope.

(** A digit part: [digit ("_"? digit)*].  Returns the number read, how
    many digits it has, and the rest of the text. *)
Fixpoint read_digits (s : string) (acc : N) (n : nat) : N * nat * string :=
  match s with
  | EmptyString => (acc, n, s)
  | String c r =>
      if is_digit c
      then read_digits r (acc * 10 + N.of_nat (code c - 48))%N (S n)
      else if Ascii.eqb c "_"%char && (0 <? n)%nat
      then match r with
           | String d _ => if is_digit d then read_digits r acc n
                           else (acc, n, s)
           | EmptyString => (acc, n, s)
           end
      else (acc, n, s)
  end.

Definition split_sign (s : string) : bool * string :=
  match s with
  | String c r =>
      if Ascii.eqb c "-"%char then (true, r)
      else if Ascii.eqb c "+"%char then (false, r)
      else (false, s)
  | EmptyString => (false, s)
  end.

Definition pow10 (e : Z) : Q :=
  if (0 <=? e)%Z then inject_Z (10 ^ e) else (1 / inject_Z (10 ^ (- e)))%Q.

(** The largest magnitude that still rounds to a finite double is just
    below [2^1024 - 2^970]. *)
Definition overflow_bound : Q := inject_Z (2 ^ 1024 - 2 ^ 970).

Definition finite_or_inf (neg : bool) (mag : Q) : pyfloat :=
  if Qltb mag overflow_bound
  then PFinite (Qred (if neg then - mag else mag))
  else PInfinite neg.

(** The exponent part, [None] when the text is not a well-formed one. *)
Definition read_exponent (s : string) : option Z :=
  match s with
  | EmptyString => Some 0%Z
  | String c r =>
      if Ascii.eqb c "e"%char || Ascii.eqb c "E"%char then
        let '(eneg, r1) := split_sign r in
        let '(ev, ne, r2) := read_digits r1 0%N O in
        if (0 <? ne)%nat && String.eqb r2 ""
        then Some (if eneg then (- Z.of_N ev)%Z else Z.of_N ev)
        else None
      else None
  end.

Definition py_float (raw : string) : option pyfloat :=
  let s := strip raw in
  let '(neg, body) := split_sign s in
  let lb := lower body in
  if String.eqb lb "inf" || String.eqb lb "infinity" then Some (PInfinite neg)
  else if String.eqb lb "nan" then Some PNaN
  else
    let '(ip, ni, r1) := read_digits body 0%N O in
    let '(fp, nf, r2) :=
      match r1 with
      | String c r =>
          if Ascii.eqb c "."%char then read_digits r 0%N O else (0%N, O, r1)
      | EmptyString => (0%N, O, r1)
      end in
    if (ni + nf =? 0)%nat then None
    else
      match read_exponent r2 with
      | None => None
      | Some e =>
          let mant := (Z.of_N ip * 10 ^ Z.of_nat nf + Z.of_N fp)%Z in
          Some (finite_or_inf neg
                  (inject_Z mant * pow10 (e - Z.of_nat nf))%Q)
      end.

End PyFloat.

(* ================================================================== *)
(** * The correction phases                                             *)
(* ================================================================== *)

Local Open Scope string_scope.

(** The tokens [_is_effectively_missing] recognises. *)
Definition missing_tokens : list string :=
  [""; "nan"; "null"; "none"; "na"; "n/a"; "inf"; "-inf"; "infinity";
   "-infinity"].

(** [_is_effectively_missing(x)].  [str(x)] of a finite number, a
    boolean or a timestamp is never one of the tokens. *)
Definition is_effectively_missing (x : value) : bool :=
  match x with
  | VNull => true
  | VInf _ => true
  | VStr s => Text.str_in (Text.lower (Text.strip s)) missing_tokens
  | VInt _ | VNum _ | VBool _ | VTime _ => false
  end.

(** Cell equality under which two nulls are the same cell. *)
Definition value_same (a b : value) : bool :=
  match a, b with
  | VNull, VNull => true
  | VStr s, VStr t => String.eqb s t
  | VInt x, VInt y => Z.eqb x y
  | VNum x, VNum y => Qeq_bool x y
  | VInf x, VInf y => Bool.eqb x y
  | VBool x, VBool y => Bool.eqb x y
  | VTime x, VTime y => Z.eqb x y
  | _, _ => false
  end.

Fixpoint values_same (a b : list value) : bool :=
  match a, b with
  | [], [] => true
  | x :: r, y :: s => value_same x y && values_same r s
  | _, _ => false
  end.

(** What the parser decides for one cell. *)
Inductive outcome :=
| Parsed (v : value)              (* typed value stored, nothing logged *)
| Missing (stored : value)        (* effectively missing, nothing logged *)
| Failed (stored : value) (reason : string) (drop : bool).

Definition numeric_types : list string := ["numeric"; "integer"; "float"].
Definition datetime_types : list string := ["datetime"; "date"; "timestamp"].
Definition boolean_types : list string := ["boolean"].

Definition currency_codes : list string :=
  ["USD"; "EUR"; "GBP"; "INR"; "JPY"; "AUD"; "CAD"; "CHF"; "CNY"; "MXN";
   "BRL"; "KRW"; "SGD"; "HKD"; "NZD"; "RS."; "RS"].

(** The loop over currency codes of [_strip_currency_and_commas]:
    [Some rest] when a code is cut off, at the first [break]. *)
Fixpoint strip_code (s_stripped s_upper : string) (codes : list string)
  : option string :=
  match codes with
  | [] => None
  | code :: more =>
      let at_start :=
        if Text.startswith s_upper code
        then (let rest := Text.lstrip (Text.drop (String.length code) s_stripped)
              in if String.eqb rest "" then None else Some rest)
        else None in
      match at_start with
      | Some rest => Some rest
      | None =>
          let at_end :=
            if Text.endswith s_upper code
            then (let rest :=
                    Text.rstrip (Text.drop_last (String.length code) s_stripped)
                  in if String.eqb rest "" then None else Some rest)
            else None in
          match at_end with
          | Some rest => Some rest
          | None => strip_code s_stripped s_upper more
          end
      end
  end.

(** [_strip_currency_and_commas]; of the one-character symbols only the
    dollar sign is ASCII. *)
Definition strip_currency_and_commas (text : string)
    (allow_commas allow_currency : bool) : string :=
  let s := if allow_commas then Text.remove_char ","%char text else text in
  let s :=
    if allow_currency then
      let s := Text.remove_char "$"%char s in
      let s_stripped := Text.strip s in
      match strip_code s_stripped (Text.upper s_stripped) currency_codes with
      | Some rest => rest
      | None => s
      end
    else s in
  Text.strip s.

Definition nan_inf_tokens : list string :=
  ["nan"; "-nan"; "+nan"; "inf"; "-inf"; "+inf"; "infinity"; "-infinity";
   "+infinity"].

(** [_normalize_numeric_string]; [None] when it raises [ValueError]. *)
Definition normalize_numeric_string (raw : string) : option string :=
  let s := Text.strip raw in
  let s_lower := Text.remove_char " "%char (Text.lower s) in
  if Text.str_in s_lower nan_inf_tokens then None
  else
    let s := if Text.startswith s "(" && Text.endswith s ")"
             then "-" ++ Text.drop_last 1 (Text.drop 1 s) else s in
    let s :=
      match s with
      | String c r =>
          if Ascii.eqb c "+"%char then
            match r with
            | String d _ => if Ascii.eqb d "+"%char then s else r
            | EmptyString => s
            end
          else s
      | EmptyString => s
      end in
    Some (Text.unspace_digits s).

(** [sub in text]. *)
Definition contains (text sub : string) : bool :=
  match String.index 0 sub text with Some _ => true | None => false end.

Section Pipeline.

Variable env : Env.

Local Open Scope m_scope.

(** [str(x)]. *)
Definition py_str (v : value) : string :=
  match v with
  | VNull => "nan"
  | VStr s => s
  | VInt z => Text.Z_to_string z
  | VNum q => float_repr env q
  | VInf neg => if neg then "-inf" else "inf"
  | VBool b => if b then "True" else "False"
  | VTime t => time_repr env t
  end.

(** [for x in set(l)]: a set of strings is walked in the order of the
    slots its members hash to. *)
Definition set_iteration (l : list string) : list string :=
  sorted (fun a b => Z.leb (str_hash env a) (str_hash env b))
         (dedupe String.eqb l).

(** [str(x) if pd.notna(x) else None]. *)
Definition str_if_notna (v : value) : option string :=
  if isna v then None else Some (py_str v).

(** [clock or _utc_iso_now]. *)
Definition clock_or (clock : option (nat -> string)) : nat -> string :=
  match clock with
  | Some c => c
  | None => wall_clock env
  end.

Definition require_row_id (df : DataFrame) : M unit :=
  if Frame.has_column df "_row_id" then ret tt
  else raise "DataFrame must contain a '_row_id' column for stable auditing.".

(** [df["_row_id"]], read by label. *)
Definition row_id_at (df : DataFrame) (idx : Z) : value :=
  match Frame.col df "_row_id" with
  | Some s => Frame.at_label df s idx
  | None => VNull
  end.

(** ** Standardizer ([ira/correction/standardize.py]) *)

(** [_audit_change]: one event per cell that differs, all stamped with
    one reading of the clock. *)
Definition audit_change (audit : bool) (column : string)
    (row_ids : Z -> value) (index : list Z) (old_s new_s : Series)
    (reason policy_section : string) (clk : nat -> string) : M unit :=
  if negb audit then ret tt
  else
    let changed :=
      filter (fun c => negb (value_same (fst (snd c)) (snd (snd c))))
             (combine index (combine (s_values old_s) (s_values new_s))) in
    match changed with
    | [] => ret tt
    | _ =>
        ts <- call_clock clk ;;
        forM_ (fun c =>
                 log_value_change "standardization_change"
                   (row_ids (fst c)) column
                   (str_if_notna (fst (snd c))) (str_if_notna (snd (snd c)))
                   reason policy_section ts)
              changed
    end.

(** A text function applied to the string cells only. *)
Definition on_text (f : string -> string) (v : value) : value :=
  match v with
  | VStr s => VStr (f s)
  | _ => v
  end.

Definition map_series (f : value -> value) (s : Series) : Series :=
  {| s_dtype := s_dtype s; s_values := map f (s_values s) |}.

(** The body shared by the five steps: compare, audit, assign. *)
Definition replace_column (audit : bool) (clk : nat -> string)
    (row_ids : Z -> value) (reason policy_section : string)
    (df : DataFrame) (c : string) (old_s new_s : Series) : M DataFrame :=
  if values_same (s_values old_s) (s_values new_s) then ret df
  else
    audit_change audit c row_ids (df_index df) old_s new_s
                 reason policy_section clk ;;
    ret (Frame.set_col df c new_s).

(** One global step: [for col in df.columns]. *)
Definition std_step (audit : bool) (clk : nat -> string)
    (protected : list string) (row_ids : Z -> value)
    (f : string -> string) (reason policy_section : string)
    (df0 : DataFrame) : M DataFrame :=
  foldM (fun df c =>
           match Frame.col df c with
           | None => ret df
           | Some old_s =>
               if mem String.eqb c protected
                  || negb (Frame.is_string_like old_s)
               then ret df
               else replace_column audit clk row_ids reason policy_section
                                   df c old_s (map_series (on_text f) old_s)
           end)
        (Frame.columns df0) df0.

(** [apply_casefold] on one text. *)
Definition casefold_text (mode : string) (s : string) : string :=
  if String.eqb mode "lower" then Text.lower s
  else if String.eqb mode "upper" then Text.upper s
  else if String.eqb mode "title" then Text.title s
  else s.

(** [apply_mappings] on one cell: non-null values equal to a key are
    replaced. *)
Definition apply_mapping (mapping : list (string * string)) (v : value)
  : value :=
  match v with
  | VStr s =>
      match dict_get s mapping with
      | Some t => VStr t
      | None => v
      end
  | _ => v
  end.

Definition mapping_step (audit : bool) (clk : nat -> string)
    (protected : list string) (row_ids : Z -> value)
    (df : DataFrame) (cm : string * list (string * string)) : M DataFrame :=
  let '(c, mapping) := cm in
  match Frame.col df c with
  | None => ret df
  | Some old_s =>
      if mem String.eqb c protected then ret df
      else
        let new_s := match mapping with
                     | [] => old_s
                     | _ => map_series (apply_mapping mapping) old_s
                     end in
        replace_column audit clk row_ids "value_mapping"
                       "standardization.mappings" df c old_s new_s
  end.

Definition apply_standardization (df : DataFrame) (policy : Policy)
    (audit : bool) (clock : option (nat -> string)) : M DataFrame :=
  require_row_id df ;;
  let clk := clock_or clock in
  let row_ids := row_id_at df in
  let protected := protected_columns (roles policy) in
  let std_cfg := standardization policy in
  df <- (if strip_nonprinting std_cfg
         then std_step audit clk protected row_ids Text.remove_controls
                "strip_nonprinting" "standardization.strip_nonprinting" df
         else ret df) ;;
  df <- (if global_trim_whitespace std_cfg
         then std_step audit clk protected row_ids Text.strip
                "trim_whitespace" "standardization.global_trim_whitespace" df
         else ret df) ;;
  df <- (if global_collapse_whitespace std_cfg
         then std_step audit clk protected row_ids Text.collapse_ws
                "collapse_whitespace"
                "standardization.global_collapse_whitespace" df
         else ret df) ;;
  df <- (if negb (String.eqb (casefold std_cfg) "none")
         then std_step audit clk protected row_ids
                (casefold_text (casefold std_cfg))
                ("casefold_" ++ casefold std_cfg)
                "standardization.casefold" df
         else ret df) ;;
  foldM (mapping_step audit clk protected row_ids) (mappings std_cfg) df.

(** ** Parser ([ira/correction/parsing.py]) *)

(** [_audit_failure]. *)
Definition audit_failure (audit : bool) (clk : nat -> string)
    (row_id : value) (column : string) (old_value : value)
    (reason policy_section : string) : M unit :=
  if negb audit then ret tt
  else
    ts <- call_clock clk ;;
    log_value_change "parsing_failure" row_id column
      (Some (py_str old_value)) None reason policy_section ts.

(** The branch on the failure mode, for a cell that failed with
    [reason]: what the output buffer keeps ([null] being the buffer's
    initial value) and whether the row is marked. *)
Definition on_failure (mode : string) (val : value) (keep_raw_mode : bool)
    (reason : string) : outcome :=
  if String.eqb mode "drop_row"
  then Failed (if keep_raw_mode then val else VNull) reason true
  else if String.eqb mode "null" then Failed VNull reason false
  else if String.eqb mode "keep_raw" then Failed val reason false
  else Failed VNull reason false.

Definition normalized_literals (l : list string) : list string :=
  map (fun v => Text.lower (Text.strip v)) l.

Definition parse_boolean_cell (cfg : BoolCfg) (val : value) : outcome :=
  if is_effectively_missing val then Missing VNull
  else
    let sval := Text.lower (Text.strip (py_str val)) in
    if Text.str_in sval (normalized_literals (true_values cfg))
    then Parsed (VBool true)
    else if Text.str_in sval (normalized_literals (false_values cfg))
    then Parsed (VBool false)
    else on_failure (bool_on_failure cfg) val false "invalid_boolean".

(** The text handed to [float] and whether it carried a percent sign,
    from [raw = str(val).strip()]. *)
Definition numeric_text_of (cfg : NumCfg) (raw : string) : string * bool :=
  let raw_normalized := Text.split_join raw in
  let is_pct := allow_percent_symbol cfg
                && Text.contains_char "%"%char raw_normalized in
  let raw_num :=
    if is_pct then Text.strip (Text.remove_char "%"%char raw_normalized)
    else raw in
  let raw_num := strip_currency_and_commas raw_num (allow_commas cfg)
                   (allow_currency_symbols cfg) in
  let raw_num := match normalize_numeric_string raw_num with
                 | Some s => s
                 | None => raw_num     (* the [ValueError] is swallowed *)
                 end in
  (raw_num, is_pct).

Definition numeric_text (cfg : NumCfg) (val : value) : string * bool :=
  numeric_text_of cfg (Text.strip (py_str val)).

(** [str(e)] for the [ValueError] of [float(text)], for a text without
    quotes or escapes. *)
Definition float_error_message (text : string) : string :=
  "could not convert string to float: '" ++ text ++ "'".

Definition failure_reason (message : string) : string :=
  if contains message "infinite" || contains message "nan"
  then message else "invalid_numeric".

Definition scale_percent (cfg : NumCfg) (is_pct : bool) (num : Q) : Q :=
  if is_pct then
    if String.eqb (percent_scale cfg) "0_1" then Qred (num / 100)
    else if String.eqb (percent_scale cfg) "0_100" then num
    else if String.eqb (percent_scale cfg) "auto" then Qred (num / 100)
    else num
  else num.

(** One cell of a numeric column.  A cell that already holds a finite
    number reads back as itself: its [str] is a plain decimal literal
    that the stripping steps leave alone and [float] inverts. *)
Definition parse_numeric_cell (cfg : NumCfg) (val : value) : outcome :=
  let keep_raw_mode := String.eqb (num_on_failure cfg) "keep_raw" in
  if is_effectively_missing val
  then Missing (if keep_raw_mode then val else VNull)
  else
    match val with
    | VNum q => Parsed (VNum q)
    | VInt z => Parsed (VNum (inject_Z z))
    | VTime _ =>
        on_failure (num_on_failure cfg) val keep_raw_mode "invalid_numeric"
    | _ =>
        let '(raw_num, is_pct) := numeric_text cfg val in
        match PyFloat.py_float raw_num with
        | Some (PFinite num) => Parsed (VNum (scale_percent cfg is_pct num))
        | Some (PInfinite _) | Some PNaN =>
            on_failure (num_on_failure cfg) val keep_raw_mode
                       (failure_reason "infinite_or_nan_value")
        | None =>
            on_failure (num_on_failure cfg) val keep_raw_mode
                       (failure_reason (float_error_message raw_num))
        end
    end.

(** [_try_formats]. *)
Fixpoint try_formats (text : string) (formats : list string)
    (dayfirst yearfirst : bool) : option parsed_time :=
  match formats with
  | [] => None
  | fmt :: more =>
      match try_format env fmt dayfirst yearfirst text with
      | Some t => Some t
      | None => try_formats text more dayfirst yearfirst
      end
  end.

Definition parse_datetime_cell (cfg : DtCfg) (val : value) : outcome :=
  let keep_raw_mode := String.eqb (dt_on_failure cfg) "keep_raw" in
  if is_effectively_missing val
  then Missing (if keep_raw_mode then val else VNull)
  else
    let parsed :=
      match try_formats (Text.strip (py_str val)) (allowed_formats cfg)
                        (dayfirst cfg) (yearfirst cfg) with
      | Some t => Some t
      | None => to_datetime env (dayfirst cfg) (yearfirst cfg) val
      end in
    match parsed with
    | None =>
        on_failure (dt_on_failure cfg) val keep_raw_mode "invalid_datetime"
    | Some (InRange t) => Parsed (VTime t)
    | Some (OutOfBounds t) =>
        (* assigning into a nanosecond buffer overflows; an object
           buffer takes any timestamp *)
        if keep_raw_mode then Parsed (VTime t)
        else Failed VNull "datetime_out_of_bounds" false
    end.

(** The state the parser threads through its columns: the table, and
    the labels accumulated in [rows_to_drop]. *)
Definition parse_state : Type := DataFrame * list Z.

(** The loop over [sorted(src.index)] for one cell. *)
Definition parse_cell_step (audit : bool) (clk : nat -> string)
    (row_ids : Z -> value) (decide : value -> outcome)
    (column policy_section : string)
    (acc : list (Z * value) * list Z) (item : Z * value)
  : M (list (Z * value) * list Z) :=
  let '(outs, drops) := acc in
  let '(idx, val) := item in
  match decide val with
  | Parsed v => ret ((outs ++ [(idx, v)])%list, drops)
  | Missing v => ret ((outs ++ [(idx, v)])%list, drops)
  | Failed stored reason drop =>
      audit_failure audit clk (row_ids idx) column val reason
                    policy_section ;;
      ret ((outs ++ [(idx, stored)])%list,
           if drop then set_add Z.eqb idx drops else drops)
  end.

(** One declared column: fill the output buffer, then [df[col] = out]. *)
Definition parse_column (audit : bool) (clk : nat -> string)
    (row_ids : Z -> value) (decide : value -> outcome)
    (policy_section : string) (out_dtype : dtype)
    (st : parse_state) (column : string) : M parse_state :=
  let '(df, drops) := st in
  match Frame.col df column with
  | None => ret st
  | Some src =>
      r <- foldM (parse_cell_step audit clk row_ids decide column
                                  policy_section)
                 (Frame.sorted_items df src) ([], drops) ;;
      ret (Frame.set_col df column
             {| s_dtype := out_dtype;
                s_values := Frame.buffer df VNull (fst r) |},
           snd r)
  end.

(** [sorted([c for c, t in col_types.items() if t in types and
    c in df.columns and c not in protected])]. *)
Definition typed_columns (df : DataFrame) (policy : Policy)
    (types : list string) : list string :=
  sorted str_leb
    (map fst
       (filter (fun ct =>
                  Text.str_in (snd ct) types
                  && Frame.has_column df (fst ct)
                  && negb (mem String.eqb (fst ct)
                               (protected_columns (roles policy))))
               (column_types (parsing policy)))).

(** The three column loops, without the final drop. *)
Definition parse_columns (df : DataFrame) (policy : Policy) (audit : bool)
    (clk : nat -> string) : M parse_state :=
  let row_ids := row_id_at df in
  let bool_cfg := parsing_boolean (parsing policy) in
  let num_cfg := parsing_numeric (parsing policy) in
  let dt_cfg := parsing_datetime (parsing policy) in
  let keep_raw mode := String.eqb mode "keep_raw" in
  st <- foldM (parse_column audit clk row_ids (parse_boolean_cell bool_cfg)
                 "parsing.boolean"
                 (if keep_raw (bool_on_failure bool_cfg)
                  then DObject else DBoolean))
              (typed_columns df policy boolean_types) (df, []) ;;
  st <- foldM (parse_column audit clk row_ids (parse_numeric_cell num_cfg)
                 "parsing.numeric"
                 (if keep_raw (num_on_failure num_cfg)
                  then DObject else DFloat))
              (typed_columns (fst st) policy numeric_types) st ;;
  foldM (parse_column audit clk row_ids (parse_datetime_cell dt_cfg)
           "parsing.datetime"
           (if keep_raw (dt_on_failure dt_cfg) then DObject else DDatetime))
        (typed_columns (fst st) policy datetime_types) st.

(** The block after the loops: audit and drop the marked rows, once. *)
Definition drop_marked_rows (audit : bool) (clk : nat -> string)
    (row_ids : Z -> value) (st : parse_state) : M DataFrame :=
  let '(df, rows_to_drop) := st in
  match rows_to_drop with
  | [] => ret df
  | _ =>
      (if audit then
         ts <- call_clock clk ;;
         forM_ (fun idx =>
                  log_value_change "row_dropped" (row_ids idx) "__row__"
                    (Some "row_present") None "parsing_on_failure_drop_row"
                    "parsing.on_failure.drop_row" ts)
               (sorted Z.leb rows_to_drop)
       else ret tt) ;;
      ret (Frame.drop_labels df (sorted Z.leb rows_to_drop))
  end.

Definition apply_parsing (df : DataFrame) (policy : Policy)
    (audit : bool) (clock : option (nat -> string)) : M DataFrame :=
  require_row_id df ;;
  let clk := clock_or clock in
  st <- parse_columns df policy audit clk ;;
  drop_marked_rows audit clk (row_id_at df) st.

(** ** Validity enforcer ([ira/correction/validity.py]) *)

Definition count_true (mask : list bool) : nat :=
  List.length (filter (fun b => b) mask).

Definition any_true (mask : list bool) : bool := existsb (fun b => b) mask.

(** [a |= b] on aligned masks. *)
Fixpoint mask_or (a b : list bool) : list bool :=
  match a, b with
  | x :: r, y :: s => (x || y) :: mask_or r s
  | _, _ => a
  end.

(** [v < bound] and [v > bound] on a numeric column; a null compares
    false. *)
Definition lt_num (bound : Q) (v : value) : bool :=
  match v with
  | VInf neg => neg
  | _ => match as_Q v with Some q => Qltb q bound | None => false end
  end.

Definition gt_num (bound : Q) (v : value) : bool :=
  match v with
  | VInf neg => negb neg
  | _ => match as_Q v with Some q => Qltb bound q | None => false end
  end.

(** [df.loc[mask, col] = np.nan]: integers are upcast to float and
    booleans to object. *)
Definition nullify (mask : list bool) (s : Series) : Series :=
  let cells := combine mask (s_values s) in
  match s_dtype s with
  | DInt =>
      {| s_dtype := DFloat;
         s_values := map (fun bv : bool * value =>
                           if fst bv then VNull
                           else match snd bv with
                                         | VInt z => VNum (inject_Z z)
                                         | v => v
                                         end) cells |}
  | d =>
      {| s_dtype := match d with DBool => DObject | _ => d end;
         s_values := map (fun bv : bool * value =>
                           if fst bv then VNull else snd bv) cells |}
  end.

(** The state the enforcer threads: the table and the mask
    [rows_to_drop]. *)
Definition validity_state : Type := DataFrame * list bool.

Definition validity_event (ts : option string) (event_type : string)
    (column : option string) (reason : string) (count : nat) : Audit.event :=
  {| Audit.ev_timestamp := ts;
     Audit.ev_event_type := event_type;
     Audit.ev_reason := reason;
     Audit.ev_policy_section := "validity_rules";
     Audit.ev_column := column;
     Audit.ev_row_id := None;
     Audit.ev_old_value := None;
     Audit.ev_new_value := None;
     Audit.ev_count := Some count |}.

(** [clock() if clock else None]. *)
Definition optional_clock (clock : option (nat -> string))
  : M (option string) :=
  match clock with
  | Some c => ts <- call_clock c ;; ret (Some ts)
  | None => ret None
  end.

(** [_handle_violation]; [clock] is the argument the call site passes,
    which only the regex rule does. *)
Definition handle_violation (audit : bool) (clock : option (nat -> string))
    (st : validity_state) (mask : list bool)
    (col reason_code message action : string) : M validity_state :=
  let '(df, rows_to_drop) := st in
  let count := count_true mask in
  if (count =? 0)%nat then ret st
  else
    (if audit then
       ts <- optional_clock clock ;;
       emit (validity_event ts ("validity_" ++ action) (Some col)
               (reason_code ++ ": " ++ message ++ " ("
                ++ Text.nat_to_string count ++ " rows)") count)
     else ret tt) ;;
    if String.eqb action "drop_row" then ret (df, mask_or rows_to_drop mask)
    else if String.eqb action "null" then
      match Frame.col df col with
      | Some s => ret (Frame.set_col df col (nullify mask s), rows_to_drop)
      | None => ret st
      end
    else ret st.

(** A rule on one column: skip when the guard fails or nothing
    violates. *)
Definition check_rule (audit : bool) (clock : option (nat -> string))
    (action : string) (numeric_only : bool) (bad : value -> bool)
    (reason_code message : string) (st : validity_state) (col : string)
  : M validity_state :=
  match Frame.col (fst st) col with
  | None => ret st
  | Some s =>
      if numeric_only && negb (Frame.is_numeric_dtype s) then ret st
      else
        let mask := map bad (s_values s) in
        if any_true mask
        then handle_violation audit clock st mask col reason_code message
                              action
        else ret st
  end.

Definition check_range (audit : bool) (action : string)
    (st : validity_state) (rule : string * (option Q * option Q))
  : M validity_state :=
  let '(col, (mn, mx)) := rule in
  st <- match mn with
        | Some lo =>
            check_rule audit None action true (lt_num lo) "range_min"
                       ("Value < " ++ float_repr env lo) st col
        | None => ret st
        end ;;
  match mx with
  | Some hi =>
      check_rule audit None action true (gt_num hi) "range_max"
                 ("Value > " ++ float_repr env hi) st col
  | None => ret st
  end.

Definition apply_validity (df : DataFrame) (policy : Policy)
    (audit : bool) (clock : option (nat -> string)) : M DataFrame :=
  let rules := validity_rules policy in
  if negb (validity_enabled rules) then ret df
  else
    let action := on_violation rules in
    let rows_to_drop := map (fun _ => false) (df_index df) in
    (* 1. non-negative columns, iterated as a set *)
    st <- foldM (check_rule audit None action true (lt_num 0)
                   "non_negative" "Value must be >= 0")
                (set_iteration (non_negative_columns rules))
                (df, rows_to_drop) ;;
    (* 2. ranges *)
    st <- foldM (check_range audit action) (ranges rules) st ;;
    (* 3. allowed values *)
    st <- foldM (fun st rule =>
                   check_rule audit None action false
                     (fun v => negb (isna v)
                               && negb (existsb (value_eqb v) (snd rule)))
                     "allowed_values" "Value not in allowed list"
                     st (fst rule))
                (allowed_values rules) st ;;
    (* 4. regex *)
    st <- foldM (fun st rule =>
                   check_rule audit clock action false
                     (fun v => negb (isna v)
                               && negb (re_match env (snd rule) (py_str v)))
                     "regex_mismatch"
                     ("Value does not match pattern '" ++ snd rule ++ "'")
                     st (fst rule))
                (regex rules) st ;;
    let '(df, rows_to_drop) := st in
    if any_true rows_to_drop then
      (if audit then
         ts <- optional_clock clock ;;
         emit (validity_event ts "validity_drop" None
                 ("Dropped " ++ Text.nat_to_string (count_true rows_to_drop)
                  ++ " rows due to validity violations")
                 (count_true rows_to_drop))
       else ret tt) ;;
      ret (Frame.select_rows df (map negb rows_to_drop))
    else ret df.

(** ** Missing handler ([ira/correction/missing.py]) *)

(** The mask of rows with an effectively missing value in some critical
    column. *)
Definition critical_mask (df : DataFrame) (critical_cols : list string)
  : list bool :=
  fold_left (fun mask col =>
               match Frame.col df col with
               | Some s => mask_or mask (map is_effectively_missing (s_values s))
               | None => mask
               end)
            critical_cols (map (fun _ => false) (df_index df)).

Definition drop_critical_missing (df : DataFrame) (policy : Policy)
    (audit : bool) (clock : option (nat -> string)) : M DataFrame :=
  require_row_id df ;;
  let missing_cfg := missing_data policy in
  if negb (missing_enabled missing_cfg)
     || negb (drop_if_missing_critical missing_cfg)
  then ret df
  else
    match sorted str_leb (critical_columns (roles policy)) with
    | [] => ret df
    | critical_cols =>
        let clk := clock_or clock in
        let mask := critical_mask df critical_cols in
        if negb (any_true mask) then ret df
        else
          let dropped_df := Frame.select_rows df mask in
          (if audit then
             ts <- call_clock clk ;;
             forM_ (fun idx =>
                      log_value_change "row_dropped" (row_id_at dropped_df idx)
                        "__row__" (Some "row_present") None
                        "missing_critical_column"
                        "missing_data.drop_if_missing_critical" ts)
                   (sorted Z.leb (df_index dropped_df))
           else ret tt) ;;
          ret (Frame.select_rows df (map negb mask))
    end.

(** Sums over floats that may be infinite; [VNull] is NaN. *)
Definition ext_add (a b : value) : value :=
  match a, b with
  | VNull, _ | _, VNull => VNull
  | VInf x, VInf y => if Bool.eqb x y then VInf x else VNull
  | VInf x, _ => VInf x
  | _, VInf y => VInf y
  | _, _ =>
      match as_Q a, as_Q b with
      | Some x, Some y => VNum (Qred (x + y))
      | _, _ => VNull
      end
  end.

Definition ext_div (a : value) (n : nat) : value :=
  match a with
  | VNum q => VNum (Qred (q / inject_Z (Z.of_nat n)))
  | v => v
  end.

Definition is_number (v : value) : bool :=
  match v with
  | VInt _ | VNum _ | VBool _ | VInf _ => true
  | _ => false
  end.

(** Order on the numbers of a numeric column. *)
Definition num_leb (a b : value) : bool :=
  match a, b with
  | VInf x, VInf y => x || negb y
  | VInf x, _ => x
  | _, VInf y => negb y
  | _, _ =>
      match as_Q a, as_Q b with
      | Some x, Some y => negb (Qltb y x)
      | _, _ => true
      end
  end.

(** [s.mean()] and [s.median()]: nulls are skipped, infinities are
    not. *)
Definition series_mean (s : Series) : value :=
  match filter is_number (s_values s) with
  | [] => VNull
  | nums => ext_div (fold_left ext_add nums (VNum 0)) (List.length nums)
  end.

Definition series_median (s : Series) : value :=
  let nums := sorted num_leb (filter is_number (s_values s)) in
  let n := List.length nums in
  match nums with
  | [] => VNull
  | _ =>
      if Nat.odd n then ext_add (nth (n / 2) nums VNull) (VNum 0)
      else ext_div (ext_add (nth (n / 2 - 1) nums VNull)
                            (nth (n / 2) nums VNull)) 2
  end.

(** The order in which [mode()] sorts its result. *)
Definition type_rank (v : value) : nat :=
  match v with
  | VNull => 0
  | VBool _ | VInt _ | VNum _ | VInf _ => 1
  | VTime _ => 2
  | VStr _ => 3
  end.

Definition value_leb (a b : value) : bool :=
  match a, b with
  | VStr s, VStr t => String.leb s t
  | VTime s, VTime t => Z.leb s t
  | _, _ =>
      if is_number a && is_number b then num_leb a b
      else (type_rank a <=? type_rank b)%nat
  end.

Definition occurrences (v : value) (l : list value) : nat :=
  List.length (filter (value_same v) l).

(** [non_missing.mode().iloc[0]], [None] when there is no value. *)
Definition series_mode (non_missing : list value) : option value :=
  let best := fold_left (fun m v => Nat.max m (occurrences v non_missing))
                        non_missing O in
  match sorted value_leb
          (filter (fun v => (occurrences v non_missing =? best)%nat)
                  non_missing) with
  | [] => None
  | v :: _ => Some v
  end.

(** [df.at[idx, col] = fill_val]: the value as the column stores it and
    the dtype the column has afterwards. *)
Definition store_as (d : dtype) (v : value) : dtype * value :=
  match d, v with
  | DObject, _ => (DObject, v)
  | DFloat, VInt z => (DFloat, VNum (inject_Z z))
  | DFloat, (VNum _ | VInf _ | VNull) => (DFloat, v)
  | DInt, VInt _ => (DInt, v)
  | DInt, (VNum _ | VInf _ | VNull) => (DFloat, v)
  | DBool, VBool _ => (DBool, v)
  | DBoolean, (VBool _ | VNull) => (DBoolean, v)
  | DDatetime, (VTime _ | VNull) => (DDatetime, v)
  | _, _ => (DObject, v)
  end.

Definition fill_missing (s : Series) (fill_val : value) : Series :=
  let '(d, v) := store_as (s_dtype s) fill_val in
  {| s_dtype := d;
     s_values := map (fun x => if is_effectively_missing x then v else x)
                     (s_values s) |}.

(** Whether a column belongs to a bucket: by its policy type tag, or,
    without one, by its dtype. *)
Definition in_bucket (bucket_name : string) (typ : option string)
    (s : Series) : bool :=
  let numeric := String.eqb bucket_name "numeric" in
  let datetime := String.eqb bucket_name "datetime" in
  let categorical := String.eqb bucket_name "categorical" in
  match typ with
  | Some t =>
      if String.eqb t "" then
        (numeric && Frame.is_numeric_dtype s)
        || (datetime && Frame.is_datetime64_any_dtype s)
        || (categorical && negb (Frame.is_numeric_dtype s)
            && negb (Frame.is_datetime64_any_dtype s))
      else
        (numeric && Text.str_in t numeric_types)
        || (datetime && Text.str_in t datetime_types)
        || (categorical && negb (Text.str_in t numeric_types)
            && negb (Text.str_in t datetime_types)
            && negb (Text.str_in t boolean_types))
  | None =>
      (numeric && Frame.is_numeric_dtype s)
      || (datetime && Frame.is_datetime64_any_dtype s)
      || (categorical && negb (Frame.is_numeric_dtype s)
          && negb (Frame.is_datetime64_any_dtype s))
  end.

(** [sorted(bucket_cols)]. *)
Definition bucket_columns (df : DataFrame) (policy : Policy)
    (bucket_name : string) : list string :=
  sorted str_leb
    (filter (fun c =>
               negb (mem String.eqb c (protected_columns (roles policy))
                     || String.eqb c "_row_id")
               && match Frame.col df c with
                  | Some s =>
                      in_bucket bucket_name
                        (dict_get c (column_types (parsing policy))) s
                  | None => false
                  end)
            (Frame.columns df)).

Definition missing_ratio (s : Series) : Q :=
  (inject_Z (Z.of_nat (count_true (map is_effectively_missing (s_values s))))
   / inject_Z (Z.of_nat (List.length (s_values s))))%Q.

Definition skip_event (ts col bucket_name : string) (missing_pct threshold : Q)
  : Audit.event :=
  {| Audit.ev_timestamp := Some ts;
     Audit.ev_event_type := "imputation_skipped_threshold";
     Audit.ev_reason := "missing_pct_" ++ Text.format_4f missing_pct
                        ++ "_gt_" ++ Text.format_4f threshold;
     Audit.ev_policy_section := "missing_data.imputation." ++ bucket_name;
     Audit.ev_column := Some col;
     Audit.ev_row_id := None;
     Audit.ev_old_value := None;
     Audit.ev_new_value := None;
     Audit.ev_count := None |}.

(** The strategy and fill value chosen for a column, [None] where the
    code reaches a [continue]. *)
Definition choose_fill (bucket_name : string) (cfg : BucketCfg)
    (col : string) (s : Series) : option (string * value) :=
  let strategy := bucket_default cfg in
  match dict_get col (bucket_constants cfg) with
  | Some constant_val => Some ("constant", constant_val)
  | None =>
      if String.eqb strategy "mean" && Frame.is_numeric_dtype s
      then Some (strategy, series_mean s)
      else if String.eqb strategy "median" && Frame.is_numeric_dtype s
      then Some (strategy, series_median s)
      else if String.eqb strategy "mode"
              && String.eqb bucket_name "categorical"
      then match series_mode
                   (filter (fun v => negb (is_effectively_missing v))
                           (s_values s)) with
           | Some m => Some (strategy, m)
           | None => None
           end
      else None
  end.

(** A string constant for a datetime column becomes a timestamp when
    [pd.Timestamp] accepts it. *)
Definition as_timestamp (s : Series) (fill_val : value) : value :=
  match fill_val with
  | VStr text =>
      if Frame.is_datetime64_any_dtype s then
        match timestamp_of env text with
        | Some t => VTime t
        | None => fill_val
        end
      else fill_val
  | _ => fill_val
  end.

(** The body of [for col in bucket_cols]. *)
Definition impute_column (audit : bool) (clk : nat -> string)
    (row_ids : Z -> value) (bucket_name : string) (cfg : BucketCfg)
    (df : DataFrame) (col : string) : M DataFrame :=
  match Frame.col df col with
  | None => ret df
  | Some s =>
      let missing_mask := map is_effectively_missing (s_values s) in
      if negb (any_true missing_mask) then ret df
      else
        let missing_pct := missing_ratio s in
        let threshold := allow_if_missing_pct_leq cfg in
        if Qltb threshold missing_pct then
          (if audit then
             ts <- call_clock clk ;;
             emit (skip_event ts col bucket_name missing_pct threshold)
           else ret tt) ;;
          ret df
        else
          match choose_fill bucket_name cfg col s with
          | None => ret df
          | Some (strategy, fill_val) =>
              if isna fill_val then ret df
              else
                ts <- call_clock clk ;;
                let fill_val := as_timestamp s fill_val in
                (if audit then
                   forM_ (fun item =>
                            log_value_change "imputation_fill"
                              (row_ids (fst item)) col
                              (str_if_notna (snd item))
                              (Some (py_str fill_val))
                              ("imputation_" ++ strategy)
                              ("missing_data.imputation." ++ bucket_name) ts)
                         (filter (fun item => is_effectively_missing (snd item))
                                 (Frame.sorted_items df s))
                 else ret tt) ;;
                ret (Frame.set_col df col (fill_missing s fill_val))
          end
  end.

(** The body of [for bucket_name, type_tuple in buckets_targets.items()]. *)
Definition impute_bucket (audit : bool) (clk : nat -> string)
    (row_ids : Z -> value) (policy : Policy)
    (df : DataFrame) (bucket : string * BucketCfg) : M DataFrame :=
  let '(bucket_name, cfg) := bucket in
  if String.eqb (bucket_default cfg) "none"
     && match bucket_constants cfg with [] => true | _ => false end
  then ret df
  else foldM (impute_column audit clk row_ids bucket_name cfg)
             (bucket_columns df policy bucket_name) df.

Definition buckets (policy : Policy) : list (string * BucketCfg) :=
  [("numeric", imputation_numeric (missing_data policy));
   ("datetime", imputation_datetime (missing_data policy));
   ("categorical", imputation_categorical (missing_data policy))].

Definition apply_imputation (df : DataFrame) (policy : Policy)
    (audit : bool) (clock : option (nat -> string)) : M DataFrame :=
  require_row_id df ;;
  if negb (missing_enabled (missing_data policy)) then ret df
  else
    let clk := clock_or clock in
    foldM (impute_bucket audit clk (row_id_at df) policy) (buckets policy) df.

(** ** The pipeline ([ira/correction/pipeline.py]) *)

Definition run_correction_pipeline (df : DataFrame) (policy : Policy)
    (audit : bool) (clock : option (nat -> string)) : M DataFrame :=
  df <- apply_standardization df policy audit clock ;;
  df <- apply_parsing df policy audit clock ;;
  df <- apply_validity df policy audit clock ;;
  df <- drop_critical_missing df policy audit clock ;;
  apply_imputation df policy audit clock.

(** A run against a fresh logger that is sealed afterwards: the
    corrected table and the lines of the audit stream. *)
Definition run_with_audit (detail : Audit.AuditDetail) (df : DataFrame)
    (policy : Policy) (clock : option (nat -> string))
  : res (DataFrame * list Audit.record) :=
  match run_correction_pipeline df policy true clock initial with
  | Ok (out, st) =>
      Ok (out,
          Audit.file_lines
            (Audit.close (fold_left (fun a e => Audit.log e a) (trace st)
                                    (Audit.new_logger detail))))
  | Err msg => Err msg
  end.

End Pipeline.

(* ================================================================== *)
(** * Example data                                                      *)
(* ================================================================== *)

Module Examples.

Local Open Scope Z_scope.

(** An environment to run examples under: a constant wall clock, floats
    rendered as fractions, no datetime or regex support, hash zero. *)
Definition plain_env : Env :=
  {| wall_clock := fun _ => "1970-01-01T00:00:00+00:00";
     float_repr := fun q => Text.Z_to_string (Qnum q) ++ "/"
                            ++ Text.Z_to_string (Zpos (Qden q));
     time_repr := fun t => Text.Z_to_string t;
     try_format := fun _ _ _ _ => None;
     to_datetime := fun _ _ _ => None;
     timestamp_of := fun _ => None;
     re_match := fun _ _ => true;
     str_hash := fun _ => 0 |}.

(** The same, with strings hashed by their length and by its
    opposite: two processes with different hash salts. *)
Definition env_by_length : Env :=
  {| wall_clock := wall_clock plain_env; float_repr := float_repr plain_env;
     time_repr := time_repr plain_env; try_format := try_format plain_env;
     to_datetime := to_datetime plain_env;
     timestamp_of := timestamp_of plain_env; re_match := re_match plain_env;
     str_hash := fun s => Z.of_nat (String.length s) |}.

Definition env_by_length_reversed : Env :=
  {| wall_clock := wall_clock plain_env; float_repr := float_repr plain_env;
     time_repr := time_repr plain_env; try_format := try_format plain_env;
     to_datetime := to_datetime plain_env;
     timestamp_of := timestamp_of plain_env; re_match := re_match plain_env;
     str_hash := fun s => - Z.of_nat (String.length s) |}.

(** The fixed clock of the test-suite. *)
Definition fixed_clock : option (nat -> string) :=
  Some (fun _ => "2023-01-01T12:00:00Z").

Definition object_column (l : list value) : Series :=
  {| s_dtype := DObject; s_values := l |}.

Definition float_column (l : list value) : Series :=
  {| s_dtype := DFloat; s_values := l |}.

Definition int_column (l : list Z) : Series :=
  {| s_dtype := DInt; s_values := map VInt l |}.

Definition policy_with (r : RolesCfg) (p : ParsingCfg) (s : StdCfg)
    (m : MissingCfg) (v : ValidityCfg) : Policy :=
  {| roles := r; parsing := p; standardization := s; missing_data := m;
     validity_rules := v |}.

Definition typed (types : list (string * string)) : ParsingCfg :=
  {| column_types := types;
     parsing_boolean := parsing_boolean default_parsing;
     parsing_numeric := parsing_numeric default_parsing;
     parsing_datetime := parsing_datetime default_parsing |}.

Definition roles_of (critical protected : list string) : RolesCfg :=
  {| critical_columns := critical; protected_columns := protected |}.

(** *** A protected column under a validity rule *)

Definition secret_table : DataFrame :=
  {| df_index := [0; 1];
     df_data := [("_row_id", int_column [1; 2]);
                 ("secret", object_column [VStr "A"; VStr "B"])] |}.

Definition secret_policy : Policy :=
  policy_with (roles_of ["_row_id"] ["secret"]) default_parsing
    default_standardization default_missing
    {| validity_enabled := true; ranges := [];
       allowed_values := [("secret", [VStr "A"])]; regex := [];
       non_negative_columns := []; on_violation := "null" |}.

Definition secret_table_after : DataFrame :=
  {| df_index := [0; 1];
     df_data := [("_row_id", int_column [1; 2]);
                 ("secret", object_column [VStr "A"; VNull])] |}.

(** *** [test_imputation_threshold_skip_logging] *)

Definition sparse_table : DataFrame :=
  {| df_index := [0; 1; 2; 3];
     df_data := [("_row_id", int_column [1; 2; 3; 4]);
                 ("val", float_column [VNum 10; VNull; VNull; VNum 40])] |}.

Definition numeric_mean (threshold : Q) : MissingCfg :=
  {| missing_enabled := true; drop_if_missing_critical := false;
     imputation_numeric := {| bucket_default := "mean";
                              bucket_constants := [];
                              allow_if_missing_pct_leq := threshold |};
     imputation_datetime := default_bucket;
     imputation_categorical := default_bucket |}.

Definition sparse_policy : Policy :=
  policy_with (roles_of ["_row_id"] []) (typed [("val", "numeric")])
    default_standardization (numeric_mean (1 # 4)) default_validity.

(** *** [test_impute_mean_numeric]: the critical column is filled *)

Definition critical_table : DataFrame :=
  {| df_index := [0; 1; 2; 3];
     df_data := [("_row_id", int_column [1; 2; 3; 4]);
                 ("x_num", float_column [VNum 1; VNull; VNum 3; VNull])] |}.

Definition critical_policy : Policy :=
  policy_with (roles_of ["x_num"] []) (typed [("x_num", "numeric")])
    default_standardization (numeric_mean (6 # 10)) default_validity.

(** *** [test_protected_columns_imputation] *)

Definition note_table : DataFrame :=
  {| df_index := [0; 1];
     df_data := [("_row_id", int_column [1; 2]);
                 ("secret_note", object_column [VNull; VStr "existing"])] |}.

Definition note_policy : Policy :=
  policy_with (roles_of ["_row_id"] ["secret_note"]) default_parsing
    default_standardization
    {| missing_enabled := true; drop_if_missing_critical := true;
       imputation_numeric := default_bucket;
       imputation_datetime := default_bucket;
       imputation_categorical :=
         {| bucket_default := "constant";
            bucket_constants := [("secret_note", VStr "FILL_ME")];
            allow_if_missing_pct_leq := 1 |} |}
    default_validity.

(** *** Two non-negative columns that both violate *)

Definition ledger_table : DataFrame :=
  {| df_index := [0];
     df_data := [("_row_id", int_column [1]);
                 ("a", float_column [VNum (-1)]);
                 ("bb", float_column [VNum (-2)])] |}.

Definition ledger_policy : Policy :=
  policy_with (roles_of ["_row_id"] []) default_parsing
    default_standardization default_missing
    {| validity_enabled := true; ranges := []; allowed_values := [];
       regex := []; non_negative_columns := ["a"; "bb"];
       on_violation := "flag" |}.

(** *** A cell holding the text "nan" in a numeric column *)

Definition nan_table : DataFrame :=
  {| df_index := [0; 1];
     df_data := [("_row_id", int_column [1; 2]);
                 ("amount", object_column [VStr "nan"; VStr "7"])] |}.

Definition drop_on_failure : NumCfg :=
  {| allow_commas := true; allow_currency_symbols := true;
     allow_percent_symbol := true; percent_scale := "auto";
     num_on_failure := "drop_row" |}.

Definition nan_policy : Policy :=
  policy_with (roles_of ["_row_id"] [])
    {| column_types := [("amount", "numeric")];
       parsing_boolean := parsing_boolean default_parsing;
       parsing_numeric := drop_on_failure;
       parsing_datetime := parsing_datetime default_parsing |}
    default_standardization default_missing default_validity.

(** *** Two declared columns, each with a cell that fails to parse *)

Definition orders_table : DataFrame :=
  {| df_index := [0; 1; 2; 3];
     df_data := [("_row_id", int_column [10; 11; 12; 13]);
                 ("amount", object_column
                    [VStr "abc"; VStr "7"; VStr "8"; VStr "9"]);
                 ("paid", object_column
                    [VStr "yes"; VStr "maybe"; VStr "no"; VStr "yes"])] |}.

Definition orders_policy : Policy :=
  policy_with (roles_of ["_row_id"] [])
    {| column_types := [("amount", "numeric"); ("paid", "boolean")];
       parsing_boolean := {| true_values := ["yes"]; false_values := ["no"];
                             bool_on_failure := "drop_row" |};
       parsing_numeric := drop_on_failure;
       parsing_datetime := parsing_datetime default_parsing |}
    default_standardization default_missing default_validity.

(** *** The tables of the idempotence tests *)

Definition missing_off : MissingCfg :=
  {| missing_enabled := false;
     drop_if_missing_critical := drop_if_missing_critical default_missing;
     imputation_numeric := default_bucket;
     imputation_datetime := default_bucket;
     imputation_categorical := default_bucket |}.

Definition padded_table : DataFrame :=
  {| df_index := [0; 1];
     df_data := [("_row_id", int_column [1; 2]);
                 ("val", object_column [VStr " abc "; VStr "def"])] |}.

Definition trim_policy : Policy :=
  policy_with (roles_of ["_row_id"] []) default_parsing
    {| strip_nonprinting := false; global_trim_whitespace := true;
       global_collapse_whitespace := false; casefold := "none";
       mappings := [] |}
    missing_off default_validity.

Definition trimmed_table : DataFrame :=
  {| df_index := [0; 1];
     df_data := [("_row_id", int_column [1; 2]);
                 ("val", object_column [VStr "abc"; VStr "def"])] |}.




End Examples.

(** The result of a run, when it did not raise. *)
Definition table_of {S : Type} (r : res (DataFrame * S)) : option DataFrame :=
  match r with
  | Ok (df, _) => Some df
  | Err _ => None
  end.

Definition lines_of {T : Type} (r : res (T * list Audit.record))
  : list Audit.record :=
  match r with
  | Ok (_, lines) => lines
  | Err _ => []
  end.

(** [json.loads(lines[-1])["total_events"]]. *)
Definition footer_total_events (lines : list Audit.record) : option nat :=
  match last lines (Audit.RecEvent
                      {| Audit.ev_timestamp := None; Audit.ev_event_type := "";
                         Audit.ev_reason := ""; Audit.ev_policy_section := "";
                         Audit.ev_column := None; Audit.ev_row_id := None;
                         Audit.ev_old_value := None; Audit.ev_new_value := None;
                         Audit.ev_count := None |}) with
  | Audit.RecFooter f => Some (Audit.f_total_events f)
  | _ => None
  end.

(** A cell text that is a literal NaN or Infinity token, up to case and
    surrounding whitespace. *)
Definition is_nan_inf_token (s : string) : bool :=
  Text.str_in (Text.lower (Text.strip s)) nan_inf_tokens.



(* ================================================================== *)
(** * Properties of the readiness score                                 *)
(* ================================================================== *)

Section ReadinessFacts.

Import Readiness.
Local Open Scope Z_scope.

Lemma Qltb_lt a b : Qltb a b = true <-> (a < b)%Q.
Proof. unfold Qltb. rewrite Qlt_alt. destruct (a ?= b)%Q; split; congruence. Qed.

Lemma Qltb_ge a b : Qltb a b = false <-> (b <= a)%Q.
Proof.
  unfold Qltb. destruct (a ?= b)%Q eqn:E; split; intro H; try congruence.
  - apply Qeq_alt in E. rewrite E. apply Qle_refl.
  - apply Qlt_alt in E. exfalso. apply (Qlt_not_le _ _ E H).
  - apply Qgt_alt in E. apply Qlt_le_weak. exact E.
Qed.

Lemma round_half_even_compat a b : (a == b)%Q -> round_half_even a = round_half_even b.
Proof.
  intro H. unfold round_half_even.
  assert (Hf : Qfloor a = Qfloor b) by (rewrite H; reflexivity).
  rewrite Hf.
  assert (Hc : ((a - inject_Z (Qfloor b)) ?= 1 # 2)%Q = ((b - inject_Z (Qfloor b)) ?= 1 # 2)%Q)
    by (rewrite H; reflexivity).
  rewrite Hc. reflexivity.
Qed.





















Theorem readiness_empty_table_scores_zero (p : profile) :
  get_or (p_row_count p) 0 = 0 ->
  calculate_readiness_score p = {| score := 0%Q; parts := zero_breakdown |}.
Proof.
  intro H. unfold calculate_readiness_score. rewrite H. reflexivity.
Qed.

Definition stats (role : string) (missing invalid : Q) (mixed : bool) : col_stats :=
  {| cs_role := Some role; cs_effective_missing_pct := Some missing;
     cs_invalid_type_pct := Some invalid; cs_is_mixed_type := mixed |}.


Definition rowless_profile : profile :=
  {| p_columns := [("col1"%string, stats "critical" 0 0 false)];
     p_row_count := None;
     p_exact_row_dupe_count := Some 0;
     p_pk_dupe_count := None |}.

Definition half_missing_profile : profile :=
  {| p_columns := [("col1"%string, stats "critical" (1 # 2) 0 false);
                   ("col2"%string, stats "none" 0 0 false)];
     p_row_count := Some 100;
     p_exact_row_dupe_count := Some 0;
     p_pk_dupe_count := None |}.

Example half_missing_scores :
  score (calculate_readiness_score half_missing_profile) = (7667 # 100)%Q /\
  completeness (parts (calculate_readiness_score half_missing_profile)) = (2667 # 100)%Q.
Proof. split; vm_compute; reflexivity. Qed.


Lemma readiness_empty_table_scores_zero_witness :
  calculate_readiness_score rowless_profile =
    {| score := 0%Q; parts := zero_breakdown |}.
Proof. apply (readiness_empty_table_scores_zero rowless_profile). reflexivity. Defined.

End ReadinessFacts.

(* ================================================================== *)
(** * Properties of the audit sink                                      *)
(* ================================================================== *)

Section AuditFacts.

Import Audit.
Local Open Scope string_scope.

(** ** Duplicate-free list sets *)

Section SetFacts.
Context {A : Type} (eqb : A -> A -> bool).
Hypothesis eqb_spec : forall x y, eqb x y = true <-> x = y.

Lemma mem_In x l : mem eqb x l = true <-> In x l.
Proof.
  unfold mem. rewrite existsb_exists. split.
  - intros [y [Hin He]]. apply eqb_spec in He. subst. exact Hin.
  - intro Hin. exists x. split; [exact Hin|]. apply eqb_spec. reflexivity.
Qed.

Lemma set_add_In x y l : In y (set_add eqb x l) <-> y = x \/ In y l.
Proof.
  unfold set_add. destruct (mem eqb x l) eqn:E.
  - apply mem_In in E. split; [auto|]. intros [->|H]; assumption.
  - rewrite in_app_iff. simpl. split.
    + intros [H|[H|[]]]; auto.
    + intros [->|H]; auto.
Qed.

Lemma set_add_NoDup x l : NoDup l -> NoDup (set_add eqb x l).
Proof.
  intro H. unfold set_add. destruct (mem eqb x l) eqn:E; [exact H|].
  assert (Hn : ~ In x l).
  { intro Hin. apply mem_In in Hin. congruence. }
  clear E. induction H as [|y l Hy Hl IH]; simpl.
  - constructor; [intros []|constructor].
  - constructor.
    + rewrite in_app_iff. simpl. intros [H1|[H1|[]]]; [contradiction|].
      subst. apply Hn. left. reflexivity.
    + apply IH. intro Hin. apply Hn. right. exact Hin.
Qed.

(** A loop that adds the selected elements of [xs] to a set. *)
Lemma fold_add_spec {B} (sel : B -> bool) (f : B -> A) xs acc :
  NoDup acc ->
  let r := fold_left (fun acc x => if sel x then set_add eqb (f x) acc else acc)
                     xs acc in
  NoDup r /\
  forall y, In y r <-> In y acc \/ exists x, In x xs /\ sel x = true /\ f x = y.
Proof.
  revert acc. induction xs as [|x xs IH]; intros acc Hnd; simpl.
  - split; [exact Hnd|]. intro y. split; [auto|].
    intros [H|[x [[] _]]]. exact H.
  - destruct (sel x) eqn:Es.
    + destruct (IH (set_add eqb (f x) acc) (set_add_NoDup _ _ Hnd)) as [H1 H2].
      split; [exact H1|]. intro y. rewrite H2. rewrite set_add_In. split.
      * intros [[->|H]|[x' [Hin [Hs Hf]]]].
        -- right. exists x. auto.
        -- left. exact H.
        -- right. exists x'. auto.
      * intros [H|[x' [[->|Hin] [Hs Hf]]]].
        -- left. right. exact H.
        -- left. left. symmetry. exact Hf.
        -- right. exists x'. auto.
    + destruct (IH acc Hnd) as [H1 H2]. split; [exact H1|].
      intro y. rewrite H2. split.
      * intros [H|[x' [Hin [Hs Hf]]]]; [left; exact H|].
        right. exists x'. auto.
      * intros [H|[x' [[->|Hin] [Hs Hf]]]]; [left; exact H| congruence |].
        right. exists x'. auto.
Qed.

Lemma dedupe_spec l :
  NoDup (dedupe eqb l) /\ forall y, In y (dedupe eqb l) <-> In y l.
Proof.
  unfold dedupe.
  destruct (fold_add_spec (fun _ => true) (fun x => x) l [] (NoDup_nil A)) as [H1 H2].
  split; [exact H1|]. intro y. cbv zeta in H2. rewrite H2. split.
  - intros [[]|[x [Hin [_ <-]]]]. exact Hin.
  - intro Hin. right. exists y. auto.
Qed.
End SetFacts.

Lemma same_elements_length {A} (l1 l2 : list A) :
  NoDup l1 -> NoDup l2 -> (forall x, In x l1 <-> In x l2) ->
  List.length l1 = List.length l2.
Proof.
  intros H1 H2 H. apply Permutation_length. apply NoDup_Permutation; assumption.
Qed.

(** ** The logger *)

Lemma key_eqb_eq (a b : key) : key_eqb a b = true <-> a = b.
Proof.
  destruct a as [[a1 a2] a3], b as [[b1 b2] b3]. unfold key_eqb.
  rewrite !andb_true_iff, !String.eqb_eq. split.
  - intros [[-> ->] ->]. reflexivity.
  - intro H. inversion H. auto.
Qed.

Lemma kset_keys {V} (k k' : key) (v : V) d :
  In k' (map fst (kset k v d)) <-> k' = k \/ In k' (map fst d).
Proof.
  induction d as [|[k0 v0] d IH]; simpl.
  - split; [intros [H|[]]; auto | intros [H|[]]; auto].
  - destruct (key_eqb k k0) eqn:E; simpl.
    + apply key_eqb_eq in E. subst k0. split.
      * intros [H|H]; auto.
      * intros [H|[H|H]]; auto.
    + rewrite IH. split.
      * intros [H|[H|H]]; auto.
      * intros [H|[H|H]]; auto.
Qed.

(** What holds of a logger that has been used but not sealed. *)
Record unsealed (d : AuditDetail) (es : list event) (a : AuditLogger) : Prop := {
  un_detail : detail a = d;
  un_open : opened a = true;
  un_file : file_closed a = false;
  un_lines : forallb (fun r => negb (is_job_summary r)) (file_lines a) = true;
  un_keys : forall k, In k (map fst (summary_counts a)) <->
                      exists e, In e es /\ event_key e = k
}.

Lemma unsealed_new d : unsealed d [] (new_logger d).
Proof.
  constructor; try reflexivity.
  intro k. simpl. split; [intros [] | intros [e [[] _]]].
Qed.

Lemma unsealed_log d es a e :
  unsealed d es a -> unsealed d (es ++ [e]) (log e a).
Proof.
  intros [Hd Ho Hf Hl Hk].
  assert (Hkeys : forall k, In k (map fst (summary_counts (log e a))) <->
                 exists e', In e' (es ++ [e]) /\ event_key e' = k).
  { intro k.
    assert (Hsc : summary_counts (log e a) =
                  kset (event_key e)
                       (S (get_or (kget (event_key e) (summary_counts a)) O))
                       (summary_counts a)).
    { unfold log. cbn [detail aggregate]. destruct (detail a); [reflexivity|].
      unfold write_line. cbn [file_closed aggregate]. rewrite Hf. reflexivity. }
    rewrite Hsc, kset_keys, Hk. split.
    - intros [->|[e' [Hin He]]].
      + exists e. split; [apply in_or_app; right; left; reflexivity | reflexivity].
      + exists e'. split; [apply in_or_app; left; exact Hin | exact He].
    - intros [e' [Hin He]]. apply in_app_or in Hin. destruct Hin as [Hin|[->|[]]].
      + right. exists e'. auto.
      + left. symmetry. exact He. }
  unfold log in *. cbn [detail aggregate] in *.
  destruct (detail a) eqn:Ed.
  - constructor; cbn; auto.
  - unfold write_line in *. cbn [file_closed aggregate] in *. rewrite Hf in *.
    constructor; cbn; auto.
    rewrite forallb_app, Hl. reflexivity.
Qed.

Lemma unsealed_set_context d es a k v :
  unsealed d es a -> unsealed d es (set_context k v a).
Proof. intros [Hd Ho Hf Hl Hk]. constructor; cbn; auto. Qed.

Lemma logged_app ops o : logged (ops ++ [o]) =
  (logged ops ++ match o with OpLog e => [e] | _ => [] end)%list.
Proof. unfold logged. rewrite flat_map_app. simpl. rewrite app_nil_r. reflexivity. Qed.

Lemma unsealed_run_ops d ops : unsealed d (logged ops) (run_ops d ops).
Proof.
  unfold run_ops. induction ops as [|o ops IH] using rev_ind.
  - apply unsealed_new.
  - rewrite fold_left_app, logged_app. simpl. destruct o as [e|k v].
    + apply unsealed_log. exact IH.
    + rewrite app_nil_r. apply unsealed_set_context. exact IH.
Qed.

Lemma write_line_open r a :
  file_closed a = false ->
  file_closed (write_line r a) = false /\ opened (write_line r a) = opened a /\
  detail (write_line r a) = detail a /\
  file_lines (write_line r a) = (file_lines a ++ [r])%list.
Proof. intro Hf. unfold write_line. rewrite Hf. cbn. auto. Qed.

Lemma write_summaries_lines a0 ks a :
  file_closed a = false ->
  let r := fold_left (fun acc k => write_line (summary_record a0 k) acc) ks a in
  file_closed r = false /\ opened r = opened a /\ detail r = detail a /\
  file_lines r = (file_lines a ++ map (summary_record a0) ks)%list.
Proof.
  revert a. induction ks as [|k ks IH]; intros a Hf; simpl.
  - rewrite app_nil_r. auto.
  - destruct (write_line_open (summary_record a0 k) a Hf) as [W1 [W2 [W3 W4]]].
    destruct (IH _ W1) as [H1 [H2 [H3 H4]]].
    split; [exact H1|]. split; [rewrite H2; exact W2|].
    split; [rewrite H3; exact W3|].
    rewrite H4, W4. rewrite <- app_assoc. reflexivity.
Qed.

Lemma summary_record_not_footer a k : is_job_summary (summary_record a k) = false.
Proof. destruct k as [[e c] r]. reflexivity. Qed.

Lemma touched_columns_length es counts :
  (forall k, In k (map fst counts) <-> exists e, In e es /\ event_key e = k) ->
  List.length (touched_columns counts) = List.length (real_columns es).
Proof.
  intro Hk.
  pose (sel := fun kc : key * nat =>
          negb (String.eqb (snd (fst (fst kc))) "" ||
                String.eqb (snd (fst (fst kc))) "__row__")).
  unfold touched_columns. cbv zeta.
  destruct (fold_add_spec String.eqb String.eqb_eq sel
              (fun kc : key * nat => snd (fst (fst kc))) counts [] (NoDup_nil _))
    as [Hnd Hin].
  unfold real_columns.
  destruct (dedupe_spec String.eqb String.eqb_eq
     (filter (fun c => negb (String.eqb c "" || String.eqb c "__row__"))
        (map (fun e => get_or (ev_column e) "") es))) as [Hnd' Hin'].
  apply same_elements_length; [exact Hnd | exact Hnd' |].
  intro c. etransitivity; [exact (Hin c)|]. rewrite Hin'. rewrite filter_In, in_map_iff. split.
  - intros [[]|[kc [Hkc [Hs Hc]]]].
    assert (Hk' : In (fst kc) (map fst counts)) by (apply in_map; exact Hkc).
    apply Hk in Hk'. destruct Hk' as [e [He Hek]].
    split.
    + exists e. split; [|exact He]. rewrite <- Hc, <- Hek. reflexivity.
    + subst c. exact Hs.
  - intros [[e [Hc He]] Hs]. right.
    assert (Hk' : In (event_key e) (map fst counts)) by (apply Hk; exists e; auto).
    apply in_map_iff in Hk'. destruct Hk' as [kc [Hkc Hin2]].
    exists kc. split; [exact Hin2|]. unfold sel. rewrite Hkc. cbn [event_key fst snd].
    rewrite Hc. auto.
Qed.

(** C6 *)
Theorem audit_footer_contract (d : AuditDetail) (ops : list op) :
  let sealed := close (run_ops d ops) in
  (exists body f,
     file_lines sealed = (body ++ [RecFooter f])%list /\
     forallb (fun r => negb (is_job_summary r)) body = true /\
     f_unique_columns_touched f = List.length (real_columns (logged ops)) /\
     ~ In "__row__" (real_columns (logged ops))) /\
  close sealed = sealed.
Proof.
  destruct (unsealed_run_ops d ops) as [Hd Ho Hf Hl Hk].
  set (a := run_ops d ops) in *. cbv zeta.
  assert (Hrow : ~ In "__row__" (real_columns (logged ops))).
  { unfold real_columns.
    destruct (dedupe_spec String.eqb String.eqb_eq
     (filter (fun c => negb (String.eqb c "" || String.eqb c "__row__"))
        (map (fun e => get_or (ev_column e) "") (logged ops)))) as [_ Hin].
    rewrite Hin, filter_In. intros [_ H]. discriminate H. }
  split.
  - unfold close. rewrite Ho, Hf. cbn [negb].
    destruct (detail a) eqn:Ed.
    + destruct (write_summaries_lines a
                  (sorted key_leb (map fst (summary_counts a))) a Hf)
        as [H1 [H2 [H3 H4]]].
      cbv zeta in H1, H2, H3, H4.
      destruct (write_line_open (RecFooter (make_footer a)) _ H1) as [_ [_ [_ W4]]].
      cbn [file_lines]. rewrite W4, H4.
      exists (file_lines a ++ map (summary_record a)
                (sorted key_leb (map fst (summary_counts a))))%list,
             (make_footer a).
      split; [reflexivity|]. split.
      * rewrite forallb_app, Hl. cbn [andb]. apply forallb_forall.
        intros r Hr. apply in_map_iff in Hr. destruct Hr as [k [<- _]].
        rewrite summary_record_not_footer. reflexivity.
      * split; [|exact Hrow]. cbn [make_footer f_unique_columns_touched].
        apply touched_columns_length. exact Hk.
    + destruct (write_line_open (RecFooter (make_footer a)) _ Hf) as [_ [_ [_ W4]]].
      cbn [file_lines]. rewrite W4.
      exists (file_lines a), (make_footer a).
      split; [reflexivity|]. split; [exact Hl|].
      split; [|exact Hrow]. cbn [make_footer f_unique_columns_touched].
      apply touched_columns_length. exact Hk.
  - unfold close at 1. 
    assert (Hc : opened (close a) = false).
    { unfold close. rewrite Ho. reflexivity. }
    rewrite Hc. reflexivity.
Qed.

End AuditFacts.

(* ================================================================== *)
(** * Reasoning about phases                                            *)
(* ================================================================== *)

Section MonadFacts.

Local Open Scope m_scope.

Lemma bind_ok {A B : Type} (m : M A) (f : A -> M B) st b st' :
  bind m f st = Ok (b, st') ->
  exists a st1, m st = Ok (a, st1) /\ f a st1 = Ok (b, st').
Proof.
  unfold bind. destruct (m st) as [[a st1]|msg]; [|discriminate].
  intro H. exists a, st1. split; [reflexivity | exact H].
Qed.

(** [triple m Q P]: when [m] returns, its result satisfies [Q], the
    trace has only grown, and every event added satisfies [P]. *)
Definition triple {A : Type} (m : M A) (Q : A -> Prop)
    (P : Audit.event -> Prop) : Prop :=
  forall st a st', m st = Ok (a, st') ->
    Q a /\ exists evs, trace st' = (trace st ++ evs)%list /\ Forall P evs.

Lemma triple_ret {A : Type} (a : A) (Q : A -> Prop) P :
  Q a -> triple (ret a) Q P.
Proof.
  intros Hq st a' st' H. inversion H; subst. split; [exact Hq|].
  exists []. rewrite app_nil_r. auto.
Qed.

Lemma triple_raise {A : Type} msg (Q : A -> Prop) P : triple (raise msg) Q P.
Proof. intros st a st' H. discriminate H. Qed.

Lemma triple_emit e (Q : unit -> Prop) (P : Audit.event -> Prop) :
  Q tt -> P e -> triple (emit e) Q P.
Proof.
  intros Hq Hp st a st' H. inversion H; subst. split; [exact Hq|].
  exists [e]. split; [reflexivity | constructor; auto].
Qed.

Lemma triple_call_clock clk (Q : string -> Prop) P :
  (forall t, Q t) -> triple (call_clock clk) Q P.
Proof.
  intros Hq st a st' H. inversion H; subst. split; [apply Hq|].
  exists []. cbn. rewrite app_nil_r. auto.
Qed.

Lemma triple_bind {A B : Type} (m : M A) (f : A -> M B)
    (Q1 : A -> Prop) (Q2 : B -> Prop) P :
  triple m Q1 P -> (forall a, Q1 a -> triple (f a) Q2 P) ->
  triple (bind m f) Q2 P.
Proof.
  intros Hm Hf st b st' H. apply bind_ok in H.
  destruct H as [a [st1 [H1 H2]]].
  destruct (Hm _ _ _ H1) as [Hq1 [evs1 [Ht1 Hp1]]].
  destruct (Hf a Hq1 _ _ _ H2) as [Hq2 [evs2 [Ht2 Hp2]]].
  split; [exact Hq2|]. exists (evs1 ++ evs2)%list. split.
  - rewrite Ht2, Ht1, app_assoc. reflexivity.
  - apply Forall_app. auto.
Qed.

Lemma triple_weaken {A : Type} (m : M A) (Q Q' : A -> Prop)
    (P P' : Audit.event -> Prop) :
  triple m Q P -> (forall a, Q a -> Q' a) -> (forall e, P e -> P' e) ->
  triple m Q' P'.
Proof.
  intros Hm Hq Hp st a st' H. destruct (Hm _ _ _ H) as [H1 [evs [H2 H3]]].
  split; [auto|]. exists evs. split; [exact H2|].
  eapply Forall_impl; [|exact H3]. exact Hp.
Qed.

(** A loop keeps an invariant of its accumulator. *)
Lemma triple_foldM {A B : Type} (f : B -> A -> M B) (l : list A)
    (I : B -> Prop) P :
  (forall acc x, In x l -> I acc -> triple (f acc x) I P) ->
  forall acc, I acc -> triple (foldM f l acc) I P.
Proof.
  induction l as [|x l IH]; intros Hf acc Hacc; cbn [foldM].
  - apply triple_ret. exact Hacc.
  - eapply triple_bind.
    + apply Hf; [left; reflexivity | exact Hacc].
    + intros acc' Hacc'. apply IH; [|exact Hacc'].
      intros acc0 y Hy. apply Hf. right. exact Hy.
Qed.

Lemma triple_forM_ {A : Type} (f : A -> M unit) (l : list A) P :
  (forall x, In x l -> triple (f x) (fun _ => True) P) ->
  triple (forM_ f l) (fun _ => True) P.
Proof.
  intro Hf. unfold forM_. apply triple_foldM; [|exact I].
  intros acc x Hx _. apply Hf. exact Hx.
Qed.

Lemma triple_log_value_change event_type row_id column old_value new_value
    reason policy_section timestamp (P : Audit.event -> Prop) :
  (forall e, Audit.ev_event_type e = event_type ->
             Audit.ev_column e = Some column ->
             Audit.ev_row_id e = Some row_id -> P e) ->
  triple (log_value_change event_type row_id column old_value new_value
            reason policy_section timestamp) (fun _ => True) P.
Proof.
  intro Hp. unfold log_value_change.
  destruct (String.eqb timestamp ""); [apply triple_raise|].
  apply triple_emit; [exact I|]. apply Hp; reflexivity.
Qed.

Lemma foldM_app {A B : Type} (f : B -> A -> M B) (l1 l2 : list A) acc :
  forall st, foldM f (l1 ++ l2) acc st =
             bind (foldM f l1 acc) (foldM f l2) st.
Proof.
  revert acc. induction l1 as [|x l1 IH]; intros acc st; cbn [foldM app].
  - reflexivity.
  - unfold bind. destruct (f acc x st) as [[acc' st1]|msg]; [|reflexivity].
    rewrite IH. reflexivity.
Qed.

End MonadFacts.

(** ** Sorting keeps the elements *)

Section SortFacts.
Context {A : Type} (leb : A -> A -> bool).

Lemma insert_sorted_perm x l : Permutation (x :: l) (insert_sorted leb x l).
Proof.
  induction l as [|y l IH]; cbn [insert_sorted]; [reflexivity|].
  destruct (leb x y); [reflexivity|].
  rewrite perm_swap. apply perm_skip. exact IH.
Qed.

Lemma sorted_perm l : Permutation l (sorted leb l).
Proof.
  induction l as [|x l IH]; cbn; [reflexivity|].
  rewrite <- insert_sorted_perm. apply perm_skip. exact IH.
Qed.

Lemma sorted_In x l : In x (sorted leb l) <-> In x l.
Proof.
  split; apply Permutation_in; [symmetry|]; apply sorted_perm.
Qed.

Lemma sorted_NoDup l : NoDup l -> NoDup (sorted leb l).
Proof. apply Permutation_NoDup. apply sorted_perm. Qed.
End SortFacts.

(** ** Dicts and tables *)

Section FrameFacts.

Lemma dict_get_set_other {V : Type} (k k' : string) (v : V) d :
  k <> k' -> dict_get k (dict_set k' v d) = dict_get k d.
Proof.
  intro Hne. induction d as [|[k0 v0] d IH]; cbn.
  - destruct (String.eqb_spec k k'); [contradiction | reflexivity].
  - destruct (String.eqb_spec k' k0); cbn.
    + subst k0. destruct (String.eqb_spec k k'); [contradiction | reflexivity].
    + destruct (String.eqb_spec k k0); [reflexivity | exact IH].
Qed.

Lemma dict_get_set_same {V : Type} (k : string) (v : V) d :
  dict_get k (dict_set k v d) = Some v.
Proof.
  induction d as [|[k0 v0] d IH]; cbn.
  - rewrite String.eqb_refl. reflexivity.
  - destruct (String.eqb_spec k k0); cbn.
    + rewrite String.eqb_refl. reflexivity.
    + destruct (String.eqb_spec k k0); [contradiction | exact IH].
Qed.

Lemma dict_set_keys_present {V : Type} (k : string) (v : V) d :
  In k (map fst d) -> map fst (dict_set k v d) = map fst d.
Proof.
  induction d as [|[k0 v0] d IH]; cbn; [intros []|].
  intros Hin. destruct (String.eqb_spec k k0); cbn.
  - subst. reflexivity.
  - f_equal. apply IH. destruct Hin as [H|H]; [congruence | exact H].
Qed.

Lemma dict_get_Some_In {V : Type} (k : string) (v : V) d :
  dict_get k d = Some v -> In k (map fst d).
Proof.
  induction d as [|[k0 v0] d IH]; cbn; [discriminate|].
  destruct (String.eqb_spec k k0); [left; auto | right; auto].
Qed.

Lemma col_set_col_other df c c' s :
  c <> c' -> Frame.col (Frame.set_col df c' s) c = Frame.col df c.
Proof. intro H. unfold Frame.col, Frame.set_col. cbn. apply dict_get_set_other. exact H. Qed.

Lemma col_set_col_same df c s :
  Frame.col (Frame.set_col df c s) c = Some s.
Proof. unfold Frame.col, Frame.set_col. cbn. apply dict_get_set_same. Qed.

Lemma columns_set_col df c s s0 :
  Frame.col df c = Some s0 ->
  Frame.columns (Frame.set_col df c s) = Frame.columns df.
Proof.
  intro H. unfold Frame.columns, Frame.set_col. cbn.
  apply dict_set_keys_present. eapply dict_get_Some_In. exact H.
Qed.


End FrameFacts.

(* ================================================================== *)
(** * Properties of the imputation phase                                *)
(* ================================================================== *)

Section ImputationFacts.

Variable env : Env.

Local Open Scope m_scope.

(** What every step of the imputation loops preserves about a column it
    does not process. *)
Definition same_frame (c : string) (df df' : DataFrame) : Prop :=
  Frame.col df' c = Frame.col df c /\
  Frame.columns df' = Frame.columns df /\
  df_index df' = df_index df.

Lemma same_frame_refl c df : same_frame c df df.
Proof. repeat split. Qed.

Lemma same_frame_trans c df1 df2 df3 :
  same_frame c df1 df2 -> same_frame c df2 df3 -> same_frame c df1 df3.
Proof.
  intros [A1 [A2 A3]] [B1 [B2 B3]]. repeat split; congruence.
Qed.

Lemma same_frame_set_col c df col s s0 :
  col <> c -> Frame.col df col = Some s0 ->
  same_frame c df (Frame.set_col df col s).
Proof.
  intros Hne Hc. repeat split.
  - apply col_set_col_other. congruence.
  - eapply columns_set_col. exact Hc.
Qed.

Definition about (col : string) (e : Audit.event) : Prop :=
  Audit.ev_column e = Some col.

Lemma impute_column_frame audit clk row_ids bucket cfg df col c :
  col <> c ->
  triple (impute_column env audit clk row_ids bucket cfg df col)
         (same_frame c df) (about col).
Proof.
  intro Hne. unfold impute_column.
  destruct (Frame.col df col) as [s|] eqn:Hcol;
    [|apply triple_ret, same_frame_refl].
  destruct (negb (any_true (map is_effectively_missing (s_values s))));
    [apply triple_ret, same_frame_refl|].
  destruct (Qltb (allow_if_missing_pct_leq cfg) (missing_ratio s)).
  - eapply triple_bind with (Q1 := fun _ => True).
    + destruct audit; [|apply triple_ret; exact I].
      eapply triple_bind with (Q1 := fun _ => True).
      * apply triple_call_clock. auto.
      * intros ts _. apply triple_emit; [exact I | reflexivity].
    + intros _ _. apply triple_ret, same_frame_refl.
  - destruct (choose_fill bucket cfg col s) as [[strategy fill_val]|];
      [|apply triple_ret, same_frame_refl].
    destruct (isna fill_val); [apply triple_ret, same_frame_refl|].
    eapply triple_bind with (Q1 := fun _ => True).
    + apply triple_call_clock. auto.
    + intros ts _. eapply triple_bind with (Q1 := fun _ => True).
      * destruct audit; [|apply triple_ret; exact I].
        apply triple_forM_. intros item _.
        apply triple_log_value_change. intros e _ H _. exact H.
      * intros _ _. apply triple_ret. eapply same_frame_set_col; eassumption.
Qed.

Lemma bucket_columns_spec df pol bucket col :
  In col (bucket_columns df pol bucket) ->
  ~ In col (protected_columns (roles pol)) /\ col <> "_row_id" /\
  In col (Frame.columns df) /\
  exists s, Frame.col df col = Some s /\
            in_bucket bucket (dict_get col (column_types (parsing pol))) s = true.
Proof.
  unfold bucket_columns. rewrite sorted_In, filter_In.
  intros [Hin H]. apply andb_true_iff in H. destruct H as [H1 H2].
  apply negb_true_iff, orb_false_iff in H1. destruct H1 as [Hp Hr].
  split.
  - intro Hc. apply (mem_In String.eqb String.eqb_eq) in Hc. congruence.
  - split; [apply String.eqb_neq; exact Hr|]. split; [exact Hin|].
    destruct (Frame.col df col) as [s|]; [|discriminate].
    exists s. auto.
Qed.

Definition untouched (pol : Policy) (c : string) : Prop :=
  In c (protected_columns (roles pol)) \/ c = "_row_id".

Lemma untouched_not_in_bucket pol df bucket c :
  untouched pol c -> ~ In c (bucket_columns df pol bucket).
Proof.
  intros Hc Hin. apply bucket_columns_spec in Hin.
  destruct Hin as [Hp [Hr _]]. destruct Hc; contradiction.
Qed.

Lemma impute_columns_frame audit clk row_ids bucket cfg cols c :
  ~ In c cols ->
  forall df,
  triple (foldM (impute_column env audit clk row_ids bucket cfg) cols df)
         (same_frame c df) (fun e => Audit.ev_column e <> Some c).
Proof.
  intros Hc df. apply triple_foldM; [|apply same_frame_refl].
  intros acc col Hin Hacc.
  assert (Hne : col <> c) by (intro; subst; contradiction).
  eapply triple_weaken.
  - apply impute_column_frame. exact Hne.
  - intros df' H. eapply same_frame_trans; eassumption.
  - intros e He Hce. unfold about in He. congruence.
Qed.

Lemma impute_bucket_frame audit clk row_ids pol df b c :
  ~ In c (bucket_columns df pol (fst b)) ->
  triple (impute_bucket env audit clk row_ids pol df b)
         (same_frame c df) (fun e => Audit.ev_column e <> Some c).
Proof.
  intro Hc. destruct b as [bucket cfg]. unfold impute_bucket.
  destruct (_ && _); [apply triple_ret, same_frame_refl|].
  apply impute_columns_frame. exact Hc.
Qed.

Lemma apply_imputation_frame df pol audit clock c :
  untouched pol c ->
  triple (apply_imputation env df pol audit clock)
         (same_frame c df) (fun e => Audit.ev_column e <> Some c).
Proof.
  intro Hc. unfold apply_imputation.
  eapply triple_bind with (Q1 := fun _ => True).
  - unfold require_row_id. destruct (Frame.has_column df "_row_id");
      [apply triple_ret; exact I | apply triple_raise].
  - intros _ _. destruct (negb _); [apply triple_ret, same_frame_refl|].
    apply triple_foldM; [|apply same_frame_refl].
    intros acc b _ Hacc. eapply triple_weaken.
    + apply impute_bucket_frame. apply untouched_not_in_bucket. exact Hc.
    + intros df' H. eapply same_frame_trans; eassumption.
    + auto.
Qed.

(** C8, amended *)
Theorem imputation_skips_protected_columns df pol audit clock st0 out st c :
  apply_imputation env df pol audit clock st0 = Ok (out, st) ->
  In c (protected_columns (roles pol)) \/ c = "_row_id" ->
  Frame.col out c = Frame.col df c /\
  exists evs, trace st = (trace st0 ++ evs)%list /\
              Forall (fun e => Audit.ev_column e <> Some c) evs.
Proof.
  intros Hrun Hc.
  destruct (apply_imputation_frame df pol audit clock c Hc _ _ _ Hrun)
    as [[H1 _] H2].
  split; assumption.
Qed.


(** ** The threshold gate *)

(** [one_event G P st st']: between the two states exactly one event
    satisfying [G] was logged, and every other event satisfies [P]. *)
Definition one_event (G P : Audit.event -> Prop) (st st' : pstate) : Prop :=
  exists pre e post,
    trace st' = (trace st ++ pre ++ e :: post)%list /\
    G e /\ Forall P pre /\ Forall P post.

Definition triple1 {A : Type} (m : M A) (Q : A -> Prop)
    (G P : Audit.event -> Prop) : Prop :=
  forall st a st', m st = Ok (a, st') -> Q a /\ one_event G P st st'.

Lemma triple1_bind_l {A B : Type} (m : M A) (f : A -> M B)
    (Q1 : A -> Prop) (Q2 : B -> Prop) G P :
  triple1 m Q1 G P -> (forall a, Q1 a -> triple (f a) Q2 P) ->
  triple1 (bind m f) Q2 G P.
Proof.
  intros Hm Hf st b st' H. apply bind_ok in H.
  destruct H as [a [st1 [H1 H2]]].
  destruct (Hm _ _ _ H1) as [Hq1 [pre [e [post [Ht [Hg [Hp1 Hp2]]]]]]].
  destruct (Hf a Hq1 _ _ _ H2) as [Hq2 [evs [Ht2 Hp]]].
  split; [exact Hq2|]. exists pre, e, (post ++ evs)%list.
  split; [|split; [exact Hg|split; [exact Hp1|apply Forall_app; auto]]].
  rewrite Ht2, Ht. rewrite <- !app_assoc. reflexivity.
Qed.

Lemma triple1_bind_r {A B : Type} (m : M A) (f : A -> M B)
    (Q1 : A -> Prop) (Q2 : B -> Prop) G P :
  triple m Q1 P -> (forall a, Q1 a -> triple1 (f a) Q2 G P) ->
  triple1 (bind m f) Q2 G P.
Proof.
  intros Hm Hf st b st' H. apply bind_ok in H.
  destruct H as [a [st1 [H1 H2]]].
  destruct (Hm _ _ _ H1) as [Hq1 [evs [Ht1 Hp]]].
  destruct (Hf a Hq1 _ _ _ H2) as [Hq2 [pre [e [post [Ht [Hg [Hp1 Hp2]]]]]]].
  split; [exact Hq2|]. exists (evs ++ pre)%list, e, post.
  split; [|split; [exact Hg|split; [apply Forall_app; auto|exact Hp2]]].
  rewrite Ht, Ht1. rewrite <- !app_assoc. reflexivity.
Qed.

(** A loop in which exactly one iteration logs the event. *)
Lemma triple1_foldM {A B : Type} (f : B -> A -> M B) (l1 l2 : list A) (x : A)
    (I : B -> Prop) G P :
  (forall acc y, In y (l1 ++ l2) -> I acc -> triple (f acc y) I P) ->
  (forall acc, I acc -> triple1 (f acc x) I G P) ->
  forall acc, I acc -> triple1 (foldM f (l1 ++ x :: l2) acc) I G P.
Proof.
  intros Hother Hx acc Hacc st r st' H.
  rewrite foldM_app in H. revert st r st' H.
  change (triple1 (bind (foldM f l1 acc) (foldM f (x :: l2))) I G P).
  eapply triple1_bind_r.
  - apply triple_foldM; [|exact Hacc]. intros a y Hy. apply Hother.
    apply in_or_app. left. exact Hy.
  - intros acc1 Hacc1. cbn [foldM]. eapply triple1_bind_l.
    + apply Hx. exact Hacc1.
    + intros acc2 Hacc2. apply triple_foldM; [|exact Hacc2].
      intros a y Hy. apply Hother. apply in_or_app. right. exact Hy.
Qed.

Lemma count_true_none mask : any_true mask = false -> count_true mask = O.
Proof.
  unfold any_true, count_true. induction mask as [|b m IH]; [reflexivity|].
  cbn. destruct b; [discriminate|]. exact IH.
Qed.

Lemma gated_has_missing s thr :
  (0 <= thr)%Q -> (thr < missing_ratio s)%Q ->
  any_true (map is_effectively_missing (s_values s)) = true.
Proof.
  intros H0 Hlt.
  destruct (any_true (map is_effectively_missing (s_values s))) eqn:E;
    [reflexivity|].
  exfalso. unfold missing_ratio in Hlt. rewrite (count_true_none _ E) in Hlt.
  assert (Hz : (inject_Z (Z.of_nat 0)
                / inject_Z (Z.of_nat (List.length (s_values s))) == 0)%Q).
  { cbn. unfold Qdiv. rewrite Qmult_0_l. reflexivity. }
  rewrite Hz in Hlt. apply (Qlt_not_le _ _ Hlt H0).
Qed.

Definition is_skip (c bucket : string) (s : Series) (cfg : BucketCfg)
    (e : Audit.event) : Prop :=
  exists ts, e = skip_event ts c bucket (missing_ratio s)
                            (allow_if_missing_pct_leq cfg).

Lemma impute_column_gated clk row_ids bucket cfg df c s :
  Frame.col df c = Some s ->
  (0 <= allow_if_missing_pct_leq cfg)%Q ->
  (allow_if_missing_pct_leq cfg < missing_ratio s)%Q ->
  triple1 (impute_column env true clk row_ids bucket cfg df c)
          (fun df' => df' = df) (is_skip c bucket s cfg)
          (fun e => Audit.ev_column e <> Some c).
Proof.
  intros Hcol H0 Hlt st df' st' H. unfold impute_column in H.
  rewrite Hcol in H. rewrite (gated_has_missing s _ H0 Hlt) in H.
  cbn [negb] in H.
  assert (Hq : Qltb (allow_if_missing_pct_leq cfg) (missing_ratio s) = true).
  { apply Qltb_lt. exact Hlt. }
  rewrite Hq in H. cbv [bind call_clock emit ret] in H. cbn in H.
  inversion H; subst. split; [reflexivity|].
  exists [], (skip_event (clk (ticks st)) c bucket (missing_ratio s)
                (allow_if_missing_pct_leq cfg)), [].
  split; [reflexivity|]. split; [eexists; reflexivity|]. split; constructor.
Qed.

Definition bucket_active (cfg : BucketCfg) : bool :=
  negb (String.eqb (bucket_default cfg) "none"
        && match bucket_constants cfg with [] => true | _ => false end).

(** What the imputation loops keep true of a gated column. *)
Definition keeps (df0 : DataFrame) (c : string) (df : DataFrame) : Prop :=
  same_frame c df0 df.

Lemma bucket_columns_member df df' pol bucket c :
  same_frame c df df' ->
  In c (bucket_columns df pol bucket) -> In c (bucket_columns df' pol bucket).
Proof.
  intros [H1 [H2 _]]. unfold bucket_columns.
  rewrite !sorted_In, !filter_In. rewrite H1, H2. auto.
Qed.

Lemma bucket_columns_NoDup df pol bucket :
  NoDup (Frame.columns df) -> NoDup (bucket_columns df pol bucket).
Proof.
  intro H. unfold bucket_columns. apply sorted_NoDup. apply NoDup_filter. exact H.
Qed.

Lemma impute_bucket_gated clk row_ids pol df bucket cfg c s :
  NoDup (Frame.columns df) ->
  bucket_active cfg = true ->
  In c (bucket_columns df pol bucket) ->
  Frame.col df c = Some s ->
  (0 <= allow_if_missing_pct_leq cfg)%Q ->
  (allow_if_missing_pct_leq cfg < missing_ratio s)%Q ->
  triple1 (impute_bucket env true clk row_ids pol df (bucket, cfg))
          (same_frame c df) (is_skip c bucket s cfg)
          (fun e => Audit.ev_column e <> Some c).
Proof.
  intros Hnd Hact Hin Hcol H0 Hlt. unfold impute_bucket.
  unfold bucket_active in Hact. apply negb_true_iff in Hact. rewrite Hact.
  pose proof (bucket_columns_NoDup df pol bucket Hnd) as Hnd'.
  destruct (in_split _ _ Hin) as [l1 [l2 Hl]]. rewrite Hl in *.
  assert (Hnot : ~ In c (l1 ++ l2)) by (apply NoDup_remove_2; exact Hnd').
  apply triple1_foldM with (I := same_frame c df).
  - intros acc col Hy Hacc.
    assert (Hne : col <> c) by (intro; subst; contradiction).
    eapply triple_weaken.
    + apply impute_column_frame. exact Hne.
    + intros df' H. eapply same_frame_trans; eassumption.
    + intros e He Hce. unfold about in He. congruence.
  - intros acc Hacc st df' st' H.
    assert (Hcol' : Frame.col acc c = Some s)
      by (destruct Hacc as [Hc _]; rewrite Hc; exact Hcol).
    destruct (impute_column_gated clk row_ids bucket cfg acc c s
                Hcol' H0 Hlt _ _ _ H) as [Heq Hone].
    subst df'. split; assumption.
  - apply same_frame_refl.
Qed.

Lemma in_bucket_shape typ s :
  exists A B C : bool,
    A && B = false /\
    forall b, in_bucket b typ s =
      (String.eqb b "numeric" && A) || (String.eqb b "datetime" && B)
      || (String.eqb b "categorical" && negb A && negb B && C).
Proof.
  assert (Hdt : Frame.is_numeric_dtype s && Frame.is_datetime64_any_dtype s = false).
  { unfold Frame.is_numeric_dtype, Frame.is_datetime64_any_dtype.
    destruct (s_dtype s); reflexivity. }
  assert (Hty : forall t, Text.str_in t numeric_types
                          && Text.str_in t datetime_types = false).
  { intro t. unfold Text.str_in, numeric_types, datetime_types. cbn [existsb].
    destruct (String.eqb_spec t "numeric"); [subst; reflexivity|].
    destruct (String.eqb_spec t "integer"); [subst; reflexivity|].
    destruct (String.eqb_spec t "float"); [subst; reflexivity|].
    reflexivity. }
  unfold in_bucket. destruct typ as [t|].
  - destruct (String.eqb t "").
    + exists (Frame.is_numeric_dtype s), (Frame.is_datetime64_any_dtype s), true.
      split; [exact Hdt|]. intro b. rewrite andb_true_r. reflexivity.
    + exists (Text.str_in t numeric_types), (Text.str_in t datetime_types),
             (negb (Text.str_in t boolean_types)).
      split; [apply Hty | reflexivity].
  - exists (Frame.is_numeric_dtype s), (Frame.is_datetime64_any_dtype s), true.
    split; [exact Hdt|]. intro b. rewrite andb_true_r. reflexivity.
Qed.

Lemma in_bucket_exclusive b b' typ s :
  In b ["numeric"; "datetime"; "categorical"] ->
  In b' ["numeric"; "datetime"; "categorical"] ->
  b <> b' ->
  in_bucket b typ s = true -> in_bucket b' typ s = false.
Proof.
  intros Hb Hb' Hne.
  destruct (in_bucket_shape typ s) as [A [B [C [HAB E]]]].
  rewrite !E. cbn [In] in Hb, Hb'.
  destruct Hb as [<-|[<-|[<-|[]]]]; destruct Hb' as [<-|[<-|[<-|[]]]];
    try congruence; cbn; destruct A, B, C; cbn in *; congruence.
Qed.

Lemma bucket_names pol b : In b (buckets pol) ->
  In (fst b) ["numeric"; "datetime"; "categorical"].
Proof.
  unfold buckets. cbn [In]. intros [<-|[<-|[<-|[]]]]; cbn; auto.
Qed.

Lemma not_in_other_bucket df pol b b' c s :
  In b ["numeric"; "datetime"; "categorical"] ->
  In b' ["numeric"; "datetime"; "categorical"] ->
  b <> b' ->
  In c (bucket_columns df pol b) ->
  Frame.col df c = Some s ->
  forall df', same_frame c df df' -> ~ In c (bucket_columns df' pol b').
Proof.
  intros Hb Hb' Hne Hin Hcol df' Hsame Hin'.
  apply bucket_columns_spec in Hin. destruct Hin as [_ [_ [_ [s1 [Hs1 Hb1]]]]].
  apply bucket_columns_spec in Hin'. destruct Hin' as [_ [_ [_ [s2 [Hs2 Hb2]]]]].
  destruct Hsame as [Hc _]. rewrite Hc in Hs2.
  assert (s1 = s) by congruence. assert (s2 = s) by congruence. subst s1 s2.
  rewrite (in_bucket_exclusive b b' _ s Hb Hb' Hne Hb1) in Hb2. discriminate.
Qed.

Lemma format_4f_compat a b : (a == b)%Q -> Text.format_4f a = Text.format_4f b.
Proof.
  intro H. unfold Text.format_4f.
  rewrite (round_half_even_compat (a * 10000) (b * 10000)) by (rewrite H; reflexivity).
  assert (E : Qltb a 0 = Qltb b 0) by (unfold Qltb; rewrite H; reflexivity).
  rewrite E. reflexivity.
Qed.

(** C3 *)
Theorem imputation_threshold_gate df pol clock st0 out st bucket cfg c s :
  apply_imputation env df pol true clock st0 = Ok (out, st) ->
  missing_enabled (missing_data pol) = true ->
  NoDup (Frame.columns df) ->
  In (bucket, cfg) (buckets pol) ->
  bucket_active cfg = true ->
  In c (bucket_columns df pol bucket) ->
  Frame.col df c = Some s ->
  (0 <= allow_if_missing_pct_leq cfg)%Q ->
  (allow_if_missing_pct_leq cfg < missing_ratio s)%Q ->
  Frame.col out c = Some s /\
  (exists pre ts post,
     trace st =
       (trace st0 ++ pre
        ++ skip_event ts c bucket (missing_ratio s)
                      (allow_if_missing_pct_leq cfg) :: post)%list /\
     Forall (fun e => Audit.ev_column e <> Some c) pre /\
     Forall (fun e => Audit.ev_column e <> Some c) post) /\
  ((missing_ratio s == 1 # 2)%Q ->
   (allow_if_missing_pct_leq cfg == 1 # 4)%Q ->
   forall ts,
     Audit.ev_reason (skip_event ts c bucket (missing_ratio s)
                                 (allow_if_missing_pct_leq cfg))
     = "missing_pct_0.5000_gt_0.2500").
Proof.
  intros Hrun Hen Hnd Hb Hact Hin Hcol H0 Hlt.
  assert (Hmain : triple1 (apply_imputation env df pol true clock)
            (same_frame c df) (is_skip c bucket s cfg)
            (fun e => Audit.ev_column e <> Some c)).
  { unfold apply_imputation. eapply triple1_bind_r with (Q1 := fun _ => True).
    - unfold require_row_id. destruct (Frame.has_column df "_row_id");
        [apply triple_ret; exact I | apply triple_raise].
    - intros _ _. rewrite Hen. cbn [negb].
      destruct (in_split _ _ Hb) as [l1 [l2 Hl]]. rewrite Hl.
      assert (Hnd_b : NoDup (map fst (buckets pol))).
      { unfold buckets. cbn. repeat constructor; cbn; intuition discriminate. }
      rewrite Hl in Hnd_b. rewrite map_app in Hnd_b. cbn [map fst] in Hnd_b.
      apply NoDup_remove_2 in Hnd_b.
      apply triple1_foldM with (I := same_frame c df).
      + intros acc y Hy Hacc.
        assert (Hy_in : In y (buckets pol)).
        { rewrite Hl. apply in_app_or in Hy. apply in_or_app.
          destruct Hy; [left | right; right]; assumption. }
        assert (Hne : bucket <> fst y).
        { intro Heq. apply Hnd_b. rewrite <- map_app. rewrite Heq.
          apply in_map. exact Hy. }
        eapply triple_weaken.
        * apply impute_bucket_frame.
          apply (not_in_other_bucket df pol bucket (fst y) c s
                   (bucket_names pol _ Hb) (bucket_names pol _ Hy_in) Hne
                   Hin Hcol acc Hacc).
        * intros df' H. eapply same_frame_trans; eassumption.
        * auto.
      + intros acc Hacc.
        assert (Hcol' : Frame.col acc c = Some s)
          by (destruct Hacc as [Hc _]; rewrite Hc; exact Hcol).
        assert (Hnd' : NoDup (Frame.columns acc))
          by (destruct Hacc as [_ [Hc _]]; rewrite Hc; exact Hnd).
        intros st1 df' st' H.
        destruct (impute_bucket_gated _ _ pol acc bucket cfg c s Hnd' Hact
                    (bucket_columns_member _ _ _ _ _ Hacc Hin) Hcol' H0 Hlt
                    _ _ _ H) as [Hs Hone].
        split; [eapply same_frame_trans; eassumption | exact Hone].
      + apply same_frame_refl. }
  destruct (Hmain _ _ _ Hrun) as [[Hc _] [pre [e [post [Ht [[ts He] [Hp1 Hp2]]]]]]].
  split; [rewrite Hc; exact Hcol|]. split.
  - exists pre, ts, post. subst e. auto.
  - intros Hr Ht4 ts'. cbn [skip_event Audit.ev_reason].
    rewrite (format_4f_compat _ _ Hr), (format_4f_compat _ _ Ht4). reflexivity.
Qed.

End ImputationFacts.

(* ================================================================== *)
(** * Properties of the parser                                          *)
(* ================================================================== *)

Section ParsingFacts.

Variable env : Env.

Local Open Scope m_scope.

(** The event logged for a row the parser drops. *)
Definition row_dropped_event (df : DataFrame) (ts : string) (idx : Z)
  : Audit.event :=
  {| Audit.ev_timestamp := Some ts;
     Audit.ev_event_type := "row_dropped";
     Audit.ev_reason := "parsing_on_failure_drop_row";
     Audit.ev_policy_section := "parsing.on_failure.drop_row";
     Audit.ev_column := Some "__row__";
     Audit.ev_row_id := Some (row_id_at df idx);
     Audit.ev_old_value := Some "row_present";
     Audit.ev_new_value := None;
     Audit.ev_count := None |}.

(** What the column loops keep true of the parser's state. *)
Definition parse_inv (df : DataFrame) (st : parse_state) : Prop :=
  df_index (fst st) = df_index df /\
  NoDup (snd st) /\
  (forall idx, In idx (snd st) -> In idx (df_index df)).

Definition is_parsing_failure (e : Audit.event) : Prop :=
  Audit.ev_event_type e = "parsing_failure".

Lemma Z_eqb_eq' (x y : Z) : Z.eqb x y = true <-> x = y.
Proof. apply Z.eqb_eq. Qed.

Lemma audit_failure_triple audit clk rid column old reason section :
  triple (audit_failure env audit clk rid column old reason section)
         (fun _ => True) is_parsing_failure.
Proof.
  unfold audit_failure. destruct audit; cbn [negb]; [|apply triple_ret; exact I].
  eapply triple_bind with (Q1 := fun _ => True).
  - apply triple_call_clock. auto.
  - intros ts _. apply triple_log_value_change. intros e H _ _. exact H.
Qed.

Lemma parse_cell_step_triple audit clk row_ids decide column section
    (index : list Z) acc item :
  NoDup (snd acc) /\ (forall idx, In idx (snd acc) -> In idx index) ->
  In (fst item) index ->
  triple (parse_cell_step env audit clk row_ids decide column section acc item)
         (fun acc' => NoDup (snd acc') /\
                      (forall idx, In idx (snd acc') -> In idx index))
         is_parsing_failure.
Proof.
  intros [Hnd Hsub] Hitem. destruct acc as [outs drops], item as [idx val].
  unfold parse_cell_step. cbn [fst snd] in *.
  destruct (decide val) as [v|v|stored reason drop].
  - apply triple_ret. auto.
  - apply triple_ret. auto.
  - eapply triple_bind with (Q1 := fun _ => True).
    + apply audit_failure_triple.
    + intros _ _. apply triple_ret. cbn [snd]. destruct drop; [|auto].
      split.
      * apply set_add_NoDup; [exact Z_eqb_eq' | exact Hnd].
      * intros i Hi. apply (set_add_In Z.eqb Z_eqb_eq') in Hi.
        destruct Hi as [->|Hi]; auto.
Qed.

Lemma sorted_items_index df src item :
  In item (Frame.sorted_items df src) -> In (fst item) (df_index df).
Proof.
  unfold Frame.sorted_items, Frame.items. rewrite sorted_In.
  destruct item as [idx v]. intro H. apply in_combine_l in H. exact H.
Qed.

Lemma parse_column_triple audit clk row_ids decide section out_dtype df st column :
  parse_inv df st ->
  triple (parse_column env audit clk row_ids decide section out_dtype st column)
         (parse_inv df) is_parsing_failure.
Proof.
  intros [Hidx [Hnd Hsub]]. destruct st as [cur drops]. unfold parse_column.
  cbn [fst snd] in *.
  destruct (Frame.col cur column) as [src|];
    [|apply triple_ret; repeat split; assumption].
  eapply triple_bind with
    (Q1 := fun r => NoDup (snd r) /\
                    (forall idx, In idx (snd r) -> In idx (df_index df))).
  - apply triple_foldM.
    + intros acc item Hitem Hacc. apply parse_cell_step_triple; [exact Hacc|].
      rewrite <- Hidx. apply sorted_items_index with (src := src). exact Hitem.
    + cbn [snd]. auto.
  - intros r [Hnd' Hsub']. apply triple_ret. repeat split; cbn [fst snd]; auto.
Qed.

Lemma parse_columns_triple df pol audit clk :
  triple (parse_columns env df pol audit clk) (parse_inv df) is_parsing_failure.
Proof.
  unfold parse_columns.
  assert (H0 : parse_inv df (df, [])).
  { repeat split; cbn; [constructor | intros idx []]. }
  eapply triple_bind with (Q1 := parse_inv df).
  - apply triple_foldM; [|exact H0].
    intros st c _ Hst. apply parse_column_triple. exact Hst.
  - intros st1 H1. eapply triple_bind with (Q1 := parse_inv df).
    + apply triple_foldM; [|exact H1].
      intros st c _ Hst. apply parse_column_triple. exact Hst.
    + intros st2 H2. apply triple_foldM; [|exact H2].
      intros st c _ Hst. apply parse_column_triple. exact Hst.
Qed.

Lemma forM_log_exact {A : Type} (l : list A) event_type (rid : A -> value)
    column old_value new_value reason section ts st st' :
  forM_ (fun x => log_value_change event_type (rid x) column old_value
                    new_value reason section ts) l st = Ok (tt, st') ->
  trace st' =
    (trace st ++
     map (fun x => {| Audit.ev_timestamp := Some ts;
                      Audit.ev_event_type := event_type;
                      Audit.ev_reason := reason;
                      Audit.ev_policy_section := section;
                      Audit.ev_column := Some column;
                      Audit.ev_row_id := Some (rid x);
                      Audit.ev_old_value := old_value;
                      Audit.ev_new_value := new_value;
                      Audit.ev_count := None |}) l)%list.
Proof.
  unfold forM_. revert st. induction l as [|x l IH]; intros st H; cbn [foldM map] in *.
  - inversion H. rewrite app_nil_r. reflexivity.
  - apply bind_ok in H. destruct H as [[] [st1 [H1 H2]]].
    unfold log_value_change in H1.
    destruct (String.eqb ts ""); [discriminate|].
    inversion H1; subst st1. rewrite (IH _ H2). cbn [trace].
    rewrite <- app_assoc. reflexivity.
Qed.

Lemma keep_by_filter {A : Type} (f : A -> bool) (l : list A) :
  Frame.keep_by (map f l) l = filter f l.
Proof.
  induction l as [|x l IH]; cbn; [reflexivity|].
  destruct (f x); rewrite IH; reflexivity.
Qed.

Lemma mem_sorted idx (l : list Z) :
  mem Z.eqb idx (sorted Z.leb l) = mem Z.eqb idx l.
Proof.
  destruct (mem Z.eqb idx l) eqn:E.
  - apply (mem_In Z.eqb Z_eqb_eq'). apply sorted_In.
    apply (mem_In Z.eqb Z_eqb_eq'). exact E.
  - destruct (mem Z.eqb idx (sorted Z.leb l)) eqn:E'; [|reflexivity].
    apply (mem_In Z.eqb Z_eqb_eq') in E'. apply sorted_In in E'.
    apply (mem_In Z.eqb Z_eqb_eq') in E'. congruence.
Qed.

(** C5 *)
Theorem parsing_drops_rows_once df pol audit clock st0 out st :
  apply_parsing env df pol audit clock st0 = Ok (out, st) ->
  exists parsed rows_to_drop mid,
    (* every declared column is processed first, on the full table *)
    parse_columns env df pol audit (clock_or env clock) st0
      = Ok ((parsed, rows_to_drop), mid) /\
    df_index parsed = df_index df /\
    (exists failures, trace mid = (trace st0 ++ failures)%list /\
                      Forall is_parsing_failure failures) /\
    (* the rows marked by any column form one set *)
    NoDup rows_to_drop /\
    (forall idx, In idx rows_to_drop -> In idx (df_index df)) /\
    (* which is removed in one step, afterwards *)
    (rows_to_drop = [] -> out = parsed) /\
    (rows_to_drop <> [] ->
     out = Frame.drop_labels parsed (sorted Z.leb rows_to_drop)) /\
    df_index out =
      filter (fun idx => negb (mem Z.eqb idx rows_to_drop)) (df_index df) /\
    (* with one event per dropped row, keyed by the row's [_row_id] *)
    (audit = true ->
     exists ts, trace st =
       (trace mid ++ map (row_dropped_event df ts)
                         (sorted Z.leb rows_to_drop))%list) /\
    (audit = false -> trace st = trace mid).
Proof.
  intro H. unfold apply_parsing in H.
  apply bind_ok in H. destruct H as [[] [st1 [Hreq H]]].
  assert (st1 = st0).
  { unfold require_row_id in Hreq. destruct (Frame.has_column df "_row_id");
      [inversion Hreq; reflexivity | discriminate]. }
  subst st1. apply bind_ok in H. destruct H as [[parsed drops] [mid [Hcols Hdrop]]].
  destruct (parse_columns_triple df pol audit (clock_or env clock) _ _ _ Hcols)
    as [[Hidx [Hnd Hsub]] Hfail].
  cbn [fst snd] in Hidx, Hnd, Hsub.
  exists parsed, drops, mid.
  split; [exact Hcols|]. split; [exact Hidx|]. split; [exact Hfail|].
  split; [exact Hnd|]. split; [exact Hsub|].
  unfold drop_marked_rows in Hdrop. destruct drops as [|d drops].
  - inversion Hdrop; subst. split; [reflexivity|]. split; [congruence|].
    split.
    + rewrite Hidx. cbn [mem existsb negb]. clear.
      induction (df_index df) as [|x l IH]; cbn; congruence.
    + split; [|reflexivity]. intros _. exists "". cbn. rewrite app_nil_r. reflexivity.
  - split; [discriminate|].
    apply bind_ok in Hdrop. destruct Hdrop as [[] [st2 [Hlog Hret]]].
    inversion Hret; subst out st2. split; [reflexivity|]. split.
    + unfold Frame.drop_labels, Frame.select_rows. cbn [df_index].
      rewrite keep_by_filter, Hidx. apply filter_ext. intro idx.
      change (insert_sorted Z.leb d (sorted Z.leb drops))
        with (sorted Z.leb (d :: drops)).
      rewrite mem_sorted. reflexivity.
    + split.
      * intros ->. apply bind_ok in Hlog. destruct Hlog as [ts [st3 [Hclk Hlog]]].
        inversion Hclk; subst st3. exists ts.
        rewrite (forM_log_exact _ _ _ _ _ _ _ _ _ _ _ Hlog). reflexivity.
      * intros ->. inversion Hlog. reflexivity.
Qed.

End ParsingFacts.

(* ================================================================== *)
(** * NaN and Infinity tokens in numeric columns                        *)
(* ================================================================== *)

(** Every text whose lower-casing is [t]. *)
Fixpoint case_variants (t : string) : list string :=
  match t with
  | EmptyString => [EmptyString]
  | String c r =>
      let rest := case_variants r in
      if Text.is_lower c
      then (map (String c) rest ++ map (String (Text.to_upper c)) rest)%list
      else map (String c) rest
  end.

Lemma to_lower_cases (a : ascii) :
  (Text.is_lower (Text.to_lower a) = true /\
   (a = Text.to_lower a \/ a = Text.to_upper (Text.to_lower a)))
  \/ (Text.is_lower (Text.to_lower a) = false /\ a = Text.to_lower a).
Proof.
  destruct a as [[] [] [] [] [] [] [] []];
    vm_compute; auto.
Qed.

Lemma lower_in_case_variants (x : string) : In x (case_variants (Text.lower x)).
Proof.
  induction x as [|a x IH]; [left; reflexivity|].
  unfold Text.lower in *. cbn [Text.smap case_variants].
  destruct (to_lower_cases a) as [[Hl [Ha|Ha]]|[Hl Ha]]; rewrite Hl.
  - apply in_or_app. left. rewrite <- Ha. apply in_map. exact IH.
  - apply in_or_app. right. rewrite <- Ha. apply in_map. exact IH.
  - rewrite <- Ha. apply in_map. exact IH.
Qed.

(** The tokens of [nan_inf_tokens] that [_is_effectively_missing] also
    knows, and the others. *)
Definition missing_like_tokens : list string :=
  ["nan"; "inf"; "-inf"; "infinity"; "-infinity"].

Definition rejected_tokens : list string :=
  ["-nan"; "+nan"; "+inf"; "+infinity"].

Definition num_cfg_of (commas currency percent : bool) : NumCfg :=
  {| allow_commas := commas; allow_currency_symbols := currency;
     allow_percent_symbol := percent; percent_scale := "auto";
     num_on_failure := "null" |}.

(** [float] of the text prepared from [raw] is an infinity or NaN, under
    every setting of the three switches. *)
Definition reads_as_non_finite (raw : string) : bool :=
  forallb (fun cfg =>
             match PyFloat.py_float (fst (numeric_text_of cfg raw)) with
             | Some (PInfinite _) | Some PNaN => true
             | _ => false
             end)
          (flat_map (fun a => flat_map (fun b => map (num_cfg_of a b)
                                                     [true; false])
                                       [true; false])
                    [true; false]).

Lemma rejected_variants_non_finite :
  forallb reads_as_non_finite (flat_map case_variants rejected_tokens) = true.
Proof. vm_compute. reflexivity. Qed.

Lemma numeric_text_of_switches cfg raw :
  fst (numeric_text_of cfg raw) =
  fst (numeric_text_of (num_cfg_of (allow_commas cfg)
                          (allow_currency_symbols cfg)
                          (allow_percent_symbol cfg)) raw).
Proof. reflexivity. Qed.

Lemma str_in_In s l : Text.str_in s l = true <-> In s l.
Proof.
  unfold Text.str_in. rewrite existsb_exists. split.
  - intros [y [Hin He]]. apply String.eqb_eq in He. subst. exact Hin.
  - intro H. exists s. split; [exact H | apply String.eqb_refl].
Qed.

Section NanFacts.

Variable env : Env.

Lemma rejected_token_float cfg s :
  Text.str_in (Text.lower (Text.strip s)) rejected_tokens = true ->
  match PyFloat.py_float (fst (numeric_text env cfg (VStr s))) with
  | Some (PInfinite _) | Some PNaN => True
  | _ => False
  end.
Proof.
  intro H. apply str_in_In in H.
  unfold numeric_text. cbn [py_str]. set (raw := Text.strip s) in *.
  assert (Hv : In raw (flat_map case_variants rejected_tokens)).
  { apply in_flat_map. exists (Text.lower raw). split; [exact H|].
    apply lower_in_case_variants. }
  pose proof rejected_variants_non_finite as Hall.
  rewrite forallb_forall in Hall. specialize (Hall raw Hv).
  unfold reads_as_non_finite in Hall. rewrite forallb_forall in Hall.
  rewrite numeric_text_of_switches.
  assert (Hc : In (num_cfg_of (allow_commas cfg) (allow_currency_symbols cfg)
                     (allow_percent_symbol cfg))
                  (flat_map (fun a => flat_map (fun b => map (num_cfg_of a b)
                                                     [true; false])
                                       [true; false])
                    [true; false])).
  { destruct (allow_commas cfg), (allow_currency_symbols cfg),
      (allow_percent_symbol cfg); cbn; auto 10. }
  specialize (Hall _ Hc).
  destruct (PyFloat.py_float _) as [[q|neg|]|]; try discriminate; exact I.
Qed.

(** C4, amended *)
Theorem nan_inf_tokens_never_parse (cfg : NumCfg) (s : string) :
  is_nan_inf_token s = true ->
  let keep_raw := String.eqb (num_on_failure cfg) "keep_raw" in
  (* the token is either one the missing-value predicate knows ... *)
  (Text.str_in (Text.lower (Text.strip s)) missing_like_tokens = true /\
   parse_numeric_cell env cfg (VStr s)
     = Missing (if keep_raw then VStr s else VNull))
  \/
  (* ... or it is rejected as a parse failure *)
  (Text.str_in (Text.lower (Text.strip s)) rejected_tokens = true /\
   parse_numeric_cell env cfg (VStr s)
     = on_failure (num_on_failure cfg) (VStr s) keep_raw
                  "infinite_or_nan_value").
Proof.
  intros Htok keep_raw. unfold is_nan_inf_token in Htok.
  apply str_in_In in Htok. set (t := Text.lower (Text.strip s)) in *.
  assert (Hsplit : In t missing_like_tokens \/ In t rejected_tokens).
  { unfold nan_inf_tokens, missing_like_tokens, rejected_tokens in *.
    cbn [In] in *. intuition. }
  destruct Hsplit as [Hm|Hr].
  - left. split; [apply str_in_In; exact Hm|].
    unfold parse_numeric_cell.
    assert (Hmiss : is_effectively_missing (VStr s) = true).
    { cbn [is_effectively_missing]. fold t. apply str_in_In.
      unfold missing_like_tokens, missing_tokens in *. cbn [In] in *. intuition. }
    rewrite Hmiss. reflexivity.
  - right. split; [apply str_in_In; exact Hr|].
    unfold parse_numeric_cell.
    assert (Hmiss : is_effectively_missing (VStr s) = false).
    { cbn [is_effectively_missing]. fold t.
      unfold rejected_tokens in Hr. cbn [In] in Hr.
      destruct Hr as [<-|[<-|[<-|[<-|[]]]]]; reflexivity. }
    rewrite Hmiss.
    pose proof (rejected_token_float cfg s (proj2 (str_in_In _ _) Hr)) as Hf.
    destruct (numeric_text env cfg (VStr s)) as [raw_num is_pct].
    cbn [fst] in Hf.
    destruct (PyFloat.py_float raw_num) as [[q|neg|]|]; try contradiction;
      reflexivity.
Qed.

End NanFacts.

(* ================================================================== *)
(** * Runs on concrete tables                                           *)
(* ================================================================== *)

Section Counterexamples.

Import Examples.

(** C1 *)
Theorem validity_nullifies_protected_column (env : Env) :
  In "secret" (protected_columns (roles secret_policy)) /\
  table_of (run_correction_pipeline env secret_table secret_policy true
              fixed_clock initial) = Some secret_table_after /\
  Frame.cell secret_table "secret" 1 = Some (VStr "B") /\
  Frame.cell secret_table_after "secret" 1 = Some VNull.
Proof.
  split; [left; reflexivity|]. split; [|split; reflexivity].
  vm_compute. reflexivity.
Qed.

(** C9 *)
Theorem audit_stream_depends_on_set_order :
  let run env := run_with_audit env Audit.detailed ledger_table ledger_policy
                                fixed_clock in
  table_of (run env_by_length) = table_of (run env_by_length_reversed) /\
  map Audit.ev_column_of (lines_of (run env_by_length)) = [Some "a"; Some "bb"; None] /\
  map Audit.ev_column_of (lines_of (run env_by_length_reversed)) = [Some "bb"; Some "a"; None] /\
  lines_of (run env_by_length) <> lines_of (run env_by_length_reversed).
Proof.
  cbv zeta. split; [vm_compute; reflexivity|].
  split; [vm_compute; reflexivity|]. split; [vm_compute; reflexivity|].
  vm_compute. discriminate.
Qed.

Lemma wall_clock_unused w w' fr tr tf td ts rm sh df pol audit c st :
  run_correction_pipeline
    {| wall_clock := w; float_repr := fr; time_repr := tr; try_format := tf;
       to_datetime := td; timestamp_of := ts; re_match := rm; str_hash := sh |}
    df pol audit (Some c) st =
  run_correction_pipeline
    {| wall_clock := w'; float_repr := fr; time_repr := tr; try_format := tf;
       to_datetime := td; timestamp_of := ts; re_match := rm; str_hash := sh |}
    df pol audit (Some c) st.
Proof. reflexivity. Qed.

End Counterexamples.

Section Witnesses.

Import Examples.

Lemma imputation_threshold_gate_witness :
  exists out st,
    apply_imputation plain_env sparse_table sparse_policy true fixed_clock
                     initial = Ok (out, st) /\
    Frame.col out "val" = Frame.col sparse_table "val" /\
    map Audit.ev_reason (trace st) = ["missing_pct_0.5000_gt_0.2500"].
Proof.
  eexists. eexists. split; [vm_compute; reflexivity|].
  destruct (imputation_threshold_gate plain_env sparse_table sparse_policy
              fixed_clock initial _ _ "numeric"
              (imputation_numeric (missing_data sparse_policy)) "val"
              (float_column [VNum 10; VNull; VNull; VNum 40])
              eq_refl) as [Hcol _].
  - reflexivity.
  - repeat constructor; cbn; intuition discriminate.
  - left. reflexivity.
  - reflexivity.
  - vm_compute. left. reflexivity.
  - reflexivity.
  - vm_compute. discriminate.
  - vm_compute. reflexivity.
  - split; [exact Hcol | reflexivity].
Defined.

Lemma imputation_skips_protected_columns_witness :
  exists out st,
    apply_imputation plain_env note_table note_policy true fixed_clock initial
      = Ok (out, st) /\
    Frame.col out "secret_note" = Frame.col note_table "secret_note".
Proof.
  eexists. eexists. split; [vm_compute; reflexivity|].
  apply (imputation_skips_protected_columns plain_env note_table note_policy
           true fixed_clock initial _ _ "secret_note" eq_refl).
  left. left. reflexivity.
Defined.

(** C8: the claim as stated fails on the repository's own test data *)
Lemma imputation_fills_critical_column :
  ~ (forall (env : Env) df pol audit clock st0 out st c,
       apply_imputation env df pol audit clock st0 = Ok (out, st) ->
       In c (critical_columns (roles pol)) ->
       Frame.col out c = Frame.col df c).
Proof.
  intro H.
  specialize (H plain_env critical_table critical_policy true fixed_clock
                initial _ _ "x_num" eq_refl (or_introl eq_refl)).
  vm_compute in H. discriminate H.
Qed.

Lemma parsing_drops_rows_once_witness :
  exists out st,
    apply_parsing plain_env orders_table orders_policy true fixed_clock initial
      = Ok (out, st) /\
    df_index out = [2; 3]%Z /\
    map Audit.ev_row_id
        (filter (fun e => String.eqb (Audit.ev_event_type e) "row_dropped")
                (trace st))
      = [Some (VInt 10); Some (VInt 11)].
Proof.
  eexists. eexists. split; [vm_compute; reflexivity|].
  destruct (parsing_drops_rows_once plain_env orders_table orders_policy true
              fixed_clock initial _ _ eq_refl)
    as [parsed [rows [mid [Hcols [_ [_ [_ [_ [_ [_ [Hidx _]]]]]]]]]]].
  vm_compute in Hcols. inversion Hcols; subst rows.
  split; [exact Hidx | reflexivity].
Defined.

Lemma nan_inf_tokens_never_parse_witness :
  parse_numeric_cell plain_env drop_on_failure (VStr " +Inf ")
    = Failed VNull "infinite_or_nan_value" true.
Proof.
  destruct (nan_inf_tokens_never_parse plain_env drop_on_failure " +Inf "
              eq_refl) as [[H _]|[_ H]].
  - discriminate H.
  - exact H.
Defined.

(** C4: the text "nan" is taken for a missing value, not a failure *)
Lemma nan_text_is_not_a_parse_failure :
  ~ (forall (env : Env) cfg s,
       is_nan_inf_token s = true ->
       exists stored reason drop,
         parse_numeric_cell env cfg (VStr s) = Failed stored reason drop).
Proof.
  intro H. destruct (H plain_env drop_on_failure "nan" eq_refl)
    as [stored [reason [drop Hf]]].
  vm_compute in Hf. discriminate Hf.
Qed.

Example nan_row_survives_drop_mode :
  apply_parsing plain_env nan_table nan_policy true fixed_clock initial
  = Ok ({| df_index := [0; 1]%Z;
           df_data := [("_row_id", int_column [1; 2]%Z);
                       ("amount", float_column [VNull; VNum 7])] |},
        initial).
Proof. vm_compute. reflexivity. Qed.


End Witnesses.

(* ================================================================== *)
(** * Idempotence of the text steps                                     *)
(* ================================================================== *)

Section TextFacts.

Import Text.

(** ** Character classes *)

Ltac all_chars c := destruct c as [[] [] [] [] [] [] [] []]; vm_compute; auto.


Lemma to_lower_alpha c : is_alpha (to_lower c) = is_alpha c.
Proof. all_chars c. Qed.

Lemma to_upper_alpha c : is_alpha (to_upper c) = is_alpha c.
Proof. all_chars c. Qed.

Lemma to_lower_idem c : to_lower (to_lower c) = to_lower c.
Proof. all_chars c. Qed.

Lemma to_upper_idem c : to_upper (to_upper c) = to_upper c.
Proof. all_chars c. Qed.










Lemma lower_idem x : lower (lower x) = lower x.
Proof. induction x as [|c x IH]; cbn; [reflexivity|]. rewrite to_lower_idem. f_equal. exact IH. Qed.

Lemma upper_idem x : upper (upper x) = upper x.
Proof. induction x as [|c x IH]; cbn; [reflexivity|]. rewrite to_upper_idem. f_equal. exact IH. Qed.

Lemma title_idem p x : title_from p (title_from p x) = title_from p x.
Proof.
  revert p. induction x as [|c x IH]; intro p; cbn; [reflexivity|].
  destruct (is_alpha c) eqn:E.
  - destruct p.
    + rewrite to_lower_alpha, E, to_lower_idem. f_equal. apply IH.
    + rewrite to_upper_alpha, E, to_upper_idem. f_equal. apply IH.
  - rewrite E. f_equal. apply IH.
Qed.

Lemma casefold_idem m x : casefold_text m (casefold_text m x) = casefold_text m x.
Proof.
  unfold casefold_text.
  destruct (String.eqb m "lower"); [apply lower_idem|].
  destruct (String.eqb m "upper"); [apply upper_idem|].
  destruct (String.eqb m "title"); [apply title_idem|].
  reflexivity.
Qed.

(** ** No control character *)

Fixpoint sforall (p : ascii -> bool) (s : string) : bool :=
  match s with
  | EmptyString => true
  | String c r => p c && sforall p r
  end.

Definition printable (c : ascii) : bool := negb (is_control c).

Lemma sfilter_all p x : sforall p (sfilter p x) = true.
Proof.
  induction x as [|c x IH]; cbn; [reflexivity|].
  destruct (p c) eqn:E; cbn; [rewrite E|]; exact IH.
Qed.

Lemma sfilter_fixed p x : sforall p x = true -> sfilter p x = x.
Proof.
  induction x as [|c x IH]; cbn; [reflexivity|].
  intro H. apply andb_true_iff in H. destruct H as [H1 H2].
  rewrite H1. f_equal. apply IH. exact H2.
Qed.






(** ** Trimmed texts *)

Definition head_ok (x : string) : bool :=
  match x with
  | EmptyString => true
  | String c _ => negb (is_space c)
  end.

Fixpoint last_ok (x : string) : bool :=
  match x with
  | EmptyString => true
  | String c r =>
      match r with
      | EmptyString => negb (is_space c)
      | _ => last_ok r
      end
  end.

Definition trimmed (x : string) : bool := head_ok x && last_ok x.

Lemma lstrip_head_ok x : head_ok (lstrip x) = true.
Proof.
  induction x as [|c x IH]; cbn; [reflexivity|].
  destruct (is_space c) eqn:E; [exact IH|]. cbn. rewrite E. reflexivity.
Qed.

Lemma rstrip_last_ok x : last_ok (rstrip x) = true.
Proof.
  induction x as [|c x IH]; cbn; [reflexivity|].
  destruct (rstrip x) as [|d r] eqn:E.
  - destruct (is_space c) eqn:Ec; cbn; [reflexivity|]. rewrite Ec. reflexivity.
  - cbn [last_ok] in *. exact IH.
Qed.

Lemma rstrip_head_ok x : head_ok x = true -> head_ok (rstrip x) = true.
Proof.
  destruct x as [|c x]; cbn; [auto|]. intro H.
  destruct (rstrip x); [|exact H].
  apply negb_true_iff in H. rewrite H. cbn. rewrite H. reflexivity.
Qed.

Lemma strip_trimmed x : trimmed (strip x) = true.
Proof.
  unfold trimmed, strip. rewrite rstrip_head_ok by apply lstrip_head_ok.
  apply rstrip_last_ok.
Qed.

Lemma lstrip_fixed x : head_ok x = true -> lstrip x = x.
Proof.
  destruct x as [|c x]; cbn; [reflexivity|]. intro H.
  apply negb_true_iff in H. rewrite H. reflexivity.
Qed.

Lemma rstrip_fixed x : last_ok x = true -> rstrip x = x.
Proof.
  induction x as [|c x IH]; cbn; [reflexivity|].
  destruct x as [|d r].
  - cbn. intro H. apply negb_true_iff in H. rewrite H. reflexivity.
  - intro H. rewrite (IH H). reflexivity.
Qed.

Lemma trimmed_fixed x : trimmed x = true -> strip x = x.
Proof.
  unfold trimmed, strip. intro H. apply andb_true_iff in H. destruct H as [H1 H2].
  rewrite (lstrip_fixed x H1). apply rstrip_fixed. exact H2.
Qed.


Lemma collapse_head_ok x : head_ok x = true -> head_ok (collapse_ws x) = true.
Proof.
  destruct x as [|c x]; cbn; [auto|]. intro H. apply negb_true_iff in H.
  rewrite H. cbn. rewrite H. reflexivity.
Qed.

Lemma collapse_nonempty b x :
  last_ok x = true -> x <> EmptyString -> collapse_from b x <> EmptyString.
Proof.
  revert b. induction x as [|c x IH]; intros b H Hne; [congruence|].
  cbn [last_ok] in H. cbn [collapse_from]. destruct x as [|d r].
  - apply negb_true_iff in H. rewrite H. discriminate.
  - assert (Hr : forall b', collapse_from b' (String d r) <> EmptyString)
      by (intro b'; apply IH; [exact H | discriminate]).
    destruct (is_space c); [|discriminate].
    destruct b; [apply Hr | discriminate].
Qed.

Lemma collapse_last_ok b x : last_ok x = true -> last_ok (collapse_from b x) = true.
Proof.
  revert b. induction x as [|c x IH]; intros b H; [reflexivity|].
  cbn [last_ok] in H. cbn [collapse_from]. destruct x as [|d r].
  - apply negb_true_iff in H. rewrite H. cbn. rewrite H. reflexivity.
  - assert (Hr : forall b', last_ok (collapse_from b' (String d r)) = true)
      by (intro b'; apply IH; exact H).
    assert (Hn : forall b', collapse_from b' (String d r) <> EmptyString)
      by (intro b'; apply collapse_nonempty; [exact H | discriminate]).
    assert (Hcons : forall a b', last_ok (String a (collapse_from b' (String d r))) = true).
    { intros a b'. cbn [last_ok]. specialize (Hn b'). specialize (Hr b').
      destruct (collapse_from b' (String d r)); [congruence | exact Hr]. }
    destruct (is_space c); [|apply Hcons].
    destruct b; [apply Hr | apply Hcons].
Qed.

Lemma collapse_trimmed x : trimmed x = true -> trimmed (collapse_ws x) = true.
Proof.
  unfold trimmed. intro H. apply andb_true_iff in H. destruct H as [H1 H2].
  rewrite (collapse_head_ok x H1). apply collapse_last_ok. exact H2.
Qed.

(** ** Collapsed texts *)

Fixpoint collapsed_from (prev_space : bool) (x : string) : bool :=
  match x with
  | EmptyString => true
  | String c r =>
      if is_space c
      then Ascii.eqb c " "%char && negb prev_space && collapsed_from true r
      else collapsed_from false r
  end.

Lemma collapse_collapsed b x : collapsed_from b (collapse_from b x) = true.
Proof.
  revert b. induction x as [|c x IH]; intro b; cbn; [reflexivity|].
  destruct (is_space c) eqn:E.
  - destruct b; [apply IH|]. cbn. apply IH.
  - cbn. rewrite E. apply IH.
Qed.

Lemma collapsed_fixed b x : collapsed_from b x = true -> collapse_from b x = x.
Proof.
  revert b. induction x as [|c x IH]; intro b; cbn; [reflexivity|].
  destruct (is_space c) eqn:E.
  - intro H. apply andb_true_iff in H. destruct H as [H H3].
    apply andb_true_iff in H. destruct H as [H1 H2].
    apply Ascii.eqb_eq in H1. apply negb_true_iff in H2. subst b c.
    rewrite (IH true H3). reflexivity.
  - intro H. rewrite (IH false H). reflexivity.
Qed.


End TextFacts.

(** ** What a text step does to a table *)











Lemma dict_get_In {V : Type} (k : string) (v : V) d :
  dict_get k d = Some v -> In (k, v) d.
Proof.
  induction d as [|[k0 v0] d IH]; cbn; [discriminate|].
  destruct (String.eqb_spec k k0).
  - intro H. inversion H. subst. left. reflexivity.
  - intro H. right. apply IH. exact H.
Qed.




Section TextSteps.

Variable env : Env.

Local Open Scope m_scope.






End TextSteps.

(** ** Properties of the texts a step leaves behind *)








Lemma printable_space : printable " "%char = true.
Proof. reflexivity. Qed.






(** ** Columns the numeric parser has been through *)



(** What an outcome leaves in the output buffer. *)
Definition stored (o : outcome) : value :=
  match o with
  | Parsed v | Missing v | Failed v _ _ => v
  end.










Lemma dict_set_In {V : Type} (k k' : string) (v v' : V) d :
  In (k', v') (dict_set k v d) -> (k', v') = (k, v) \/ In (k', v') d.
Proof.
  induction d as [|[k0 v0] d IH]; cbn.
  - intros [H|[]]. left. congruence.
  - destruct (String.eqb k k0).
    + intros [H|H]; [left; congruence | right; right; exact H].
    + intros [H|H]; [right; left; exact H|].
      destruct (IH H); [left | right; right]; assumption.
Qed.


Lemma dict_get_map {V : Type} (f : V -> V) (k : string) d :
  dict_get k (map (fun kv => (fst kv, f (snd kv))) d) =
  option_map f (dict_get k d).
Proof.
  induction d as [|[k0 v0] d IH]; cbn; [reflexivity|].
  destruct (String.eqb k k0); [reflexivity | exact IH].
Qed.









(** Every declared type is a numeric one. *)
Definition numeric_only (pol : Policy) : Prop :=
  Forall (fun ct => Text.str_in (snd ct) numeric_types = true)
         (column_types (parsing pol)).








Section NumericColumns.

Variable env : Env.

Local Open Scope m_scope.










(** *** A second pass over a parsed table *)







End NumericColumns.

(** ** Policies that only clean text and coerce numbers *)


Section TextAndNumeric.

Variable env : Env.

Local Open Scope m_scope.












End TextAndNumeric.

(** ** The idempotence tests of the repository *)

Section IdempotenceExamples.

Import Examples.


(** [test_pipeline_idempotence]: trimming, twice. *)
Example trim_test_first_run :
  table_of (run_correction_pipeline plain_env padded_table trim_policy false
              fixed_clock initial) = Some trimmed_table.
Proof. vm_compute. reflexivity. Qed.

Example trim_test_second_run :
  table_of (run_with_audit plain_env Audit.summary trimmed_table trim_policy
              fixed_clock) = Some trimmed_table /\
  footer_total_events
    (lines_of (run_with_audit plain_env Audit.summary trimmed_table trim_policy
                 fixed_clock)) = Some O.
Proof. split; vm_compute; reflexivity. Qed.

End IdempotenceExamples.

Local Close Scope Z_scope.

(* ================================================================== *)
(** * Rows and columns through the phases                               *)
(* ================================================================== *)

(** A column cut down to the rows a mask keeps. *)
Definition restrict (mask : list bool) (s : Series) : Series :=
  {| s_dtype := s_dtype s; s_values := Frame.keep_by mask (s_values s) |}.

(** The mask that keeps, of the rows [m1] keeps, those [m2] keeps. *)
Fixpoint mask_then (m1 m2 : list bool) : list bool :=
  match m1 with
  | [] => []
  | true :: r =>
      match m2 with
      | [] => []
      | b :: m2' => b :: mask_then r m2'
      end
  | false :: r => false :: mask_then r m2
  end.

(** A bound on the length of the index and of every column. *)
Definition frame_size (df : DataFrame) : nat :=
  List.length (df_index df)
  + list_sum (map (fun cs => List.length (s_values (snd cs))) (df_data df)).

(** [out] has the columns of [df] and the rows of [df] that [mask]
    keeps, in their order; the columns that satisfy [guard] hold the
    cells they held. *)
Record selects (guard : string -> Prop) (mask : list bool)
    (df out : DataFrame) : Prop := {
  sel_columns : Frame.columns out = Frame.columns df;
  sel_index : df_index out = Frame.keep_by mask (df_index df);
  sel_column : forall c, guard c ->
      Frame.col out c = option_map (restrict mask) (Frame.col df c)
}.

Lemma keep_by_nil {A : Type} (m : list bool) : Frame.keep_by m (@nil A) = [].
Proof. destruct m; reflexivity. Qed.

Lemma keep_by_keep_by {A : Type} (m1 m2 : list bool) (l : list A) :
  Frame.keep_by m2 (Frame.keep_by m1 l) = Frame.keep_by (mask_then m1 m2) l.
Proof.
  revert m2 l. induction m1 as [|b m1 IH]; intros m2 l.
  - cbn. apply keep_by_nil.
  - destruct l as [|x l].
    + cbn [Frame.keep_by]. rewrite !keep_by_nil. reflexivity.
    + destruct b; cbn.
      * destruct m2 as [|b2 m2]; cbn; [reflexivity|].
        destruct b2; rewrite IH; reflexivity.
      * apply IH.
Qed.

Lemma keep_by_all {A : Type} (n : nat) (l : list A) :
  (List.length l <= n)%nat -> Frame.keep_by (repeat true n) l = l.
Proof.
  revert l. induction n as [|n IH]; intros [|x l] H; cbn in *;
    try reflexivity; try lia.
  f_equal. apply IH. lia.
Qed.

Lemma column_size df c s :
  Frame.col df c = Some s ->
  (List.length (s_values s) <= frame_size df)%nat.
Proof.
  unfold Frame.col, frame_size. intro H. apply dict_get_In in H.
  generalize (List.length (df_index df)). intro n.
  induction (df_data df) as [|cs d IH]; simpl in *; [contradiction|].
  destruct H as [->|H]; simpl; [lia|]. specialize (IH H). lia.
Qed.

Lemma restrict_all df c s :
  Frame.col df c = Some s -> restrict (repeat true (frame_size df)) s = s.
Proof.
  intro H. unfold restrict. rewrite keep_by_all by (eapply column_size; eauto).
  destruct s; reflexivity.
Qed.

(** A phase that keeps every row. *)
Lemma selects_all (guard : string -> Prop) df out :
  Frame.columns out = Frame.columns df ->
  df_index out = df_index df ->
  (forall c, guard c -> Frame.col out c = Frame.col df c) ->
  selects guard (repeat true (frame_size df)) df out.
Proof.
  intros Hc Hi Hg. split.
  - exact Hc.
  - rewrite keep_by_all; [exact Hi | unfold frame_size; lia].
  - intros c Hgc. rewrite (Hg c Hgc).
    destruct (Frame.col df c) as [s|] eqn:E; [|reflexivity].
    cbn. rewrite (restrict_all df c s E). reflexivity.
Qed.

Lemma selects_refl guard df : selects guard (repeat true (frame_size df)) df df.
Proof. apply selects_all; auto. Qed.

Lemma col_select_rows df mask c :
  Frame.col (Frame.select_rows df mask) c
  = option_map (restrict mask) (Frame.col df c).
Proof.
  unfold Frame.col, Frame.select_rows. cbn.
  apply (dict_get_map (restrict mask)).
Qed.

Lemma columns_select_rows df mask :
  Frame.columns (Frame.select_rows df mask) = Frame.columns df.
Proof.
  unfold Frame.columns, Frame.select_rows. cbn. rewrite map_map. reflexivity.
Qed.

Lemma selects_select_rows guard df mask :
  selects guard mask df (Frame.select_rows df mask).
Proof.
  split.
  - apply columns_select_rows.
  - reflexivity.
  - intros c _. apply col_select_rows.
Qed.

Lemma selects_trans (g1 g2 : string -> Prop) m1 m2 a b c :
  selects g1 m1 a b -> selects g2 m2 b c ->
  selects (fun x => g1 x /\ g2 x) (mask_then m1 m2) a c.
Proof.
  intros [A1 A2 A3] [B1 B2 B3]. split.
  - congruence.
  - rewrite B2, A2. apply keep_by_keep_by.
  - intros x [H1 H2]. rewrite (B3 x H2), (A3 x H1).
    destruct (Frame.col a x) as [s|]; [|reflexivity].
    cbn. unfold restrict. cbn. rewrite keep_by_keep_by. reflexivity.
Qed.

Lemma selects_weaken (g g' : string -> Prop) m a b :
  (forall c, g' c -> g c) -> selects g m a b -> selects g' m a b.
Proof. intros H [A1 A2 A3]. split; auto. Qed.

Section Invariants.

Local Open Scope m_scope.

(** A loop keeps an invariant of its accumulator, whatever it logs. *)
Lemma foldM_invariant {A B : Type} (f : B -> A -> M B) (I : B -> Prop)
    (l : list A) :
  (forall acc x st acc' st', In x l -> I acc ->
     f acc x st = Ok (acc', st') -> I acc') ->
  forall acc st out st', I acc -> foldM f l acc st = Ok (out, st') -> I out.
Proof.
  induction l as [|x l IH]; intros Hf acc st out st' Hacc H; cbn [foldM] in H.
  - inversion H; subst. exact Hacc.
  - apply bind_ok in H. destruct H as [acc1 [st1 [H1 H2]]].
    apply (IH (fun a y s a' s' Hy => Hf a y s a' s' (or_intror Hy))
              acc1 st1 out st'); [|exact H2].
    eapply Hf; [left; reflexivity | exact Hacc | exact H1].
Qed.

End Invariants.

(** [cur] has the columns and the row labels of [df0], and the columns
    that [guard] names hold what they held in [df0]. *)
Definition preserves (guard : string -> bool) (df0 cur : DataFrame) : Prop :=
  Frame.columns cur = Frame.columns df0 /\
  df_index cur = df_index df0 /\
  forall c, guard c = true -> Frame.col cur c = Frame.col df0 c.

Lemma preserves_refl guard df : preserves guard df df.
Proof. repeat split. Qed.

Lemma preserves_set_col guard df0 cur c s s0 :
  preserves guard df0 cur ->
  Frame.col cur c = Some s0 ->
  guard c = false ->
  preserves guard df0 (Frame.set_col cur c s).
Proof.
  intros [H1 [H2 H3]] Hc Hg. repeat split.
  - rewrite (columns_set_col _ _ _ _ Hc). exact H1.
  - exact H2.
  - intros c' Hg'. rewrite col_set_col_other; [apply H3; exact Hg'|].
    intro Heq. subst c'. congruence.
Qed.

Lemma preserves_selects guard df out :
  preserves guard df out ->
  selects (fun c => guard c = true) (repeat true (frame_size df)) df out.
Proof. intros [H1 [H2 H3]]. apply selects_all; assumption. Qed.

(** The columns a policy's standardization leaves alone: the protected
    ones, and those that hold no text and have no mapping. *)
Definition std_guard (pol : Policy) (df : DataFrame) (c : string) : bool :=
  mem String.eqb c (protected_columns (roles pol))
  || (negb (mem String.eqb c (map fst (mappings (standardization pol))))
      && match Frame.col df c with
         | Some s => negb (Frame.is_string_like s)
         | None => true
         end).

(** The columns the parser leaves alone: the protected ones and those
    without a declared type. *)
Definition parse_guard (pol : Policy) (c : string) : bool :=
  mem String.eqb c (protected_columns (roles pol))
  || negb (mem String.eqb c (map fst (column_types (parsing pol)))).

(** The columns some validity rule names. *)
Definition validity_columns (rules : ValidityCfg) : list string :=
  (non_negative_columns rules ++ map fst (ranges rules)
   ++ map fst (allowed_values rules) ++ map fst (regex rules))%list.

(** The columns the enforcer leaves alone: all of them unless the
    action is to null, and then those no rule names. *)
Definition validity_guard (pol : Policy) (c : string) : bool :=
  negb (String.eqb (on_violation (validity_rules pol)) "null")
  || negb (mem String.eqb c (validity_columns (validity_rules pol))).

Definition impute_guard (pol : Policy) (c : string) : bool :=
  mem String.eqb c (protected_columns (roles pol)) || String.eqb c "_row_id".

Section PhaseShapes.

Variable env : Env.

Local Open Scope m_scope.

Lemma replace_column_result audit clk row_ids reason section df c old_s new_s
    st df' st' :
  replace_column env audit clk row_ids reason section df c old_s new_s st
    = Ok (df', st') ->
  df' = df \/ df' = Frame.set_col df c new_s.
Proof.
  unfold replace_column. destruct (values_same _ _).
  - intro H. inversion H. auto.
  - intro H. apply bind_ok in H. destruct H as [[] [s1 [_ H]]].
    inversion H. auto.
Qed.

Lemma std_step_preserves pol df0 audit clk row_ids f reason section cur st out st' :
  preserves (std_guard pol df0) df0 cur ->
  std_step env audit clk (protected_columns (roles pol)) row_ids f reason
    section cur st = Ok (out, st') ->
  preserves (std_guard pol df0) df0 out.
Proof.
  intros Hcur H. unfold std_step in H.
  eapply (foldM_invariant _ (preserves (std_guard pol df0) df0));
    [| exact Hcur | exact H].
  clear. intros acc c st acc' st' _ Hacc Hstep. cbv beta in Hstep.
  destruct (Frame.col acc c) as [old_s|] eqn:Hc;
    [|inversion Hstep; subst; exact Hacc].
  destruct (mem String.eqb c (protected_columns (roles pol))
            || negb (Frame.is_string_like old_s)) eqn:Hskip;
    [inversion Hstep; subst; exact Hacc|].
  apply replace_column_result in Hstep. destruct Hstep as [->| ->];
    [exact Hacc|].
  apply orb_false_iff in Hskip. destruct Hskip as [Hp Hs].
  eapply preserves_set_col; [exact Hacc | exact Hc |].
  destruct (std_guard pol df0 c) eqn:Hg; [|reflexivity].
  exfalso. destruct Hacc as [_ [_ Hkeep]]. specialize (Hkeep c Hg).
  unfold std_guard in Hg. rewrite Hp in Hg. cbn in Hg.
  apply andb_true_iff in Hg. destruct Hg as [_ Hg].
  rewrite <- Hkeep, Hc in Hg. rewrite Hg in Hs. discriminate.
Qed.

Lemma mapping_step_preserves pol df0 audit clk row_ids cur cm st out st' :
  In cm (mappings (standardization pol)) ->
  preserves (std_guard pol df0) df0 cur ->
  mapping_step env audit clk (protected_columns (roles pol)) row_ids cur cm st
    = Ok (out, st') ->
  preserves (std_guard pol df0) df0 out.
Proof.
  intros Hin Hcur H. destruct cm as [c mapping]. unfold mapping_step in H.
  destruct (Frame.col cur c) as [old_s|] eqn:Hc;
    [|inversion H; subst; exact Hcur].
  destruct (mem String.eqb c (protected_columns (roles pol))) eqn:Hp;
    [inversion H; subst; exact Hcur|].
  apply replace_column_result in H. destruct H as [->| ->]; [exact Hcur|].
  eapply preserves_set_col; [exact Hcur | exact Hc |].
  unfold std_guard. rewrite Hp. cbn.
  replace (mem String.eqb c (map fst (mappings (standardization pol))))
    with true; [reflexivity|].
  symmetry. apply (mem_In String.eqb String.eqb_eq).
  apply in_map_iff. exists (c, mapping). auto.
Qed.

(** Standardization keeps the shape of the table and the columns of
    [std_guard]. *)
Lemma apply_standardization_preserves df pol audit clock st out st' :
  apply_standardization env df pol audit clock st = Ok (out, st') ->
  preserves (std_guard pol df) df out.
Proof.
  intro H. unfold apply_standardization in H.
  apply bind_ok in H. destruct H as [[] [s0 [_ H]]].
  assert (Step : forall (on : bool) f reason section cur s out1 s1,
    preserves (std_guard pol df) df cur ->
    (if on then std_step env audit (clock_or env clock)
                 (protected_columns (roles pol)) (row_id_at df) f reason
                 section cur
     else ret cur) s = Ok (out1, s1) ->
    preserves (std_guard pol df) df out1).
  { intros on f reason section cur s out1 s1 Hcur Hs. destruct on.
    - eapply std_step_preserves; eassumption.
    - inversion Hs; subst. exact Hcur. }
  apply bind_ok in H. destruct H as [d1 [s1 [H1 H]]].
  apply Step in H1; [|apply preserves_refl].
  apply bind_ok in H. destruct H as [d2 [s2 [H2 H]]].
  apply Step in H2; [|exact H1].
  apply bind_ok in H. destruct H as [d3 [s3 [H3 H]]].
  apply Step in H3; [|exact H2].
  apply bind_ok in H. destruct H as [d4 [s4 [H4 H]]].
  apply Step in H4; [|exact H3].
  eapply (foldM_invariant _ (preserves (std_guard pol df) df));
    [| exact H4 | exact H].
  intros acc cm st1 acc' st1' Hin Hacc Hstep.
  eapply mapping_step_preserves; eassumption.
Qed.

(** *** The parser *)

Lemma parse_column_result audit clk row_ids decide section out_dtype df drops
    column st df' drops' st' :
  parse_column env audit clk row_ids decide section out_dtype (df, drops)
    column st = Ok ((df', drops'), st') ->
  df' = df \/
  exists src new, Frame.col df column = Some src /\
                  df' = Frame.set_col df column new.
Proof.
  unfold parse_column. destruct (Frame.col df column) as [src|].
  - intro H. apply bind_ok in H. destruct H as [r [s1 [_ H]]].
    inversion H. right. eauto.
  - intro H. inversion H. auto.
Qed.

Lemma typed_columns_declared df pol types c :
  In c (typed_columns df pol types) ->
  In c (map fst (column_types (parsing pol))) /\
  mem String.eqb c (protected_columns (roles pol)) = false.
Proof.
  unfold typed_columns. intro H. apply sorted_In in H.
  apply in_map_iff in H. destruct H as [ct [<- H]].
  apply filter_In in H. destruct H as [Hin H].
  apply andb_true_iff in H. destruct H as [_ H].
  split; [apply in_map; exact Hin | apply negb_true_iff; exact H].
Qed.

Lemma parse_fold_preserves pol df0 audit clk row_ids decide section out_dtype
    types :
  forall (st0 : parse_state) s0 st1 s1 cols,
  (forall c, In c cols -> exists df, In c (typed_columns df pol types)) ->
  preserves (parse_guard pol) df0 (fst st0) ->
  foldM (parse_column env audit clk row_ids decide section out_dtype)
        cols st0 s0 = Ok (st1, s1) ->
  preserves (parse_guard pol) df0 (fst st1).
Proof.
  intros st0 s0 st1 s1 cols Hcols Hst H.
  eapply (foldM_invariant _ (fun st => preserves (parse_guard pol) df0 (fst st)));
    [| exact Hst | exact H].
  intros [df drops] c st [df' drops'] st' Hin Hacc Hstep. cbn [fst] in *.
  apply parse_column_result in Hstep.
  destruct Hstep as [->|[src [new [Hc ->]]]]; [exact Hacc|].
  eapply preserves_set_col; [exact Hacc | exact Hc |].
  destruct (Hcols c Hin) as [df1 Hty].
  apply typed_columns_declared in Hty. destruct Hty as [Hd Hp].
  unfold parse_guard. rewrite Hp. cbn.
  apply (mem_In String.eqb String.eqb_eq) in Hd. rewrite Hd. reflexivity.
Qed.

Lemma parse_columns_preserves df pol audit clk st parsed st' :
  parse_columns env df pol audit clk st = Ok (parsed, st') ->
  preserves (parse_guard pol) df (fst parsed).
Proof.
  intro H. unfold parse_columns in H.
  apply bind_ok in H. destruct H as [st1 [s1 [H1 H]]].
  apply parse_fold_preserves with (pol := pol) (df0 := df) (types := boolean_types)
    in H1; [| intros c Hc; eauto | apply preserves_refl].
  apply bind_ok in H. destruct H as [st2 [s2 [H2 H]]].
  apply parse_fold_preserves with (pol := pol) (df0 := df) (types := numeric_types)
    in H2; [| intros c Hc; eauto | exact H1].
  apply parse_fold_preserves with (pol := pol) (df0 := df) (types := datetime_types)
    in H; [exact H | intros c Hc; eauto | exact H2].
Qed.

(** The parser returns the rows it did not mark, with the columns of
    [parse_guard] as they were. *)
Lemma apply_parsing_selects df pol audit clock st out st' :
  apply_parsing env df pol audit clock st = Ok (out, st') ->
  exists mask, selects (fun c => parse_guard pol c = true) mask df out.
Proof.
  intro H. unfold apply_parsing in H.
  apply bind_ok in H. destruct H as [[] [s0 [_ H]]].
  apply bind_ok in H. destruct H as [[parsed drops] [s1 [Hcols Hdrop]]].
  apply parse_columns_preserves in Hcols. cbn [fst] in Hcols.
  apply preserves_selects in Hcols.
  unfold drop_marked_rows in Hdrop. destruct drops as [|d drops].
  - inversion Hdrop; subst. eauto.
  - apply bind_ok in Hdrop. destruct Hdrop as [[] [s2 [_ Hret]]].
    inversion Hret; subst. unfold Frame.drop_labels.
    eexists. eapply selects_weaken;
      [| eapply selects_trans;
         [exact Hcols | apply (selects_select_rows (fun _ => True))]].
    intros c Hc. split; [exact Hc | exact I].
Qed.

(** *** The validity enforcer *)

Lemma handle_violation_result audit clock df rows mask col code message action
    st df' rows' st' :
  handle_violation audit clock (df, rows) mask col code message action st
    = Ok ((df', rows'), st') ->
  (df' = df /\ rows' = rows) \/
  (String.eqb action "drop_row" = true /\ df' = df /\
   rows' = mask_or rows mask) \/
  (String.eqb action "null" = true /\ rows' = rows /\
   exists s, Frame.col df col = Some s /\
             df' = Frame.set_col df col (nullify mask s)).
Proof.
  unfold handle_violation. destruct (count_true mask =? 0)%nat.
  - intro H. inversion H. auto.
  - intro H. apply bind_ok in H. destruct H as [[] [s1 [_ H]]].
    destruct (String.eqb action "drop_row") eqn:Ed.
    + inversion H. right. left. auto.
    + destruct (String.eqb action "null") eqn:En.
      * destruct (Frame.col df col) as [s|] eqn:Hc.
        -- inversion H. right. right. repeat split. eauto.
        -- inversion H. auto.
      * inversion H. auto.
Qed.

Lemma check_rule_result audit clock action numeric_only bad code message
    df rows col st df' rows' st' :
  check_rule audit clock action numeric_only bad code message (df, rows)
    col st = Ok ((df', rows'), st') ->
  (df' = df /\ rows' = rows) \/
  (String.eqb action "drop_row" = true /\ df' = df /\
   exists mask, rows' = mask_or rows mask) \/
  (String.eqb action "null" = true /\ rows' = rows /\
   exists s mask, Frame.col df col = Some s /\
                  df' = Frame.set_col df col (nullify mask s)).
Proof.
  unfold check_rule. cbn [fst].
  destruct (Frame.col df col) as [s|] eqn:Hc; [|intro H; inversion H; auto].
  destruct (numeric_only && negb (Frame.is_numeric_dtype s));
    [intro H; inversion H; auto|].
  destruct (any_true _); [|intro H; inversion H; auto].
  intro H. apply handle_violation_result in H.
  destruct H as [H|[[E [H1 H2]]|[E [H1 [s' [H2 H3]]]]]].
  - left. exact H.
  - right. left. eauto.
  - right. right. split; [exact E|]. split; [exact H1|].
    exists s'. eexists. split; [congruence | exact H3].
Qed.

(** What the rule loops keep true of the enforcer's state. *)
Definition validity_inv (pol : Policy) (df0 : DataFrame) (st : validity_state)
  : Prop :=
  preserves (validity_guard pol) df0 (fst st) /\
  (String.eqb (on_violation (validity_rules pol)) "drop_row" = false ->
   snd st = map (fun _ => false) (df_index df0)) /\
  (String.eqb (on_violation (validity_rules pol)) "null" = false ->
   fst st = df0).

Lemma check_rule_preserves pol df0 audit clock numeric_only bad code message
    st col s0 st' s1 :
  In col (validity_columns (validity_rules pol)) ->
  validity_inv pol df0 st ->
  check_rule audit clock (on_violation (validity_rules pol)) numeric_only
    bad code message st col s0 = Ok (st', s1) ->
  validity_inv pol df0 st'.
Proof.
  intros Hcol Hst H. destruct st as [df rows], st' as [df' rows'].
  apply check_rule_result in H. unfold validity_inv in *. cbn [fst snd] in *.
  destruct Hst as [Hst [Hrows Hsame]].
  destruct H as [[-> ->]|[[E [-> _]]|[E [-> [s [mask [Hc ->]]]]]]].
  - split; [|split]; assumption.
  - split; [exact Hst|]. split; [|exact Hsame]. intro E'. congruence.
  - split; [|split; [exact Hrows | intro E'; congruence]].
    eapply preserves_set_col; [exact Hst | exact Hc |].
    unfold validity_guard. rewrite E. cbn.
    apply (mem_In String.eqb String.eqb_eq) in Hcol. rewrite Hcol. reflexivity.
Qed.

Lemma set_iteration_In l c : In c (set_iteration env l) -> In c l.
Proof.
  unfold set_iteration. intro H. apply sorted_In in H.
  apply (proj2 (dedupe_spec String.eqb String.eqb_eq l)). exact H.
Qed.

Lemma apply_validity_state df pol audit clock st out st' :
  apply_validity env df pol audit clock st = Ok (out, st') ->
  out = df \/
  exists cur rows, preserves (validity_guard pol) df cur /\
    (String.eqb (on_violation (validity_rules pol)) "drop_row" = false ->
     rows = map (fun _ => false) (df_index df)) /\
    (String.eqb (on_violation (validity_rules pol)) "null" = false ->
     cur = df) /\
    out = (if any_true rows then Frame.select_rows cur (map negb rows)
           else cur).
Proof.
  intro H. unfold apply_validity in H.
  destruct (negb (validity_enabled (validity_rules pol)));
    [inversion H; auto|].
  right.
  apply bind_ok in H. destruct H as [st1 [s1 [H1 H]]].
  assert (I1 : validity_inv pol df st1).
  { eapply (foldM_invariant _ (validity_inv pol df)); [| |exact H1].
    - intros acc c s acc' s' Hin Hacc Hstep.
      eapply check_rule_preserves; [|exact Hacc|exact Hstep].
      unfold validity_columns. apply in_or_app. left.
      apply set_iteration_In. exact Hin.
    - split; [apply preserves_refl | split; reflexivity]. }
  apply bind_ok in H. destruct H as [st2 [s2 [H2 H]]].
  assert (I2 : validity_inv pol df st2).
  { eapply (foldM_invariant _ (validity_inv pol df)); [|exact I1|exact H2].
    intros acc [col [mn mx]] s acc' s' Hin Hacc Hstep.
    assert (Hcol : In col (validity_columns (validity_rules pol))).
    { unfold validity_columns. apply in_or_app. right. apply in_or_app. left.
      apply in_map_iff. exists (col, (mn, mx)). auto. }
    unfold check_range in Hstep.
    apply bind_ok in Hstep. destruct Hstep as [mid [sm [Ha Hb]]].
    assert (Im : validity_inv pol df mid).
    { destruct mn as [lo|]; [|inversion Ha; subst; exact Hacc].
      eapply check_rule_preserves; eassumption. }
    destruct mx as [hi|]; [|inversion Hb; subst; exact Im].
    eapply check_rule_preserves; eassumption. }
  apply bind_ok in H. destruct H as [st3 [s3 [H3 H]]].
  assert (I3 : validity_inv pol df st3).
  { eapply (foldM_invariant _ (validity_inv pol df)); [|exact I2|exact H3].
    intros acc rule s acc' s' Hin Hacc Hstep. cbv beta in Hstep.
    eapply check_rule_preserves; [|exact Hacc|exact Hstep].
    unfold validity_columns. apply in_or_app. right. apply in_or_app. right.
    apply in_or_app. left. apply in_map. exact Hin. }
  apply bind_ok in H. destruct H as [[cur rows] [s4 [H4 H]]].
  assert (I4 : validity_inv pol df (cur, rows)).
  { eapply (foldM_invariant _ (validity_inv pol df)); [|exact I3|exact H4].
    intros acc rule s acc' s' Hin Hacc Hstep. cbv beta in Hstep.
    eapply check_rule_preserves; [|exact Hacc|exact Hstep].
    unfold validity_columns. apply in_or_app. right. apply in_or_app. right.
    apply in_or_app. right. apply in_map. exact Hin. }
  exists cur, rows. destruct I4 as [J1 [J2 J3]].
  split; [exact J1|]. split; [exact J2|]. split; [exact J3|].
  destruct (any_true rows).
  - apply bind_ok in H. destruct H as [[] [s5 [_ H]]]. inversion H. reflexivity.
  - inversion H. reflexivity.
Qed.

Lemma apply_validity_selects df pol audit clock st out st' :
  apply_validity env df pol audit clock st = Ok (out, st') ->
  exists mask, selects (fun c => validity_guard pol c = true) mask df out.
Proof.
  intro H. apply apply_validity_state in H.
  destruct H as [->|[cur [rows [Hcur [_ [_ ->]]]]]].
  - eexists. apply selects_refl.
  - apply preserves_selects in Hcur. destruct (any_true rows); [|eauto].
    eexists. eapply selects_weaken;
      [| eapply selects_trans;
         [exact Hcur | apply (selects_select_rows (fun _ => True))]].
    intros c Hc. split; [exact Hc | exact I].
Qed.

(** *** The missing-data handler *)

Lemma drop_critical_missing_result df pol audit clock st out st' :
  drop_critical_missing env df pol audit clock st = Ok (out, st') ->
  out = df \/
  out = Frame.select_rows df
          (map negb (critical_mask df
                       (sorted str_leb (critical_columns (roles pol))))).
Proof.
  intro H. unfold drop_critical_missing in H.
  apply bind_ok in H. destruct H as [[] [s0 [_ H]]].
  destruct (negb _ || negb _); [inversion H; auto|].
  destruct (sorted str_leb (critical_columns (roles pol))) as [|c0 cs];
    [inversion H; auto|].
  destruct (negb (any_true _)); [inversion H; auto|].
  apply bind_ok in H. destruct H as [[] [s1 [_ H]]]. inversion H. auto.
Qed.

Lemma drop_critical_missing_selects df pol audit clock st out st' :
  drop_critical_missing env df pol audit clock st = Ok (out, st') ->
  exists mask, selects (fun _ => True) mask df out.
Proof.
  intro H. apply drop_critical_missing_result in H. destruct H as [->| ->].
  - eexists. apply selects_refl.
  - eexists. apply selects_select_rows.
Qed.

Lemma impute_guard_untouched pol c :
  impute_guard pol c = true -> untouched pol c.
Proof.
  unfold impute_guard, untouched. intro H. apply orb_true_iff in H.
  destruct H as [H|H].
  - left. apply (mem_In String.eqb String.eqb_eq). exact H.
  - right. apply String.eqb_eq. exact H.
Qed.

Lemma apply_imputation_preserves df pol audit clock st out st' :
  apply_imputation env df pol audit clock st = Ok (out, st') ->
  preserves (impute_guard pol) df out.
Proof.
  intro H.
  destruct (apply_imputation_frame env df pol audit clock "_row_id"
              (or_intror eq_refl) _ _ _ H) as [[_ [Hc Hi]] _].
  repeat split; [exact Hc | exact Hi |].
  intros c Hg.
  destruct (apply_imputation_frame env df pol audit clock c
              (impute_guard_untouched pol c Hg) _ _ _ H) as [[Hcol _] _].
  exact Hcol.
Qed.

(** *** Phases that keep every row *)

Lemma any_true_none {A : Type} (l : list A) :
  any_true (map (fun _ => false) l) = false.
Proof. induction l; cbn; auto. Qed.

Lemma apply_validity_keeps_rows df pol audit clock st out st' :
  on_violation (validity_rules pol) <> "drop_row" ->
  apply_validity env df pol audit clock st = Ok (out, st') ->
  preserves (validity_guard pol) df out /\
  (on_violation (validity_rules pol) <> "null" -> out = df).
Proof.
  intros Hne H. apply String.eqb_neq in Hne.
  apply apply_validity_state in H.
  destruct H as [->|[cur [rows [Hcur [Hrows [Hsame ->]]]]]].
  - split; [apply preserves_refl | reflexivity].
  - rewrite (Hrows Hne), any_true_none. split; [exact Hcur|].
    intro Hn. apply Hsame. apply String.eqb_neq. exact Hn.
Qed.

(** An outcome that does not mark its row. *)
Definition keeps_row (o : outcome) : Prop :=
  match o with
  | Failed _ _ drop => drop = false
  | _ => True
  end.

Lemma on_failure_keeps_row mode val keep reason :
  mode <> "drop_row" -> keeps_row (on_failure mode val keep reason).
Proof.
  intro H. apply String.eqb_neq in H. unfold on_failure. rewrite H.
  destruct (String.eqb mode "null"); [reflexivity|].
  destruct (String.eqb mode "keep_raw"); reflexivity.
Qed.

Lemma parse_boolean_cell_keeps_row cfg val :
  bool_on_failure cfg <> "drop_row" ->
  keeps_row (parse_boolean_cell env cfg val).
Proof.
  intro H. unfold parse_boolean_cell.
  destruct (is_effectively_missing val); [exact I|].
  destruct (Text.str_in _ _); [exact I|].
  destruct (Text.str_in _ _); [exact I|].
  apply on_failure_keeps_row. exact H.
Qed.

Lemma parse_numeric_cell_keeps_row cfg val :
  num_on_failure cfg <> "drop_row" ->
  keeps_row (parse_numeric_cell env cfg val).
Proof.
  intro H. unfold parse_numeric_cell.
  destruct (is_effectively_missing val); [exact I|].
  destruct val; try exact I; try (apply on_failure_keeps_row; exact H);
    destruct (numeric_text env cfg _) as [raw_num is_pct];
    destruct (PyFloat.py_float raw_num) as [[ | | ]|];
    try exact I; apply on_failure_keeps_row; exact H.
Qed.

Lemma parse_datetime_cell_keeps_row cfg val :
  dt_on_failure cfg <> "drop_row" ->
  keeps_row (parse_datetime_cell env cfg val).
Proof.
  intro H. unfold parse_datetime_cell.
  destruct (is_effectively_missing val); [exact I|].
  destruct (match try_formats env _ _ _ _ with Some t => Some t | None => _ end)
    as [[t|t]|].
  - exact I.
  - destruct (String.eqb (dt_on_failure cfg) "keep_raw"); [exact I | reflexivity].
  - apply on_failure_keeps_row. exact H.
Qed.

Lemma parse_column_keeps_rows audit clk row_ids decide section out_dtype
    (st : parse_state) column s st1 s1 :
  (forall v, keeps_row (decide v)) ->
  snd st = [] ->
  parse_column env audit clk row_ids decide section out_dtype st column s
    = Ok (st1, s1) ->
  snd st1 = [].
Proof.
  intros Hdec Hst H. destruct st as [df drops]. cbn in Hst. subst drops.
  unfold parse_column in H. destruct (Frame.col df column) as [src|];
    [|inversion H; reflexivity].
  apply bind_ok in H. destruct H as [r [s2 [Hfold H]]].
  inversion H; subst. cbn [snd].
  eapply (foldM_invariant _ (fun acc : list (Z * value) * list Z => snd acc = []));
    [| |exact Hfold]; [|reflexivity].
  intros [outs drops] [idx val] s3 acc' s4 _ Hacc Hstep. cbn in Hacc. subst drops.
  unfold parse_cell_step in Hstep. specialize (Hdec val).
  destruct (decide val) as [v|v|stored reason drop].
  - inversion Hstep. reflexivity.
  - inversion Hstep. reflexivity.
  - cbn in Hdec. subst drop.
    apply bind_ok in Hstep. destruct Hstep as [[] [s5 [_ Hret]]].
    inversion Hret. reflexivity.
Qed.

Lemma apply_parsing_keeps_rows df pol audit clock st out st' :
  bool_on_failure (parsing_boolean (parsing pol)) <> "drop_row" ->
  num_on_failure (parsing_numeric (parsing pol)) <> "drop_row" ->
  dt_on_failure (parsing_datetime (parsing pol)) <> "drop_row" ->
  apply_parsing env df pol audit clock st = Ok (out, st') ->
  preserves (parse_guard pol) df out.
Proof.
  intros Hb Hn Hd H. unfold apply_parsing in H.
  apply bind_ok in H. destruct H as [[] [s0 [_ H]]].
  apply bind_ok in H. destruct H as [[parsed drops] [s1 [Hcols Hdrop]]].
  pose proof (parse_columns_preserves _ _ _ _ _ _ _ Hcols) as Hshape.
  cbn [fst] in Hshape.
  assert (Hdrops : drops = []).
  { unfold parse_columns in Hcols.
    apply bind_ok in Hcols. destruct Hcols as [st1 [t1 [H1 Hcols]]].
    apply bind_ok in Hcols. destruct Hcols as [st2 [t2 [H2 H3]]].
    assert (E1 : snd st1 = []).
    { eapply (foldM_invariant _ (fun st : parse_state => snd st = []));
        [| |exact H1]; [|reflexivity].
      intros acc c s acc' s' _ Hacc Hstep.
      eapply parse_column_keeps_rows; [|exact Hacc|exact Hstep].
      intro v. apply parse_boolean_cell_keeps_row. exact Hb. }
    assert (E2 : snd st2 = []).
    { eapply (foldM_invariant _ (fun st : parse_state => snd st = []));
        [|exact E1|exact H2].
      intros acc c s acc' s' _ Hacc Hstep.
      eapply parse_column_keeps_rows; [|exact Hacc|exact Hstep].
      intro v. apply parse_numeric_cell_keeps_row. exact Hn. }
    change drops with (snd (parsed, drops)).
    eapply (foldM_invariant _ (fun st : parse_state => snd st = []));
      [|exact E2|exact H3].
    intros acc c s acc' s' _ Hacc Hstep.
    eapply parse_column_keeps_rows; [|exact Hacc|exact Hstep].
    intro v. apply parse_datetime_cell_keeps_row. exact Hd. }
  subst drops. inversion Hdrop; subst. exact Hshape.
Qed.

Lemma drop_critical_missing_off df pol audit clock st out st' :
  missing_enabled (missing_data pol) = false \/
  drop_if_missing_critical (missing_data pol) = false \/
  critical_columns (roles pol) = [] ->
  drop_critical_missing env df pol audit clock st = Ok (out, st') ->
  out = df.
Proof.
  intros Hoff H. unfold drop_critical_missing in H.
  apply bind_ok in H. destruct H as [[] [s0 [_ H]]].
  destruct Hoff as [E|[E|E]]; rewrite E in H; cbn in H.
  - inversion H. reflexivity.
  - rewrite orb_true_r in H. inversion H. reflexivity.
  - destruct (negb _ || negb _); inversion H; reflexivity.
Qed.

(** *** The five phases together *)

Definition pipeline_guard (pol : Policy) (df : DataFrame) (c : string) : bool :=
  std_guard pol df c && parse_guard pol c && validity_guard pol c
  && impute_guard pol c.

Lemma run_correction_pipeline_selects df pol audit clock st out st' :
  run_correction_pipeline env df pol audit clock st = Ok (out, st') ->
  exists mask, selects (fun c => pipeline_guard pol df c = true) mask df out.
Proof.
  intro H. unfold run_correction_pipeline in H.
  apply bind_ok in H. destruct H as [d1 [s1 [H1 H]]].
  apply bind_ok in H. destruct H as [d2 [s2 [H2 H]]].
  apply bind_ok in H. destruct H as [d3 [s3 [H3 H]]].
  apply bind_ok in H. destruct H as [d4 [s4 [H4 H5]]].
  apply apply_standardization_preserves, preserves_selects in H1.
  apply apply_parsing_selects in H2. destruct H2 as [m2 H2].
  apply apply_validity_selects in H3. destruct H3 as [m3 H3].
  apply drop_critical_missing_selects in H4. destruct H4 as [m4 H4].
  apply apply_imputation_preserves, preserves_selects in H5.
  pose proof (selects_trans _ _ _ _ _ _ _
                (selects_trans _ _ _ _ _ _ _
                   (selects_trans _ _ _ _ _ _ _
                      (selects_trans _ _ _ _ _ _ _ H1 H2) H3) H4) H5) as Hall.
  eexists. eapply selects_weaken; [|exact Hall].
  intros c Hc. unfold pipeline_guard in Hc.
  apply andb_true_iff in Hc. destruct Hc as [Hc G4].
  apply andb_true_iff in Hc. destruct Hc as [Hc G3].
  apply andb_true_iff in Hc. destruct Hc as [G1 G2].
  cbv beta. auto.
Qed.

End PhaseShapes.

Section ShapeTheorems.

Variable env : Env.

(** The pipeline returns the columns it was given, in their order, and a
    selection of the rows it was given, in their order: no phase adds,
    renames or reorders a column or a row. *)
Theorem pipeline_keeps_columns_and_row_order df pol audit clock st out st' :
  run_correction_pipeline env df pol audit clock st = Ok (out, st') ->
  Frame.columns out = Frame.columns df /\
  exists mask, df_index out = Frame.keep_by mask (df_index df).
Proof.
  intro H. apply run_correction_pipeline_selects in H.
  destruct H as [mask [H1 H2 _]]. split; [exact H1 | eauto].
Qed.

(** A protected column that the validity rules cannot null (the action
    is not to null, or no rule names the column) leaves the pipeline as
    it entered it, cut down to the rows that survive. *)
Theorem pipeline_keeps_protected_column df pol audit clock st out st' c :
  run_correction_pipeline env df pol audit clock st = Ok (out, st') ->
  In c (protected_columns (roles pol)) ->
  on_violation (validity_rules pol) <> "null" \/
  ~ In c (validity_columns (validity_rules pol)) ->
  exists mask,
    df_index out = Frame.keep_by mask (df_index df) /\
    Frame.col out c = option_map (restrict mask) (Frame.col df c).
Proof.
  intros H Hp Hv. apply run_correction_pipeline_selects in H.
  destruct H as [mask [_ H2 H3]]. exists mask. split; [exact H2|].
  apply H3. unfold pipeline_guard, std_guard, parse_guard, validity_guard,
    impute_guard.
  apply (mem_In String.eqb String.eqb_eq) in Hp. rewrite Hp. cbn.
  rewrite andb_true_r. destruct Hv as [Hv|Hv].
  - apply String.eqb_neq in Hv. rewrite Hv. reflexivity.
  - apply orb_true_iff. right. apply negb_true_iff.
    destruct (mem String.eqb c (validity_columns (validity_rules pol))) eqn:E;
      [|reflexivity].
    apply (mem_In String.eqb String.eqb_eq) in E. contradiction.
Qed.

(** Rows leave the table only on request: when no parser is set to
    drop rows, the validity action is not to drop rows, and the drop of
    rows with a missing critical value is off (or there is no critical
    column), the pipeline returns every row it was given. *)
Theorem pipeline_drops_rows_only_on_request df pol audit clock st out st' :
  bool_on_failure (parsing_boolean (parsing pol)) <> "drop_row" ->
  num_on_failure (parsing_numeric (parsing pol)) <> "drop_row" ->
  dt_on_failure (parsing_datetime (parsing pol)) <> "drop_row" ->
  on_violation (validity_rules pol) <> "drop_row" ->
  missing_enabled (missing_data pol) = false \/
  drop_if_missing_critical (missing_data pol) = false \/
  critical_columns (roles pol) = [] ->
  run_correction_pipeline env df pol audit clock st = Ok (out, st') ->
  df_index out = df_index df /\ Frame.columns out = Frame.columns df.
Proof.
  intros Hb Hn Hd Hv Hm H. unfold run_correction_pipeline in H.
  apply bind_ok in H. destruct H as [d1 [s1 [H1 H]]].
  apply bind_ok in H. destruct H as [d2 [s2 [H2 H]]].
  apply bind_ok in H. destruct H as [d3 [s3 [H3 H]]].
  apply bind_ok in H. destruct H as [d4 [s4 [H4 H5]]].
  apply apply_standardization_preserves in H1. destruct H1 as [A1 [A2 _]].
  apply apply_parsing_keeps_rows in H2; try assumption.
  destruct H2 as [B1 [B2 _]].
  apply apply_validity_keeps_rows in H3; [|exact Hv].
  destruct H3 as [[C1 [C2 _]] _].
  apply drop_critical_missing_off in H4; [|exact Hm]. subst d4.
  apply apply_imputation_preserves in H5. destruct H5 as [E1 [E2 _]].
  split; congruence.
Qed.

(** A validity action that neither nulls nor drops only reports: the
    enforcer returns the table it was given. *)
Theorem validity_flag_leaves_table_unchanged df pol audit clock st out st' :
  on_violation (validity_rules pol) <> "null" ->
  on_violation (validity_rules pol) <> "drop_row" ->
  apply_validity env df pol audit clock st = Ok (out, st') ->
  out = df.
Proof.
  intros Hn Hd H. apply apply_validity_keeps_rows in H; [|exact Hd].
  destruct H as [_ H]. apply H. exact Hn.
Qed.

End ShapeTheorems.

(* ================================================================== *)
(** * What the missing-data handler guarantees                          *)
(* ================================================================== *)

(** Every column has one cell per row. *)
Definition aligned (df : DataFrame) : Prop :=
  Forall (fun cs => List.length (s_values (snd cs)) = List.length (df_index df))
         (df_data df).

(** [mask] is set wherever [flags] is. *)
Definition covers (mask flags : list bool) : Prop :=
  Forall2 (fun m f => f = true -> m = true) mask flags.

Lemma covers_none (n : nat) (flags : list bool) :
  List.length flags = n -> any_true flags = false ->
  covers (repeat false n) flags.
Proof.
  revert n. induction flags as [|f flags IH]; intros [|n] Hlen Hany;
    cbn in *; try discriminate; constructor.
  - apply orb_false_iff in Hany. destruct Hany as [-> _]. discriminate.
  - apply IH; [lia|]. apply orb_false_iff in Hany. tauto.
Qed.

Lemma mask_or_length a b : List.length (mask_or a b) = List.length a.
Proof.
  revert b. induction a as [|x a IH]; intros [|y b]; cbn; auto.
Qed.

Lemma covers_mask_or_l mask b flags :
  covers mask flags -> covers (mask_or mask b) flags.
Proof.
  intro H. revert b. induction H as [|m f mask flags Hmf Hrest IH]; intros b.
  - destruct b; constructor.
  - destruct b as [|y b]; cbn.
    + constructor; assumption.
    + constructor; [|apply IH].
      intro Hf. rewrite (Hmf Hf). reflexivity.
Qed.

Lemma covers_mask_or_r mask b :
  List.length b = List.length mask -> covers (mask_or mask b) b.
Proof.
  revert b. induction mask as [|m mask IH]; intros [|y b] H; cbn in *;
    try discriminate; constructor.
  - intro Hy. subst y. apply orb_true_r.
  - apply IH. lia.
Qed.

Lemma keep_by_uncovered (miss : value -> bool) mask values :
  covers mask (map miss values) ->
  Forall (fun v => miss v = false) (Frame.keep_by (map negb mask) values).
Proof.
  revert mask. induction values as [|v values IH]; intros mask H.
  - rewrite keep_by_nil. constructor.
  - inversion H as [|m f mask' flags' Hmf Hrest]; subst. cbn.
    destruct m; cbn; [apply IH; exact Hrest|].
    constructor; [|apply IH; exact Hrest].
    destruct (miss v); [|reflexivity]. discriminate (Hmf eq_refl).
Qed.

Lemma all_false_repeat {A : Type} (l : list A) :
  map (fun _ => false) l = repeat false (List.length l).
Proof. induction l; cbn; [reflexivity | f_equal; assumption]. Qed.

Lemma col_aligned df c s :
  aligned df -> Frame.col df c = Some s ->
  List.length (s_values s) = List.length (df_index df).
Proof.
  unfold aligned, Frame.col. intros Ha Hc. apply dict_get_In in Hc.
  rewrite Forall_forall in Ha. apply (Ha _ Hc).
Qed.

(** The mask of [drop_critical_missing] is set at every row where a
    critical column present in the table has an effectively missing
    cell. *)
Lemma critical_mask_covers df cols c s :
  aligned df -> In c cols -> Frame.col df c = Some s ->
  covers (critical_mask df cols) (map is_effectively_missing (s_values s)).
Proof.
  intros Ha Hin Hc. unfold critical_mask. rewrite all_false_repeat.
  set (n := List.length (df_index df)).
  assert (G : forall cols mask,
    List.length mask = n ->
    covers mask (map is_effectively_missing (s_values s)) \/ In c cols ->
    covers (fold_left (fun mask col =>
               match Frame.col df col with
               | Some s0 => mask_or mask (map is_effectively_missing (s_values s0))
               | None => mask
               end) cols mask)
           (map is_effectively_missing (s_values s))).
  { clear Hin cols. induction cols as [|c0 cols IH]; intros mask Hlen H; cbn.
    - destruct H as [H|[]]. exact H.
    - apply IH.
      + destruct (Frame.col df c0); [rewrite mask_or_length|]; exact Hlen.
      + destruct H as [H|[->|H]].
        * left. destruct (Frame.col df c0); [apply covers_mask_or_l|]; exact H.
        * left. rewrite Hc. apply covers_mask_or_r.
          rewrite length_map, Hlen. apply (col_aligned df c s Ha Hc).
        * right. exact H. }
  apply G; [apply repeat_length | right; exact Hin].
Qed.

Section MissingFacts.

Variable env : Env.

Local Open Scope m_scope.

(** After the drop of rows with a missing critical value, no critical
    column of the table holds an effectively missing cell. *)
Theorem drop_critical_missing_leaves_no_gap df pol audit clock st out st' c s :
  aligned df ->
  missing_enabled (missing_data pol) = true ->
  drop_if_missing_critical (missing_data pol) = true ->
  In c (critical_columns (roles pol)) ->
  Frame.col df c = Some s ->
  drop_critical_missing env df pol audit clock st = Ok (out, st') ->
  exists s', Frame.col out c = Some s' /\
             Forall (fun v => is_effectively_missing v = false) (s_values s').
Proof.
  intros Ha He Hd Hc Hs H. unfold drop_critical_missing in H.
  apply bind_ok in H. destruct H as [[] [s0 [_ H]]].
  rewrite He, Hd in H. cbn [negb orb] in H.
  assert (Hin : In c (sorted str_leb (critical_columns (roles pol))))
    by (apply sorted_In; exact Hc).
  pose proof (critical_mask_covers df _ c s Ha Hin Hs) as Hcov.
  destruct (sorted str_leb (critical_columns (roles pol))) as [|c0 cols] eqn:Es;
    [destruct Hin|].
  destruct (any_true (critical_mask df (c0 :: cols))) eqn:Hany;
    cbn [negb] in H.
  - apply bind_ok in H. destruct H as [[] [s1 [_ H]]]. inversion H; subst.
    rewrite col_select_rows, Hs. cbn. eexists. split; [reflexivity|].
    cbn. apply keep_by_uncovered. exact Hcov.
  - inversion H; subst. exists s. split; [exact Hs|].
    apply Forall_forall. intros v Hv.
    destruct (is_effectively_missing v) eqn:Ev; [|reflexivity].
    exfalso.
    assert (Hflag : In true (map is_effectively_missing (s_values s))).
    { apply in_map_iff. exists v. auto. }
    clear - Hcov Hany Hflag.
    induction Hcov as [|m f mask flags Hmf _ IH]; [destruct Hflag|].
    cbn in Hany. apply orb_false_iff in Hany. destruct Hany as [Hm Hrest].
    destruct Hflag as [->|Hflag]; [rewrite (Hmf eq_refl) in Hm; discriminate|].
    apply IH; assumption.
Qed.

(** *** Imputation fills gaps only *)

(** Cell by cell, [after] holds what [before] held wherever [before]
    held a value. *)
Definition fills_only (before after : list value) : Prop :=
  Forall2 (fun x y => is_effectively_missing x = false -> y = x) before after.

Lemma fills_only_refl l : fills_only l l.
Proof. induction l; constructor; auto. Qed.

Lemma fills_only_fill before s fill_val :
  fills_only before (s_values s) ->
  fills_only before (s_values (fill_missing s fill_val)).
Proof.
  unfold fill_missing. destruct (store_as (s_dtype s) fill_val) as [d v].
  cbn [s_values]. intro H. induction H as [|x y l l' Hxy _ IH]; cbn;
    constructor; [|exact IH].
  intro Hx. rewrite (Hxy Hx), Hx. reflexivity.
Qed.

(** What the imputation loops keep true of the table. *)
Definition filled_from (df cur : DataFrame) : Prop :=
  forall c s, Frame.col df c = Some s ->
    exists s', Frame.col cur c = Some s' /\
               fills_only (s_values s) (s_values s').

Lemma filled_from_refl df : filled_from df df.
Proof. intros c s H. exists s. split; [exact H | apply fills_only_refl]. Qed.

Lemma impute_column_result audit clk row_ids bucket cfg df col st df' st' :
  impute_column env audit clk row_ids bucket cfg df col st = Ok (df', st') ->
  df' = df \/
  exists s fill_val, Frame.col df col = Some s /\
                     df' = Frame.set_col df col (fill_missing s fill_val).
Proof.
  unfold impute_column. destruct (Frame.col df col) as [s|];
    [|intro H; inversion H; auto].
  destruct (negb (any_true _)); [intro H; inversion H; auto|].
  destruct (Qltb _ _).
  - intro H. apply bind_ok in H. destruct H as [[] [s1 [_ H]]].
    inversion H. auto.
  - destruct (choose_fill bucket cfg col s) as [[strategy fill_val]|];
      [|intro H; inversion H; auto].
    destruct (isna fill_val); [intro H; inversion H; auto|].
    intro H. apply bind_ok in H. destruct H as [ts [s1 [_ H]]].
    apply bind_ok in H. destruct H as [[] [s2 [_ H]]].
    inversion H. right. eauto.
Qed.

Lemma impute_column_fills audit clk row_ids bucket cfg df0 df col st df' st' :
  filled_from df0 df ->
  impute_column env audit clk row_ids bucket cfg df col st = Ok (df', st') ->
  filled_from df0 df'.
Proof.
  intros Hdf H. apply impute_column_result in H.
  destruct H as [->|[s [fill_val [Hs ->]]]]; [exact Hdf|].
  intros c s0 Hc. destruct (Hdf c s0 Hc) as [s1 [Hs1 Hf]].
  destruct (String.eqb_spec c col) as [->|Hne].
  - rewrite col_set_col_same. eexists. split; [reflexivity|].
    apply fills_only_fill. congruence.
  - rewrite (col_set_col_other _ _ _ _ Hne). eauto.
Qed.

(** Imputation never overwrites a value: in every column, a cell that
    was not effectively missing holds afterwards what it held before. *)
Theorem imputation_fills_gaps_only df pol audit clock st out st' c s :
  apply_imputation env df pol audit clock st = Ok (out, st') ->
  Frame.col df c = Some s ->
  exists s', Frame.col out c = Some s' /\
             fills_only (s_values s) (s_values s').
Proof.
  intros H Hc. revert c s Hc. change (filled_from df out).
  unfold apply_imputation in H.
  apply bind_ok in H. destruct H as [[] [s0 [_ H]]].
  destruct (negb (missing_enabled (missing_data pol)));
    [inversion H; subst; apply filled_from_refl|].
  eapply (foldM_invariant _ (filled_from df)); [|apply filled_from_refl|exact H].
  intros acc [bucket cfg] s1 acc' s1' _ Hacc Hstep.
  unfold impute_bucket in Hstep.
  destruct (_ && _); [inversion Hstep; subst; exact Hacc|].
  eapply (foldM_invariant _ (filled_from df)); [|exact Hacc|exact Hstep].
  intros acc2 col s2 acc2' s2' _ Hacc2 Hstep2.
  eapply impute_column_fills; eassumption.
Qed.

End MissingFacts.

(* ================================================================== *)
(** * What nulling violations guarantees                                *)
(* ================================================================== *)

(** A column of floats or of integers. *)
Definition numeric_storage (s : Series) : Prop :=
  s_dtype s = DFloat \/ s_dtype s = DInt.

(** A property of cells that nulling a cell establishes and that the
    upcast of an integer to a float keeps. *)
Definition null_stable (ok : value -> bool) : Prop :=
  ok VNull = true /\
  forall z, ok (VInt z) = true -> ok (VNum (inject_Z z)) = true.

(** The cell satisfies a range rule. *)
Definition within (mn mx : option Q) (v : value) : bool :=
  negb (match mn with Some lo => lt_num lo v | None => false end)
  && negb (match mx with Some hi => gt_num hi v | None => false end).

Lemma numeric_storage_dtype s :
  numeric_storage s -> Frame.is_numeric_dtype s = true.
Proof. unfold Frame.is_numeric_dtype. intros [-> | ->]; reflexivity. Qed.

Lemma nullify_storage mask s :
  numeric_storage s -> numeric_storage (nullify mask s).
Proof. unfold nullify. intros [E|E]; rewrite E; cbn; left; reflexivity. Qed.

Lemma nullify_keeps ok mask s :
  null_stable ok -> numeric_storage s ->
  Forall (fun v => ok v = true) (s_values s) ->
  Forall (fun v => ok v = true) (s_values (nullify mask s)).
Proof.
  intros [Hnull Hup] Hs Hall. rewrite Forall_forall in Hall.
  apply Forall_forall. intros v Hv. unfold nullify in Hv.
  destruct Hs as [E|E]; rewrite E in Hv; cbn in Hv;
    apply in_map_iff in Hv; destruct Hv as [[b x] [<- Hin]];
    apply in_combine_r in Hin; cbn; destruct b; try exact Hnull;
    try (apply Hall; exact Hin).
  destruct x; try (apply Hall; exact Hin). apply Hup, Hall. exact Hin.
Qed.

Lemma combine_map_pair (bad : value -> bool) l b x :
  In (b, x) (combine (map bad l) l) -> b = bad x.
Proof.
  induction l as [|y l IH]; cbn; [contradiction|].
  intros [H|H]; [inversion H; reflexivity | apply IH; exact H].
Qed.

Lemma nullify_enforces (bad : value -> bool) s :
  bad VNull = false ->
  (forall z, bad (VNum (inject_Z z)) = bad (VInt z)) ->
  numeric_storage s ->
  Forall (fun v => bad v = false)
         (s_values (nullify (map bad (s_values s)) s)).
Proof.
  intros Hnull Hup Hs. apply Forall_forall. intros v Hv. unfold nullify in Hv.
  destruct Hs as [E|E]; rewrite E in Hv; cbn in Hv;
    apply in_map_iff in Hv; destruct Hv as [[b x] [<- Hin]];
    apply combine_map_pair in Hin; cbn; destruct b; try exact Hnull;
    try (symmetry; exact Hin).
  destruct x; try (symmetry; exact Hin). rewrite Hup. symmetry. exact Hin.
Qed.

Lemma lt_num_upcast lo z : lt_num lo (VNum (inject_Z z)) = lt_num lo (VInt z).
Proof. reflexivity. Qed.

Lemma gt_num_upcast hi z : gt_num hi (VNum (inject_Z z)) = gt_num hi (VInt z).
Proof. reflexivity. Qed.

Lemma any_true_count mask :
  any_true mask = true -> (count_true mask =? 0)%nat = false.
Proof.
  unfold any_true, count_true. induction mask as [|b m IH]; [discriminate|].
  cbn. destruct b; [reflexivity | exact IH].
Qed.

Lemma any_true_false_all (bad : value -> bool) l :
  any_true (map bad l) = false -> Forall (fun v => bad v = false) l.
Proof.
  unfold any_true. induction l as [|v l IH]; cbn; [constructor|].
  intro H. apply orb_false_iff in H. destruct H. constructor; auto.
Qed.

Section NullMode.

Variable env : Env.

Local Open Scope m_scope.

(** What one rule does to the table when the action is to null. *)
Lemma check_rule_null audit clock numeric_only bad code message df rows col
    st df' rows' st' :
  check_rule audit clock "null" numeric_only bad code message (df, rows)
    col st = Ok ((df', rows'), st') ->
  rows' = rows /\
  match Frame.col df col with
  | None => df' = df
  | Some s =>
      if numeric_only && negb (Frame.is_numeric_dtype s) then df' = df
      else if any_true (map bad (s_values s))
      then df' = Frame.set_col df col (nullify (map bad (s_values s)) s)
      else df' = df
  end.
Proof.
  unfold check_rule. cbn [fst].
  destruct (Frame.col df col) as [s|] eqn:Hc; [|intro H; inversion H; auto].
  destruct (numeric_only && negb (Frame.is_numeric_dtype s));
    [intro H; inversion H; auto|].
  destruct (any_true (map bad (s_values s))) eqn:Hany;
    [|intro H; inversion H; auto].
  unfold handle_violation. rewrite (any_true_count _ Hany).
  intro H. apply bind_ok in H. destruct H as [[] [s1 [_ H]]].
  cbn in H. rewrite Hc in H. inversion H. auto.
Qed.

(** The state of column [c]: a float or integer column whose cells all
    satisfy [ok]. *)
Definition column_ok (c : string) (ok : value -> bool) (st : validity_state)
  : Prop :=
  exists s, Frame.col (fst st) c = Some s /\ numeric_storage s /\
            Forall (fun v => ok v = true) (s_values s).

Lemma check_rule_keeps c ok audit clock numeric_only bad code message st col
    s0 st' s1 :
  null_stable ok -> column_ok c ok st ->
  check_rule audit clock "null" numeric_only bad code message st col s0
    = Ok (st', s1) ->
  column_ok c ok st'.
Proof.
  intros Hok [s [Hs [Hn Hall]]] H. destruct st as [df rows], st' as [df' rows'].
  apply check_rule_null in H. destruct H as [_ H]. cbn [fst] in *.
  unfold column_ok. cbn [fst].
  destruct (String.eqb_spec col c) as [->|Hne].
  - rewrite Hs in H.
    destruct (numeric_only && negb (Frame.is_numeric_dtype s));
      [subst; eauto|].
    destruct (any_true _); [|subst; eauto]. subst df'.
    rewrite col_set_col_same. eexists. split; [reflexivity|].
    split; [apply nullify_storage; exact Hn|].
    apply nullify_keeps; assumption.
  - assert (Hcol : Frame.col df' c = Frame.col df c).
    { destruct (Frame.col df col) as [s2|]; [|subst; reflexivity].
      destruct (numeric_only && negb (Frame.is_numeric_dtype s2));
        [subst; reflexivity|].
      destruct (any_true _); [|subst; reflexivity]. subst df'.
      apply col_set_col_other. congruence. }
    rewrite Hcol. eauto.
Qed.

(** A numeric rule on [c] leaves no violating cell in [c]. *)
Lemma check_rule_enforces c ok audit clock bad code message st s0 st' s1 :
  null_stable ok -> column_ok c ok st ->
  bad VNull = false ->
  (forall z, bad (VNum (inject_Z z)) = bad (VInt z)) ->
  check_rule audit clock "null" true bad code message st c s0 = Ok (st', s1) ->
  column_ok c (fun v => ok v && negb (bad v)) st'.
Proof.
  intros Hok [s [Hs [Hn Hall]]] Hnull Hup H.
  destruct st as [df rows], st' as [df' rows'].
  apply check_rule_null in H. destruct H as [_ H]. cbn [fst] in *.
  rewrite Hs in H. rewrite (numeric_storage_dtype s Hn) in H. cbn in H.
  unfold column_ok. cbn [fst].
  destruct (any_true (map bad (s_values s))) eqn:Hany; subst df'.
  - rewrite col_set_col_same. eexists. split; [reflexivity|].
    split; [apply nullify_storage; exact Hn|].
    pose proof (nullify_keeps ok (map bad (s_values s)) s Hok Hn Hall) as K1.
    pose proof (nullify_enforces bad s Hnull Hup Hn) as K2.
    rewrite Forall_forall in *. intros v Hv.
    rewrite (K1 v Hv), (K2 v Hv). reflexivity.
  - exists s. split; [exact Hs|]. split; [exact Hn|].
    pose proof (any_true_false_all bad _ Hany) as K2.
    rewrite Forall_forall in *. intros v Hv.
    rewrite (Hall v Hv), (K2 v Hv). reflexivity.
Qed.

Lemma column_ok_weaken c (ok ok' : value -> bool) st :
  (forall v, ok v = true -> ok' v = true) ->
  column_ok c ok st -> column_ok c ok' st.
Proof.
  intros H [s [Hs [Hn Hall]]]. exists s. split; [exact Hs|].
  split; [exact Hn|]. eapply Forall_impl; [|exact Hall]. exact H.
Qed.

Lemma check_range_keeps c ok audit st rule s0 st' s1 :
  null_stable ok -> column_ok c ok st ->
  check_range env audit "null" st rule s0 = Ok (st', s1) ->
  column_ok c ok st'.
Proof.
  intros Hok Hst H. destruct rule as [col [mn mx]]. unfold check_range in H.
  apply bind_ok in H. destruct H as [mid [sm [Ha Hb]]].
  assert (Hmid : column_ok c ok mid).
  { destruct mn as [lo|]; [|inversion Ha; subst; exact Hst].
    eapply check_rule_keeps; eassumption. }
  destruct mx as [hi|]; [|inversion Hb; subst; exact Hmid].
  eapply check_rule_keeps; eassumption.
Qed.

Lemma within_stable mn mx : null_stable (within mn mx).
Proof.
  split.
  - unfold within. destruct mn, mx; reflexivity.
  - intros z H. unfold within in *.
    destruct mn, mx; cbn in *; exact H.
Qed.

Lemma check_range_enforces c audit st mn mx s0 st' s1 :
  column_ok c (fun _ => true) st ->
  check_range env audit "null" st (c, (mn, mx)) s0 = Ok (st', s1) ->
  column_ok c (within mn mx) st'.
Proof.
  intros Hst H. unfold check_range in H.
  apply bind_ok in H. destruct H as [mid [sm [Ha Hb]]].
  set (okmin := fun v => negb (match mn with
                               | Some lo => lt_num lo v | None => false end)).
  assert (Smin : null_stable okmin).
  { split; [unfold okmin; destruct mn; reflexivity|].
    intros z Hz. unfold okmin in *. destruct mn; cbn in *; exact Hz. }
  assert (Hmid : column_ok c okmin mid).
  { destruct mn as [lo|].
    - eapply column_ok_weaken;
        [|eapply (check_rule_enforces c (fun _ => true)) with (bad := lt_num lo);
          [split; reflexivity | exact Hst | reflexivity
          | intro z; apply lt_num_upcast | exact Ha]].
      intros v Hv. exact Hv.
    - inversion Ha; subst. eapply column_ok_weaken; [|exact Hst].
      reflexivity. }
  destruct mx as [hi|].
  - eapply column_ok_weaken;
      [|eapply (check_rule_enforces c okmin) with (bad := gt_num hi);
        [exact Smin | exact Hmid | reflexivity
        | intro z; apply gt_num_upcast | exact Hb]].
    intros v Hv. unfold within, okmin in *. exact Hv.
  - inversion Hb; subst. eapply column_ok_weaken; [|exact Hmid].
    intros v Hv. unfold within, okmin in *. rewrite Hv. reflexivity.
Qed.

(** A loop of rules keeps [column_ok], and establishes more at a rule
    that is in the loop. *)
Lemma foldM_keeps_and_enforces {A : Type}
    (f : validity_state -> A -> M validity_state) c (ok ok' : value -> bool)
    (l : list A) (x : A) :
  (forall o, null_stable o -> forall st a s0 st' s1,
     column_ok c o st -> f st a s0 = Ok (st', s1) -> column_ok c o st') ->
  (forall st s0 st' s1,
     column_ok c ok st -> f st x s0 = Ok (st', s1) -> column_ok c ok' st') ->
  null_stable ok -> null_stable ok' ->
  In x l ->
  forall st s0 st' s1,
  column_ok c ok st -> foldM f l st s0 = Ok (st', s1) -> column_ok c ok' st'.
Proof.
  intros Hkeep Hest Sok Sok' Hin st s0 st' s1 Hst H.
  apply in_split in Hin. destruct Hin as [l1 [l2 ->]].
  rewrite foldM_app in H. apply bind_ok in H. destruct H as [m1 [t1 [H1 H2]]].
  cbn [foldM] in H2. apply bind_ok in H2. destruct H2 as [m2 [t2 [H2 H3]]].
  assert (K1 : column_ok c ok m1).
  { eapply (foldM_invariant f (column_ok c ok)); [|exact Hst|exact H1].
    intros acc a s acc' s' _ Hacc Hstep. eapply (Hkeep ok Sok); eassumption. }
  assert (K2 : column_ok c ok' m2) by (eapply Hest; eassumption).
  eapply (foldM_invariant f (column_ok c ok')); [|exact K2|exact H3].
  intros acc a s acc' s' _ Hacc Hstep. eapply (Hkeep ok' Sok'); eassumption.
Qed.

Lemma foldM_keeps {A : Type}
    (f : validity_state -> A -> M validity_state) c (ok : value -> bool)
    (l : list A) :
  (forall st a s0 st' s1,
     column_ok c ok st -> f st a s0 = Ok (st', s1) -> column_ok c ok st') ->
  forall st s0 st' s1,
  column_ok c ok st -> foldM f l st s0 = Ok (st', s1) -> column_ok c ok st'.
Proof.
  intros Hkeep st s0 st' s1 Hst H.
  eapply (foldM_invariant f (column_ok c ok)); [|exact Hst|exact H].
  intros acc a s acc' s' _ Hacc Hstep. eapply Hkeep; eassumption.
Qed.

Lemma set_iteration_member l c : In c l -> In c (set_iteration env l).
Proof.
  intro H. unfold set_iteration. apply sorted_In.
  apply (proj2 (dedupe_spec String.eqb String.eqb_eq l)). exact H.
Qed.

Lemma non_negative_stable : null_stable (fun v => negb (lt_num 0 v)).
Proof. split; [reflexivity|]. intros z H. exact H. Qed.

Lemma true_stable : null_stable (fun _ => true).
Proof. split; reflexivity. Qed.

(** The four rule loops in null mode, for a column that starts as a
    float or integer column: [ok1] is what the non-negative loop
    establishes, [ok2] what the range loop does. *)
Lemma rule_loops_null df pol audit clock st out st' c s
    (ok1 ok2 : value -> bool) :
  validity_enabled (validity_rules pol) = true ->
  on_violation (validity_rules pol) = "null" ->
  Frame.col df c = Some s -> numeric_storage s ->
  null_stable ok1 -> null_stable ok2 ->
  (forall st0 t0 st1 t1,
     column_ok c (fun _ => true) st0 ->
     foldM (check_rule audit None "null" true (lt_num 0)
              "non_negative" "Value must be >= 0")
           (set_iteration env (non_negative_columns (validity_rules pol)))
           st0 t0 = Ok (st1, t1) ->
     column_ok c ok1 st1) ->
  (forall st0 t0 st1 t1,
     column_ok c ok1 st0 ->
     foldM (check_range env audit "null") (ranges (validity_rules pol))
           st0 t0 = Ok (st1, t1) ->
     column_ok c ok2 st1) ->
  apply_validity env df pol audit clock st = Ok (out, st') ->
  exists s', Frame.col out c = Some s' /\
             Forall (fun v => ok2 v = true) (s_values s').
Proof.
  intros He Ha Hs Hn S1 S2 L1 L2 H. unfold apply_validity in H.
  rewrite He, Ha in H. cbn [negb] in H.
  apply bind_ok in H. destruct H as [st1 [t1 [H1 H]]].
  apply bind_ok in H. destruct H as [st2 [t2 [H2 H]]].
  apply bind_ok in H. destruct H as [st3 [t3 [H3 H]]].
  apply bind_ok in H. destruct H as [[cur rows] [t4 [H4 H]]].
  assert (K0 : column_ok c (fun _ => true)
                 (df, map (fun _ => false) (df_index df))).
  { exists s. split; [exact Hs|]. split; [exact Hn|].
    apply Forall_forall. reflexivity. }
  pose proof (L1 _ _ _ _ K0 H1) as K1.
  pose proof (L2 _ _ _ _ K1 H2) as K2.
  assert (K3 : column_ok c ok2 st3).
  { eapply (foldM_keeps _ c ok2); [|exact K2|exact H3].
    intros a r s0 a' s1 Hacc Hstep. cbv beta in Hstep.
    eapply check_rule_keeps; eassumption. }
  assert (K4 : column_ok c ok2 (cur, rows)).
  { eapply (foldM_keeps _ c ok2); [|exact K3|exact H4].
    intros a r s0 a' s1 Hacc Hstep. cbv beta in Hstep.
    eapply check_rule_keeps; eassumption. }
  assert (Hrows : rows = map (fun _ => false) (df_index df)).
  { assert (J : forall (st : validity_state),
      snd st = map (fun _ => false) (df_index df) -> True) by auto.
    assert (R1 : snd st1 = map (fun _ => false) (df_index df)).
    { eapply (foldM_invariant _ (fun st : validity_state =>
                snd st = map (fun _ => false) (df_index df)));
        [| |exact H1]; [|reflexivity].
      intros [d r] a s0 [d' r'] s1 _ Hacc Hstep.
      apply check_rule_null in Hstep. cbn in *. destruct Hstep. congruence. }
    assert (R2 : snd st2 = map (fun _ => false) (df_index df)).
    { eapply (foldM_invariant _ (fun st : validity_state =>
                snd st = map (fun _ => false) (df_index df)));
        [|exact R1|exact H2].
      intros [d r] [col [mn mx]] s0 [d' r'] s1 _ Hacc Hstep.
      unfold check_range in Hstep.
      apply bind_ok in Hstep. destruct Hstep as [[dm rm] [sm [Hx Hy]]].
      assert (rm = r).
      { destruct mn; [|inversion Hx; reflexivity].
        apply check_rule_null in Hx. tauto. }
      subst rm. cbn in *.
      destruct mx; [|inversion Hy; congruence].
      apply check_rule_null in Hy. destruct Hy. congruence. }
    assert (R3 : snd st3 = map (fun _ => false) (df_index df)).
    { eapply (foldM_invariant _ (fun st : validity_state =>
                snd st = map (fun _ => false) (df_index df)));
        [|exact R2|exact H3].
      intros [d r] a s0 [d' r'] s1 _ Hacc Hstep. cbv beta in Hstep.
      apply check_rule_null in Hstep. cbn in *. destruct Hstep. congruence. }
    change rows with (snd (cur, rows)).
    eapply (foldM_invariant _ (fun st : validity_state =>
              snd st = map (fun _ => false) (df_index df)));
      [|exact R3|exact H4].
    intros [d r] a s0 [d' r'] s1 _ Hacc Hstep. cbv beta in Hstep.
    apply check_rule_null in Hstep. cbn in *. destruct Hstep. congruence. }
  rewrite Hrows, any_true_none in H. inversion H; subst.
  destruct K4 as [s' [Hs' [_ Hall]]]. exists s'. split; assumption.
Qed.

End NullMode.

Section NullTheorems.

Variable env : Env.

(** When the action is to null, a float or integer column under a range
    rule leaves the enforcer with every cell inside the range or
    null. *)
Theorem validity_null_enforces_ranges df pol audit clock st out st' c mn mx s :
  validity_enabled (validity_rules pol) = true ->
  on_violation (validity_rules pol) = "null" ->
  In (c, (mn, mx)) (ranges (validity_rules pol)) ->
  Frame.col df c = Some s ->
  numeric_storage s ->
  apply_validity env df pol audit clock st = Ok (out, st') ->
  exists s', Frame.col out c = Some s' /\
             Forall (fun v => within mn mx v = true) (s_values s').
Proof.
  intros He Ha Hin Hs Hn H.
  eapply (rule_loops_null env df pol audit clock st out st' c s
            (fun _ => true) (within mn mx));
    try eassumption.
  - apply true_stable.
  - apply within_stable.
  - intros st0 t0 st1 t1 K F.
    eapply (foldM_keeps _ c (fun _ => true)); [|exact K|exact F].
    intros a r s0 a' s1 Hacc Hstep.
    eapply check_rule_keeps; [apply true_stable|eassumption|eassumption].
  - intros st0 t0 st1 t1 K F.
    eapply (foldM_keeps_and_enforces _ c (fun _ => true) (within mn mx));
      [| |apply true_stable|apply within_stable|exact Hin|exact K|exact F].
    + intros o So a r s0 a' s1 Hacc Hstep.
      eapply check_range_keeps; eassumption.
    + intros a s0 a' s1 Hacc Hstep.
      eapply check_range_enforces; eassumption.
Qed.

(** When the action is to null, a float or integer column listed as
    non-negative leaves the enforcer without a negative cell. *)
Theorem validity_null_enforces_non_negative df pol audit clock st out st' c s :
  validity_enabled (validity_rules pol) = true ->
  on_violation (validity_rules pol) = "null" ->
  In c (non_negative_columns (validity_rules pol)) ->
  Frame.col df c = Some s ->
  numeric_storage s ->
  apply_validity env df pol audit clock st = Ok (out, st') ->
  exists s', Frame.col out c = Some s' /\
             Forall (fun v => lt_num 0 v = false) (s_values s').
Proof.
  intros He Ha Hin Hs Hn H.
  destruct (rule_loops_null env df pol audit clock st out st' c s
              (fun v => negb (lt_num 0 v)) (fun v => negb (lt_num 0 v))
              He Ha Hs Hn non_negative_stable non_negative_stable)
    as [s' [Hs' Hall]]; [| |exact H|].
  - intros st0 t0 st1 t1 K F.
    eapply (foldM_keeps_and_enforces _ c (fun _ => true)
              (fun v => negb (lt_num 0 v)));
      [| |apply true_stable|apply non_negative_stable
       |apply set_iteration_member; exact Hin|exact K|exact F].
    + intros o So a r s0 a' s1 Hacc Hstep.
      eapply check_rule_keeps; eassumption.
    + intros a s0 a' s1 Hacc Hstep.
      eapply column_ok_weaken;
        [|eapply (check_rule_enforces c (fun _ => true)) with (bad := lt_num 0);
          [apply true_stable | exact Hacc | reflexivity
          | intro z; apply lt_num_upcast | exact Hstep]].
      intros v Hv. exact Hv.
  - intros st0 t0 st1 t1 K F.
    eapply (foldM_keeps _ c (fun v => negb (lt_num 0 v))); [|exact K|exact F].
    intros a r s0 a' s1 Hacc Hstep.
    eapply check_range_keeps; [apply non_negative_stable|eassumption|eassumption].
  - exists s'. split; [exact Hs'|].
    eapply Forall_impl; [|exact Hall].
    intros v Hv. apply negb_true_iff. exact Hv.
Qed.

End NullTheorems.

(* ================================================================== *)
(** * What the audit stream holds                                       *)
(* ================================================================== *)

Section StreamFacts.

Import Audit.

(** The events logged under a key, in the order they were logged. *)
Definition events_of_key (k : key) (es : list event) : list event :=
  filter (fun e => key_eqb (event_key e) k) es.

(** The events of a type. *)
Definition events_of_type (t : string) (es : list event) : list event :=
  filter (fun e => String.eqb (ev_event_type e) t) es.

(** The first timestamp that is not [None], and the timestamp of the
    last event. *)
Definition first_stamp (es : list event) : option string :=
  hd_error (flat_map (fun e => match ev_timestamp e with
                               | Some t => [t]
                               | None => []
                               end) es).

Definition last_stamp (es : list event) : option string :=
  match rev es with
  | [] => None
  | e :: _ => ev_timestamp e
  end.

(** The counts of the keys of a type, added up. *)
Definition type_sum (t : string) (counts : list (key * nat)) : nat :=
  list_sum (map snd (filter (fun kc => String.eqb (fst (fst (fst kc))) t)
                            counts)).

Definition has_type (t : string) (counts : list (key * nat)) : bool :=
  existsb (fun kc => String.eqb (fst (fst (fst kc))) t) counts.

(** The aggregate line of a key. *)
Definition summary_line (es : list event) (k : key) : record :=
  let '(etype, col, reason) := k in
  RecSummary etype col reason (List.length (events_of_key k es))
             (firstn max_samples_per_group (events_of_key k es)).

(** ** Dictionaries keyed by event key *)

Lemma kget_kset_same {V} (k : key) (v : V) d : kget k (kset k v d) = Some v.
Proof.
  induction d as [|[k0 v0] d IH]; cbn.
  - replace (key_eqb k k) with true; [reflexivity|].
    symmetry. apply key_eqb_eq. reflexivity.
  - destruct (key_eqb k k0) eqn:E; cbn.
    + replace (key_eqb k k) with true; [reflexivity|].
      symmetry. apply key_eqb_eq. reflexivity.
    + rewrite E. exact IH.
Qed.

Lemma kget_kset_other {V} (k k' : key) (v : V) d :
  k' <> k -> kget k' (kset k v d) = kget k' d.
Proof.
  intro Hne.
  assert (E' : key_eqb k' k = false).
  { destruct (key_eqb k' k) eqn:E; [|reflexivity].
    apply key_eqb_eq in E. contradiction. }
  induction d as [|[k0 v0] d IH]; cbn.
  - rewrite E'. reflexivity.
  - destruct (key_eqb k k0) eqn:E; cbn.
    + apply key_eqb_eq in E. subst k0. rewrite E'. reflexivity.
    + destruct (key_eqb k' k0); [reflexivity | exact IH].
Qed.

Lemma kset_keys_order {V} (k : key) (v : V) d :
  map fst (kset k v d) = set_add key_eqb k (map fst d).
Proof.
  unfold set_add, mem. induction d as [|[k0 v0] d IH]; cbn; [reflexivity|].
  destruct (key_eqb k k0) eqn:E; cbn.
  - apply key_eqb_eq in E. subst. reflexivity.
  - rewrite IH. destruct (existsb (key_eqb k) (map fst d)); reflexivity.
Qed.

Lemma total_events_sum counts :
  total_events counts = list_sum (map snd counts).
Proof.
  unfold total_events.
  assert (G : forall acc, fold_left (fun acc kc => (acc + snd kc)%nat) counts acc
                          = (acc + list_sum (map snd counts))%nat).
  { induction counts as [|kc counts IH]; intro acc; simpl.
    - rewrite Nat.add_0_r. reflexivity.
    - rewrite IH. rewrite Nat.add_assoc. reflexivity. }
  apply G.
Qed.

Lemma total_events_kset k d :
  total_events (kset k (S (get_or (kget k d) O)) d) = S (total_events d).
Proof.
  rewrite !total_events_sum.
  induction d as [|[k0 v0] d IH]; simpl; [reflexivity|].
  destruct (key_eqb k k0); simpl; [reflexivity|]. rewrite IH.
  rewrite Nat.add_succ_r. reflexivity.
Qed.

Lemma type_sum_kset t k d :
  type_sum t (kset k (S (get_or (kget k d) O)) d) =
  (type_sum t d + if String.eqb (fst (fst k)) t then 1 else 0)%nat.
Proof.
  unfold type_sum. induction d as [|[k0 v0] d IH]; simpl.
  - destruct (String.eqb (fst (fst k)) t); reflexivity.
  - destruct (key_eqb k k0) eqn:E; simpl.
    + apply key_eqb_eq in E. subst k0.
      destruct (String.eqb (fst (fst k)) t); simpl; lia.
    + destruct (String.eqb (fst (fst k0)) t); simpl; rewrite IH; lia.
Qed.

Lemma has_type_kset t k (v : nat) d :
  has_type t (kset k v d) = has_type t d || String.eqb (fst (fst k)) t.
Proof.
  unfold has_type. induction d as [|[k0 v0] d IH]; simpl.
  - rewrite orb_false_r. reflexivity.
  - destruct (key_eqb k k0) eqn:E; simpl.
    + apply key_eqb_eq in E. subst k0.
      destruct (String.eqb (fst (fst k)) t); simpl; [reflexivity|].
      rewrite orb_false_r. reflexivity.
    + rewrite IH. rewrite orb_assoc. reflexivity.
Qed.

Lemma events_of_type_snoc t es e :
  events_of_type t (es ++ [e]) =
  (events_of_type t es ++ if String.eqb (ev_event_type e) t then [e] else [])%list.
Proof. unfold events_of_type. rewrite filter_app. reflexivity. Qed.

Lemma dedupe_snoc {A} (eqb : A -> A -> bool) l x :
  dedupe eqb (l ++ [x]) = set_add eqb x (dedupe eqb l).
Proof. unfold dedupe. rewrite fold_left_app. reflexivity. Qed.

Lemma events_of_key_snoc k es e :
  events_of_key k (es ++ [e]) =
  (events_of_key k es ++ if key_eqb (event_key e) k then [e] else [])%list.
Proof. unfold events_of_key. rewrite filter_app. reflexivity. Qed.

Lemma firstn_snoc {A} (n : nat) (l : list A) (x : A) :
  firstn n (l ++ [x]) =
  if (List.length (firstn n l) <? n)%nat then (firstn n l ++ [x])%list
  else firstn n l.
Proof.
  destruct (Nat.ltb_spec (List.length (firstn n l)) n) as [H|H].
  - rewrite length_firstn in H.
    assert (Hl : (List.length l < n)%nat) by lia.
    assert (E : firstn n l = l) by (apply firstn_all2; lia).
    rewrite E. apply firstn_all2. rewrite length_app. simpl. lia.
  - rewrite length_firstn in H.
    assert (Hl : (n <= List.length l)%nat) by lia.
    rewrite firstn_app. replace (n - List.length l)%nat with O by lia.
    cbn. apply app_nil_r.
Qed.

Lemma first_stamp_snoc es e :
  first_stamp (es ++ [e]) =
  match first_stamp es with
  | None => ev_timestamp e
  | Some t => Some t
  end.
Proof.
  unfold first_stamp. rewrite flat_map_app. cbn. rewrite app_nil_r.
  destruct (flat_map _ es); cbn; [|reflexivity].
  destruct (ev_timestamp e); reflexivity.
Qed.

Lemma last_stamp_snoc es e : last_stamp (es ++ [e]) = ev_timestamp e.
Proof. unfold last_stamp. rewrite rev_app_distr. reflexivity. Qed.

(** ** The state of a logger in use *)

Record tallied (d : AuditDetail) (es : list event) (a : AuditLogger) : Prop := {
  ta_detail : detail a = d;
  ta_open : opened a = true;
  ta_file : file_closed a = false;
  ta_lines : file_lines a = match d with
                            | detailed => map RecEvent es
                            | summary => []
                            end;
  ta_counts : forall k, kget k (summary_counts a) =
                        match events_of_key k es with
                        | [] => None
                        | l => Some (List.length l)
                        end;
  ta_samples : forall k, kget k (summary_samples a) =
                         match events_of_key k es with
                         | [] => None
                         | l => Some (firstn max_samples_per_group l)
                         end;
  ta_keys : map fst (summary_counts a) = dedupe key_eqb (map event_key es);
  ta_total : total_events (summary_counts a) = List.length es;
  ta_type_sum : forall t, type_sum t (summary_counts a)
                          = List.length (events_of_type t es);
  ta_has_type : forall t, has_type t (summary_counts a)
                          = match events_of_type t es with
                            | [] => false
                            | _ => true
                            end;
  ta_start : timestamp_start a = first_stamp es;
  ta_end : timestamp_end a = last_stamp es
}.

Lemma tallied_new d : tallied d [] (new_logger d).
Proof. constructor; try reflexivity. destruct d; reflexivity. Qed.

Lemma tallied_set_context d es a k v :
  tallied d es a -> tallied d es (set_context k v a).
Proof. intros []. constructor; cbn; auto. Qed.

Lemma tallied_log d es a e :
  tallied d es a -> tallied d (es ++ [e]) (log e a).
Proof.
  intros [Hd Ho Hf Hl Hc Hs Hk Ht Hts Hht Hst Hen].
  assert (TypeSum : forall t,
    type_sum t (kset (event_key e)
                 (S (get_or (kget (event_key e) (summary_counts a)) O))
                 (summary_counts a)) = List.length (events_of_type t (es ++ [e]))).
  { intro t. rewrite type_sum_kset, Hts, events_of_type_snoc, length_app.
    cbn [event_key fst]. destruct (String.eqb (ev_event_type e) t); reflexivity. }
  assert (HasType : forall t,
    has_type t (kset (event_key e)
                 (S (get_or (kget (event_key e) (summary_counts a)) O))
                 (summary_counts a)) =
    match events_of_type t (es ++ [e]) with [] => false | _ => true end).
  { intro t. rewrite has_type_kset, Hht, events_of_type_snoc.
    cbn [event_key fst].
    destruct (events_of_type t es); destruct (String.eqb (ev_event_type e) t);
      reflexivity. }
  assert (Counts : forall k,
    kget k (kset (event_key e)
                 (S (get_or (kget (event_key e) (summary_counts a)) O))
                 (summary_counts a)) =
    match events_of_key k (es ++ [e]) with
    | [] => None
    | l => Some (List.length l)
    end).
  { intro k. rewrite events_of_key_snoc.
    destruct (key_eqb (event_key e) k) eqn:E.
    - apply key_eqb_eq in E. subst k. rewrite kget_kset_same, Hc.
      destruct (events_of_key (event_key e) es) as [|x l]; cbn; [reflexivity|].
      rewrite length_app. cbn. f_equal. lia.
    - rewrite app_nil_r, kget_kset_other; [apply Hc|].
      intro Heq. subst k.
      assert (key_eqb (event_key e) (event_key e) = true)
        by (apply key_eqb_eq; reflexivity).
      congruence. }
  assert (Samples : forall k,
    kget k (kset (event_key e)
              (if (List.length (get_or (kget (event_key e) (summary_samples a)) [])
                   <? max_samples_per_group)%nat
               then (get_or (kget (event_key e) (summary_samples a)) [] ++ [e])%list
               else get_or (kget (event_key e) (summary_samples a)) [])
              (summary_samples a)) =
    match events_of_key k (es ++ [e]) with
    | [] => None
    | l => Some (firstn max_samples_per_group l)
    end).
  { intro k. rewrite events_of_key_snoc.
    destruct (key_eqb (event_key e) k) eqn:E.
    - apply key_eqb_eq in E. subst k. rewrite kget_kset_same, Hs.
      assert (Hold : get_or
                (match events_of_key (event_key e) es with
                 | [] => None
                 | l => Some (firstn max_samples_per_group l)
                 end) [] = firstn max_samples_per_group
                             (events_of_key (event_key e) es)).
      { destruct (events_of_key (event_key e) es); reflexivity. }
      rewrite Hold, <- firstn_snoc.
      destruct (events_of_key (event_key e) es); reflexivity.
    - rewrite app_nil_r, kget_kset_other; [apply Hs|].
      intro Heq. subst k.
      assert (key_eqb (event_key e) (event_key e) = true)
        by (apply key_eqb_eq; reflexivity).
      congruence. }
  assert (Keys : map fst (kset (event_key e)
                   (S (get_or (kget (event_key e) (summary_counts a)) O))
                   (summary_counts a)) =
                 dedupe key_eqb (map event_key (es ++ [e]))).
  { rewrite kset_keys_order, Hk, map_app. cbn. rewrite dedupe_snoc.
    reflexivity. }
  assert (Total : total_events (kset (event_key e)
                   (S (get_or (kget (event_key e) (summary_counts a)) O))
                   (summary_counts a)) = List.length (es ++ [e])).
  { rewrite total_events_kset, Ht, length_app. cbn. lia. }
  assert (Start : match timestamp_start a with
                  | None => ev_timestamp e
                  | Some t => Some t
                  end = first_stamp (es ++ [e])).
  { rewrite first_stamp_snoc, Hst. reflexivity. }
  unfold log. cbn [detail aggregate].
  destruct (detail a) eqn:Ed; subst d.
  - constructor; cbn; auto. symmetry. apply last_stamp_snoc.
  - unfold write_line. cbn [file_closed aggregate]. rewrite Hf.
    constructor; cbn; auto.
    + rewrite Hl, map_app. reflexivity.
    + symmetry. apply last_stamp_snoc.
Qed.

Lemma tallied_run_ops d ops : tallied d (logged ops) (run_ops d ops).
Proof.
  unfold run_ops. induction ops as [|o ops IH] using rev_ind.
  - apply tallied_new.
  - rewrite fold_left_app, logged_app. simpl. destruct o as [e|k v].
    + apply tallied_log. exact IH.
    + rewrite app_nil_r. apply tallied_set_context. exact IH.
Qed.

Lemma summary_record_line d es a k :
  tallied d es a -> In k (map fst (summary_counts a)) ->
  summary_record a k = summary_line es k.
Proof.
  intros T Hin. destruct k as [[etype col] reason].
  unfold summary_record, summary_line.
  rewrite (ta_counts _ _ _ T), (ta_samples _ _ _ T).
  destruct (events_of_key (etype, col, reason) es) eqn:E; reflexivity.
Qed.

Lemma close_lines d es a :
  tallied d es a ->
  file_lines (close a) =
  (file_lines a
   ++ match d with
      | summary => map (summary_record a)
                       (sorted key_leb (map fst (summary_counts a)))
      | detailed => []
      end
   ++ [RecFooter (make_footer a)])%list.
Proof.
  intros T. unfold close.
  rewrite (ta_open _ _ _ T), (ta_file _ _ _ T). cbn [negb].
  rewrite (ta_detail _ _ _ T). destruct d.
  - destruct (write_summaries_lines a
                (sorted key_leb (map fst (summary_counts a))) a
                (ta_file _ _ _ T)) as [H1 [H2 [H3 H4]]].
    cbv zeta in H1, H2, H3, H4.
    destruct (write_line_open (RecFooter (make_footer a)) _ H1)
      as [_ [_ [_ W4]]].
    cbn [file_lines]. rewrite W4, H4, <- app_assoc. reflexivity.
  - destruct (write_line_open (RecFooter (make_footer a)) a (ta_file _ _ _ T))
      as [_ [_ [_ W4]]].
    cbn [file_lines]. rewrite W4. reflexivity.
Qed.

(** In detailed mode the stream is the logged events, one line each in
    the order they were logged, and then the footer. *)
Theorem detailed_stream_lists_every_event (ops : list op) :
  exists f,
    file_lines (close (run_ops detailed ops))
    = (map RecEvent (logged ops) ++ [RecFooter f])%list.
Proof.
  pose proof (tallied_run_ops detailed ops) as T.
  rewrite (close_lines _ _ _ T), (ta_lines _ _ _ T). cbn [app].
  eexists. reflexivity.
Qed.

(** In summary mode the stream holds one aggregate line per distinct
    (event type, column, reason), in the sorted order of these keys;
    the line counts all the events of its key and samples the first 25
    of them; the footer follows. *)
Theorem summary_stream_aggregates_by_key (ops : list op) :
  exists f,
    file_lines (close (run_ops summary ops))
    = (map (summary_line (logged ops))
           (sorted key_leb (dedupe key_eqb (map event_key (logged ops))))
       ++ [RecFooter f])%list.
Proof.
  pose proof (tallied_run_ops summary ops) as T.
  rewrite (close_lines _ _ _ T), (ta_lines _ _ _ T). cbn [app].
  eexists. f_equal. rewrite <- (ta_keys _ _ _ T).
  apply map_ext_in. intros k Hk. apply (summary_record_line _ _ _ _ T).
  apply sorted_In in Hk. exact Hk.
Qed.

(** ** The footer *)

Lemma dict_set_fresh_keys {V} (k : string) (v : V) d :
  forall k', In k' (map fst (dict_set k v d)) -> k' = k \/ In k' (map fst d).
Proof.
  induction d as [|[k0 v0] d IH]; simpl; intros k' H.
  - destruct H as [H|[]]. auto.
  - destruct (String.eqb_spec k k0); simpl in H.
    + subst k0. destruct H as [H|H]; auto.
    + destruct H as [H|H]; [auto|]. destruct (IH k' H); auto.
Qed.

Lemma dict_set_NoDup {V} (k : string) (v : V) d :
  NoDup (map fst d) -> NoDup (map fst (dict_set k v d)).
Proof.
  induction d as [|[k0 v0] d IH]; simpl; intro H.
  - constructor; [intros []|constructor].
  - inversion H; subst. destruct (String.eqb_spec k k0); simpl.
    + subst k0. constructor; assumption.
    + constructor; [|apply IH; assumption].
      intro Hin. apply dict_set_fresh_keys in Hin.
      destruct Hin as [Hin|Hin]; [congruence | contradiction].
Qed.

Lemma dict_get_of_In {V} (k : string) (v : V) d :
  NoDup (map fst d) -> In (k, v) d -> dict_get k d = Some v.
Proof.
  induction d as [|[k0 v0] d IH]; simpl; [tauto|].
  intros Hnd [H|H].
  - inversion H; subst. rewrite String.eqb_refl. reflexivity.
  - inversion Hnd; subst. destruct (String.eqb_spec k k0) as [->|Hne].
    + exfalso. apply H2. apply (in_map fst) in H. exact H.
    + apply IH; assumption.
Qed.

Lemma filter_none {A} (f : A -> bool) (l : list A) :
  existsb f l = false -> filter f l = [].
Proof.
  induction l as [|x l IH]; [reflexivity|]. simpl. intro H.
  apply orb_false_iff in H. destruct H as [E1 E2]. rewrite E1. apply IH, E2.
Qed.

Lemma by_event_type_fold counts :
  forall acc t,
  NoDup (map fst acc) ->
  let r := fold_left (fun acc kc =>
             let etype := fst (fst (fst kc)) in
             dict_set etype (get_or (dict_get etype acc) O + snd kc)%nat acc)
             counts acc in
  NoDup (map fst r) /\
  dict_get t r = if has_type t counts
                 then Some (get_or (dict_get t acc) O + type_sum t counts)%nat
                 else dict_get t acc.
Proof.
  unfold has_type, type_sum.
  induction counts as [|[[[e c] r0] n] counts IH]; intros acc t Hnd; simpl.
  - split; [exact Hnd | reflexivity].
  - destruct (IH (dict_set e (get_or (dict_get e acc) O + n)%nat acc) t
                 (dict_set_NoDup _ _ _ Hnd)) as [H1 H2].
    split; [exact H1|]. cbv zeta in H2. rewrite H2.
    destruct (String.eqb_spec e t) as [->|Hne]; simpl.
    + rewrite dict_get_set_same. simpl.
      destruct (existsb _ counts) eqn:Ex; [f_equal; lia|].
      rewrite (filter_none _ _ Ex). simpl. f_equal. lia.
    + rewrite dict_get_set_other by congruence. reflexivity.
Qed.

Lemma by_event_type_spec d es a t n :
  tallied d es a ->
  In (t, n) (by_event_type (summary_counts a)) <->
  n = List.length (events_of_type t es) /\ (0 < n)%nat.
Proof.
  intro T. unfold by_event_type.
  destruct (by_event_type_fold (summary_counts a) [] t (NoDup_nil _))
    as [Hnd Hget].
  cbv zeta in Hnd, Hget.
  rewrite (ta_has_type _ _ _ T), (ta_type_sum _ _ _ T) in Hget. simpl in Hget.
  split.
  - intro Hin. apply (dict_get_of_In _ _ _ Hnd) in Hin. rewrite Hin in Hget.
    destruct (events_of_type t es) eqn:E; [discriminate|].
    inversion Hget. simpl. split; [reflexivity | lia].
  - intros [-> Hpos]. apply dict_get_In. rewrite Hget.
    destruct (events_of_type t es); [simpl in Hpos; lia | reflexivity].
Qed.

(** The footer counts every logged event: its total is the number of
    events logged, its per-type counts are the numbers of events of
    each type that occurs, and its two timestamps are the first
    timestamp that is set and the timestamp of the last event. *)
Theorem footer_counts_every_event (d : AuditDetail) (ops : list op) :
  exists body f,
    file_lines (close (run_ops d ops)) = (body ++ [RecFooter f])%list /\
    f_detail f = d /\
    f_total_events f = List.length (logged ops) /\
    (forall t n, In (t, n) (f_event_type_counts f) <->
                 n = List.length (events_of_type t (logged ops)) /\ (0 < n)%nat) /\
    f_timestamp_start f = first_stamp (logged ops) /\
    f_timestamp_end f = last_stamp (logged ops).
Proof.
  pose proof (tallied_run_ops d ops) as T.
  rewrite (close_lines _ _ _ T), app_assoc.
  eexists. eexists. split; [reflexivity|].
  unfold make_footer. cbn.
  split; [apply (ta_detail _ _ _ T)|].
  split; [apply (ta_total _ _ _ T)|].
  split; [|split; [apply (ta_start _ _ _ T) | apply (ta_end _ _ _ T)]].
  intros t n. rewrite sorted_In. apply (by_event_type_spec _ _ _ _ _ T).
Qed.

(** ** A sealed stream *)

Lemma sealed_apply_op a o :
  file_closed a = true ->
  file_closed (apply_op a o) = true /\
  file_lines (apply_op a o) = file_lines a.
Proof.
  intro H. destruct o as [e|k v]; cbn.
  - unfold log. cbn [detail aggregate].
    destruct (detail a); cbn; [auto|].
    unfold write_line. cbn. rewrite H. cbn. auto.
  - auto.
Qed.

Lemma sealed_ops a more :
  file_closed a = true ->
  file_closed (fold_left apply_op more a) = true /\
  file_lines (fold_left apply_op more a) = file_lines a.
Proof.
  revert a. induction more as [|o more IH]; intros a H; cbn; [auto|].
  destruct (sealed_apply_op a o H) as [H1 H2].
  destruct (IH _ H1) as [H3 H4]. split; [exact H3 | congruence].
Qed.

Lemma close_sealed a :
  file_closed a = true -> file_lines (close a) = file_lines a.
Proof.
  intro H. unfold close. destruct (opened a); cbn; [|reflexivity].
  rewrite H. reflexivity.
Qed.

(** Once a logger is closed its file never changes: whatever is logged
    afterwards, and however often it is closed again, the lines stay
    those of the first close. *)
Theorem closed_stream_is_final (d : AuditDetail) (ops more : list op) :
  let sealed := close (run_ops d ops) in
  file_lines (fold_left apply_op more sealed) = file_lines sealed /\
  file_lines (close (fold_left apply_op more sealed)) = file_lines sealed.
Proof.
  cbv zeta.
  assert (Hc : file_closed (close (run_ops d ops)) = true).
  { unfold close. destruct (negb (opened (run_ops d ops))) eqn:E; [|reflexivity].
    pose proof (ta_open _ _ _ (tallied_run_ops d ops)) as Ho.
    rewrite Ho in E. discriminate. }
  destruct (sealed_ops _ more Hc) as [H1 H2].
  split; [exact H2|]. rewrite (close_sealed _ H1). exact H2.
Qed.

End StreamFacts.

(* ================================================================== *)
(** * The range of the readiness score                                  *)
(* ================================================================== *)

Section ScoreRange.

Import Readiness.
Local Open Scope Z_scope.

Lemma clamp_range x : (0 <= Qmaxb 0 (Qminb 100 x) <= 100)%Q.
Proof.
  unfold Qmaxb, Qminb.
  destruct (Qltb x 100) eqn:E1.
  - apply Qltb_lt in E1. destruct (Qltb 0 x) eqn:E2.
    + apply Qltb_lt in E2. split; lra.
    + split; lra.
  - destruct (Qltb 0 100) eqn:E2; split; lra.
Qed.

Lemma round_half_even_range x :
  (0 <= x <= 10000)%Q -> 0 <= round_half_even x <= 10000.
Proof.
  intros [Hlo Hhi]. unfold round_half_even.
  pose proof (Qfloor_resp_le _ _ Hlo) as F0. change (Qfloor 0) with 0 in F0.
  pose proof (Qfloor_resp_le _ _ Hhi) as F1.
  change (Qfloor 10000) with 10000 in F1.
  pose proof (Qfloor_le x) as Fx.
  destruct (Z.eq_dec (Qfloor x) 10000) as [E|E].
  - assert (Hx : (x - inject_Z (Qfloor x) < 1 # 2)%Q).
    { rewrite E in Fx |- *. unfold inject_Z in *. lra. }
    destruct (Qcompare (x - inject_Z (Qfloor x)) (1 # 2)) eqn:C.
    + apply Qeq_alt in C. lra.
    + lia.
    + apply Qgt_alt in C. lra.
  - destruct (Qcompare _ _); [destruct (Z.even _)| |]; lia.
Qed.

Lemma py_round2_range q : (0 <= q <= 100)%Q -> (0 <= py_round2 q <= 100)%Q.
Proof.
  intros [Hlo Hhi]. unfold py_round2. rewrite Qred_correct.
  assert (Hr : 0 <= round_half_even (q * 100) <= 10000).
  { apply round_half_even_range. split; lra. }
  destruct Hr as [R0 R1].
  assert (Q0 : (0 <= inject_Z (round_half_even (q * 100)))%Q).
  { change 0%Q with (inject_Z 0). rewrite <- Zle_Qle. exact R0. }
  assert (Q1 : (inject_Z (round_half_even (q * 100)) <= 10000)%Q).
  { change 10000%Q with (inject_Z 10000). rewrite <- Zle_Qle. exact R1. }
  split.
  - apply Qle_shift_div_l; lra.
  - apply Qle_shift_div_r; lra.
Qed.

(** Whatever the profile holds, the score lies between 0 and 100. *)
Theorem readiness_score_is_a_percentage (p : profile) :
  (0 <= score (calculate_readiness_score p) <= 100)%Q.
Proof.
  unfold calculate_readiness_score.
  destruct (get_or (p_row_count p) 0 =? 0).
  - cbn. split; lra.
  - cbv zeta. cbn [score]. apply py_round2_range. apply clamp_range.
Qed.

End ScoreRange.

(* ================================================================== *)
(** * What the standardizer touches                                     *)
(* ================================================================== *)

Section StandardizerFacts.

Variable env : Env.

(** Standardization keeps the columns and the rows of the table, and
    changes no cell of a protected column, nor of a column that holds
    no text and has no mapping. *)
Theorem standardization_touches_only_unprotected_text df pol audit clock st
    out st' c :
  apply_standardization env df pol audit clock st = Ok (out, st') ->
  In c (protected_columns (roles pol)) \/
  (~ In c (map fst (mappings (standardization pol))) /\
   forall s, Frame.col df c = Some s -> Frame.is_string_like s = false) ->
  Frame.columns out = Frame.columns df /\
  df_index out = df_index df /\
  Frame.col out c = Frame.col df c.
Proof.
  intros H Hc. apply apply_standardization_preserves in H.
  destruct H as [H1 [H2 H3]]. split; [exact H1|]. split; [exact H2|].
  apply H3. unfold std_guard. destruct Hc as [Hp|[Hm Hs]].
  - apply (mem_In String.eqb String.eqb_eq) in Hp. rewrite Hp. reflexivity.
  - apply orb_true_iff. right. apply andb_true_iff. split.
    + apply negb_true_iff.
      destruct (mem String.eqb c (map fst (mappings (standardization pol))))
        eqn:E; [|reflexivity].
      apply (mem_In String.eqb String.eqb_eq) in E. contradiction.
    + destruct (Frame.col df c) as [s|]; [|reflexivity].
      rewrite (Hs s eq_refl). reflexivity.
Qed.

End StandardizerFacts.

(** ** The text steps, one series at a time *)

(** [strip_nonprinting], [trim_whitespace], [collapse_whitespace] and
    [apply_casefold] as functions on a series. *)
Definition strip_nonprinting_series : Series -> Series :=
  map_series (on_text Text.remove_controls).
Definition trim_whitespace_series : Series -> Series :=
  map_series (on_text Text.strip).
Definition collapse_whitespace_series : Series -> Series :=
  map_series (on_text Text.collapse_ws).
Definition casefold_series (mode : string) : Series -> Series :=
  map_series (on_text (casefold_text mode)).

Lemma map_series_idem f s :
  (forall x, f (f x) = f x) ->
  map_series (on_text f) (map_series (on_text f) s) = map_series (on_text f) s.
Proof.
  intro H. unfold map_series. cbn. f_equal. rewrite map_map.
  apply map_ext. intros [ | x | | | | | ]; cbn; try reflexivity.
  rewrite H. reflexivity.
Qed.

(** Each of the four text steps is idempotent: applied to its own
    result it changes nothing. *)
Theorem text_steps_are_idempotent (s : Series) (mode : string) :
  strip_nonprinting_series (strip_nonprinting_series s)
    = strip_nonprinting_series s /\
  trim_whitespace_series (trim_whitespace_series s)
    = trim_whitespace_series s /\
  collapse_whitespace_series (collapse_whitespace_series s)
    = collapse_whitespace_series s /\
  casefold_series mode (casefold_series mode s) = casefold_series mode s.
Proof.
  repeat split; apply map_series_idem; intro x.
  - apply sfilter_fixed. apply sfilter_all.
  - apply trimmed_fixed. apply strip_trimmed.
  - apply (collapsed_fixed false). apply collapse_collapsed.
  - apply casefold_idem.
Qed.

(* ================================================================== *)
(** * Columns no bucket takes, and tables without row ids               *)
(* ================================================================== *)

Section BucketFacts.

Variable env : Env.

Local Open Scope m_scope.

(** What [_require_row_id] raises. *)
Definition row_id_error {A : Type} : res A :=
  Err "DataFrame must contain a '_row_id' column for stable auditing.".

Lemma boolean_in_no_bucket bucket s :
  in_bucket bucket (Some "boolean") s = false.
Proof.
  unfold in_bucket. cbn.
  rewrite !andb_false_r. reflexivity.
Qed.

Lemma boolean_not_in_bucket df pol bucket c :
  dict_get c (column_types (parsing pol)) = Some "boolean" ->
  ~ In c (bucket_columns df pol bucket).
Proof.
  intros Ht Hin. apply bucket_columns_spec in Hin.
  destruct Hin as [_ [_ [_ [s [_ H]]]]].
  rewrite Ht, boolean_in_no_bucket in H. discriminate.
Qed.

(** Imputation never fills a column the policy declares boolean: the
    column comes out as it went in, and no event names it. *)
Theorem imputation_skips_declared_boolean_columns
    df pol audit clock st0 out st c :
  apply_imputation env df pol audit clock st0 = Ok (out, st) ->
  dict_get c (column_types (parsing pol)) = Some "boolean" ->
  Frame.col out c = Frame.col df c /\
  exists evs, trace st = (trace st0 ++ evs)%list /\
              Forall (fun e => Audit.ev_column e <> Some c) evs.
Proof.
  intros Hrun Hc.
  assert (T : triple (apply_imputation env df pol audit clock)
                     (same_frame c df)
                     (fun e => Audit.ev_column e <> Some c)).
  { unfold apply_imputation.
    eapply triple_bind with (Q1 := fun _ => True).
    - unfold require_row_id. destruct (Frame.has_column df "_row_id");
        [apply triple_ret; exact I | apply triple_raise].
    - intros _ _. destruct (negb _); [apply triple_ret, same_frame_refl|].
      apply triple_foldM; [|apply same_frame_refl].
      intros acc b _ Hacc. eapply triple_weaken.
      + apply impute_bucket_frame. apply boolean_not_in_bucket. exact Hc.
      + intros df' H. eapply same_frame_trans; eassumption.
      + auto. }
  destruct (T _ _ _ Hrun) as [[H1 _] H2].
  split; assumption.
Qed.

(** On a table without a [_row_id] column the pipeline raises before
    it logs or changes anything, whatever the policy enables; so do
    standardization, parsing, the critical-row drop and imputation on
    their own. *)
Theorem pipeline_requires_row_id df pol audit clock st :
  Frame.has_column df "_row_id" = false ->
  run_correction_pipeline env df pol audit clock st = row_id_error /\
  apply_standardization env df pol audit clock st = row_id_error /\
  apply_parsing env df pol audit clock st = row_id_error /\
  drop_critical_missing env df pol audit clock st = row_id_error /\
  apply_imputation env df pol audit clock st = row_id_error.
Proof.
  intros H. unfold row_id_error.
  unfold run_correction_pipeline, apply_standardization, apply_parsing,
    drop_critical_missing, apply_imputation, require_row_id, bind, raise.
  rewrite H. repeat split; reflexivity.
Qed.

End BucketFacts.

(* ================================================================== *)
(** * Policy schema ([ira/correction/policy_schema.py])                 *)
(* ================================================================== *)

Module Schema.

(** [_dedupe_list]: the loop keeps the set [seen] and the list [out]. *)
Definition dedupe_step (st : list string * list string) (x : string)
  : list string * list string :=
  let '(seen, out) := st in
  if mem String.eqb x seen then st
  else (set_add String.eqb x seen, (out ++ [x])%list).

Definition dedupe_list (xs : list string) : list string :=
  snd (fold_left dedupe_step xs ([], [])).

(** [_normalize_colname]: [" ".join(str(name).strip().split())]. *)
Definition normalize_colname (name : string) : string :=
  Text.split_join (Text.strip name).

(** What a validator raises. *)
Inductive schema_error :=
| ProtectedStandardized (cols : list string)
| ProtectedImputed (cols : list string)
| InvalidColumnType (column type : string)
| MappingOnProtected (cols : list string)
| ConstantOnProtected (cols : list string)
| EmptyDeduplicationKey.

Inductive checked (A : Type) :=
| Valid (a : A)
| Invalid (e : schema_error).

Arguments Valid {A} a.
Arguments Invalid {A} e.

(** [sorted(set(a) & set(b))]. *)
Definition overlap (a b : list string) : list string :=
  sorted str_leb
    (filter (fun x => mem String.eqb x b) (dedupe String.eqb a)).

Record RolesSection := {
  critical_columns : list string;
  protected_columns : list string;
  standardize_columns : list string;
  fillable_columns : list string;
  droppable_columns : list string
}.

Definition normalize_names (l : list string) : list string :=
  dedupe_list (map normalize_colname l).

(** [RolesSection._normalize_and_validate_roles]. *)
Definition normalize_and_validate_roles (r : RolesSection)
  : checked RolesSection :=
  let r' := {| critical_columns := normalize_names (critical_columns r);
               protected_columns := normalize_names (protected_columns r);
               standardize_columns := normalize_names (standardize_columns r);
               fillable_columns := normalize_names (fillable_columns r);
               droppable_columns := normalize_names (droppable_columns r) |} in
  match overlap (protected_columns r') (standardize_columns r') with
  | _ :: _ as cols => Invalid (ProtectedStandardized cols)
  | [] =>
      match overlap (protected_columns r') (fillable_columns r') with
      | _ :: _ as cols => Invalid (ProtectedImputed cols)
      | [] => Valid r'
      end
  end.

Definition VALID_COLUMN_TYPES : list string :=
  ["boolean"; "numeric"; "integer"; "float"; "datetime"; "date"; "timestamp"].

(** [ParsingSection._normalize_and_validate_column_types]: the loop
    over [self.column_types.items()] that fills [normalized]. *)
Fixpoint normalize_column_types (types normalized : list (string * string))
  : checked (list (string * string)) :=
  match types with
  | [] => Valid normalized
  | (k, v) :: rest =>
      if Text.str_in v VALID_COLUMN_TYPES
      then normalize_column_types rest
             (dict_set (normalize_colname k) v normalized)
      else Invalid (InvalidColumnType k v)
  end.

(** The columns [validate_against_dataset] looks up, section by
    section, as the policy dict holds them. *)
Record PolicyColumns := {
  pc_roles : RolesSection;
  pc_column_types : list string;        (* parsing.column_types keys *)
  pc_mappings : list string;            (* standardization.mappings keys *)
  pc_dedup_keys : list string;          (* deduplication.keys *)
  pc_order_by : option string;          (* deduplication.order_by *)
  pc_numeric_constants : list string;
  pc_categorical_constants : list string;
  pc_datetime_constants : list string;
  pc_ranges : list string;
  pc_allowed_values : list string;
  pc_regex : list string;
  pc_non_negative : list string;
  pc_outliers : list string;            (* outliers.apply_to_columns *)
  pc_primary_key : list string;         (* dataset.primary_key.columns *)
  pc_time_column : option string        (* dataset.time_column.column *)
}.

Definition not_found (section col : string) : string :=
  section ++ ": column '" ++ col ++ "' not found in dataset".

(** One [for col in ...: if col not in norm_dataset_cols: ...] loop. *)
Definition missing_from (dataset : list string) (section : string)
    (cols : list string) : list string :=
  map (not_found section)
      (filter (fun c => negb (mem String.eqb c dataset)) cols).

(** [if col and col not in norm_dataset_cols] for an optional name. *)
Definition missing_optional (dataset : list string) (section : string)
    (col : option string) : list string :=
  match col with
  | Some c =>
      if negb (String.eqb c "") && negb (mem String.eqb c dataset)
      then [not_found section c] else []
  | None => []
  end.

(** [validate_against_dataset]. *)
Definition validate_against_dataset (p : PolicyColumns)
    (dataset_columns : list string) : list string :=
  let cols := map normalize_colname dataset_columns in
  let r := pc_roles p in
  (missing_from cols "roles.critical_columns" (critical_columns r)
   ++ missing_from cols "roles.protected_columns" (protected_columns r)
   ++ missing_from cols "roles.standardize_columns" (standardize_columns r)
   ++ missing_from cols "roles.fillable_columns" (fillable_columns r)
   ++ missing_from cols "roles.droppable_columns" (droppable_columns r)
   ++ missing_from cols "parsing.column_types" (pc_column_types p)
   ++ missing_from cols "standardization.mappings" (pc_mappings p)
   ++ missing_from cols "deduplication.keys" (pc_dedup_keys p)
   ++ missing_optional cols "deduplication.order_by" (pc_order_by p)
   ++ missing_from cols "missing_data.imputation.numeric.constants"
        (pc_numeric_constants p)
   ++ missing_from cols "missing_data.imputation.categorical.constants"
        (pc_categorical_constants p)
   ++ missing_from cols "missing_data.imputation.datetime.constants"
        (pc_datetime_constants p)
   ++ missing_from cols "validity_rules.ranges" (pc_ranges p)
   ++ missing_from cols "validity_rules.allowed_values" (pc_allowed_values p)
   ++ missing_from cols "validity_rules.regex" (pc_regex p)
   ++ missing_from cols "validity_rules.non_negative_columns"
        (pc_non_negative p)
   ++ missing_from cols "outliers.apply_to_columns" (pc_outliers p)
   ++ missing_from cols "dataset.primary_key.columns" (pc_primary_key p)
   ++ missing_optional cols "dataset.time_column.column" (pc_time_column p)
  )%list.

(** Every column the policy names, in any section. *)
Definition referenced (p : PolicyColumns) : list string :=
  let r := pc_roles p in
  let opt o := match o with
               | Some c => if String.eqb c "" then [] else [c]
               | None => []
               end in
  (critical_columns r ++ protected_columns r ++ standardize_columns r
   ++ fillable_columns r ++ droppable_columns r ++ pc_column_types p
   ++ pc_mappings p ++ pc_dedup_keys p ++ opt (pc_order_by p)
   ++ pc_numeric_constants p ++ pc_categorical_constants p
   ++ pc_datetime_constants p ++ pc_ranges p ++ pc_allowed_values p
   ++ pc_regex p ++ pc_non_negative p ++ pc_outliers p ++ pc_primary_key p
   ++ opt (pc_time_column p))%list.

End Schema.

(* ================================================================== *)
(** * Runtime validation
      ([ira/correction/policy_runtime_validation.py])                   *)
(* ================================================================== *)

Module Runtime.

(** What [validate_policy_against_df] reads from the policy dict; a
    threshold is [None] when the key is absent. *)
Record PolicyView := {
  pv_critical : list string;           (* roles.critical_columns *)
  pv_column_types : list string;       (* parsing.column_types keys *)
  pv_numeric_threshold : option Q;
  pv_categorical_threshold : option Q;
  pv_datetime_threshold : option Q;
  pv_drop_if_missing_critical : bool;  (* default [True] *)
  pv_primary_key : list string         (* dataset.primary_key.columns *)
}.

(** The messages, one constructor per format string. *)
Inductive finding :=
| CriticalMissing (cols : list string)
    (* "Critical columns missing from dataset: [...]" *)
| ParsingMissing (cols : list string)
    (* "Columns in parsing.column_types missing from dataset: [...]" *)
| ThresholdOutOfRange (bucket : string) (thr : Q)
    (* "imputation.<bucket>.allow_if_missing_pct_leq must be between 0
       and 1 (got <thr>)" *)
| CriticalNotDropped
    (* "Critical columns defined but drop_if_missing_critical is
       False. ..." *)
| PrimaryKeyMissing (cols : list string).
    (* "Primary key columns missing from dataset: [...]" *)

(** [sorted(set(a) - set(b))]. *)
Definition difference (a b : list string) : list string :=
  sorted str_leb
    (filter (fun x => negb (mem String.eqb x b)) (dedupe String.eqb a)).

(** [thr is not None and not (0.0 <= thr <= 1.0)]. *)
Definition threshold_errors (bucket : string) (thr : option Q)
  : list finding :=
  match thr with
  | Some t =>
      if negb (negb (Qltb t 0) && negb (Qltb 1 t))
      then [ThresholdOutOfRange bucket t] else []
  | None => []
  end.

(** [validate_policy_against_df]: the errors and the warnings. *)
Definition validate_policy_against_df (p : PolicyView) (columns : list string)
  : list finding * list finding :=
  let missing_critical := difference (pv_critical p) columns in
  let errors :=
    (match missing_critical with
     | [] => []
     | _ => [CriticalMissing missing_critical]
     end
     ++ threshold_errors "numeric" (pv_numeric_threshold p)
     ++ threshold_errors "categorical" (pv_categorical_threshold p)
     ++ threshold_errors "datetime" (pv_datetime_threshold p))%list in
  let missing_parsing :=
    difference (difference (pv_column_types p) columns) (pv_critical p) in
  let missing_pk := difference (pv_primary_key p) columns in
  let warnings :=
    (match missing_parsing with
     | [] => []
     | _ => [ParsingMissing missing_parsing]
     end
     ++ (match pv_critical p with
         | [] => []
         | _ => if negb (pv_drop_if_missing_critical p)
                then [CriticalNotDropped] else []
         end)
     ++ match missing_pk with
        | [] => []
        | _ => [PrimaryKeyMissing missing_pk]
        end)%list in
  (errors, warnings).

End Runtime.

(* ================================================================== *)
(** * Profiler helpers ([ira/profiling/profile.py])                     *)
(* ================================================================== *)

Module Profile.

Definition EFFECTIVE_MISSING_TOKENS : list string :=
  [""; "nan"; "null"; "none"; "na"; "n/a"].

(** [_is_effectively_missing_profile]: a true null, or a text that is
    one of the tokens once stripped and lower-cased. *)
Definition is_effectively_missing_profile (x : value) : bool :=
  match x with
  | VNull => true
  | VStr s => Text.str_in (Text.lower (Text.strip s)) EFFECTIVE_MISSING_TOKENS
  | _ => false
  end.

(** The role loop of [create_profile]: the labels are the role names
    without ["_columns"], and a later role overwrites an earlier one. *)
Definition role_lists (r : Schema.RolesSection)
  : list (string * list string) :=
  [("critical", Schema.critical_columns r);
   ("protected", Schema.protected_columns r);
   ("standardize", Schema.standardize_columns r);
   ("fillable", Schema.fillable_columns r);
   ("droppable", Schema.droppable_columns r)].

Definition role_map (r : Schema.RolesSection) : list (string * string) :=
  fold_left (fun m rl =>
               fold_left (fun m c => dict_set c (fst rl) m) (snd rl) m)
            (role_lists r) [].

(** [role_map.get(col, "none")]. *)
Definition role_of (r : Schema.RolesSection) (col : string) : string :=
  get_or (dict_get col (role_map r)) "none".

Section Counting.

Variable env : Env.

(** The boolean branch of [_count_parsing_failures], for one value that
    is not effectively missing. *)
Definition boolean_invalid (cfg : BoolCfg) (val : value) : bool :=
  let sval := Text.lower (Text.strip (py_str env val)) in
  negb (Text.str_in sval (normalized_literals (true_values cfg)))
  && negb (Text.str_in sval (normalized_literals (false_values cfg))).

(** [_count_parsing_failures(s, "boolean", policy)]. *)
Definition count_boolean_failures (cfg : BoolCfg) (s : Series) : nat :=
  List.length
    (filter (boolean_invalid cfg)
       (filter (fun v => negb (is_effectively_missing_profile v))
               (s_values s))).

End Counting.

End Profile.

(* ================================================================== *)
(** * Correction report ([ira/reporting/report.py])                     *)
(* ================================================================== *)

Module Report.

Import Audit.

(** [Counter[k] += n]. *)
Definition counter_add (k : string) (n : nat) (c : list (string * nat))
  : list (string * nat) :=
  dict_set k (get_or (dict_get k c) O + n)%nat c.

(** [int(e.get("count", 1)) if is_summary else 1]. *)
Definition multiplicity (r : record) : nat :=
  match r with
  | RecSummary _ _ _ count _ => count
  | _ => 1%nat
  end.

(** [e.get("event_type") or e.get("type") or "unknown"]. *)
Definition action_label (r : record) : string :=
  match r with
  | RecEvent e =>
      if String.eqb (ev_event_type e) "" then "unknown" else ev_event_type e
  | RecSummary etype _ _ _ _ =>
      if String.eqb etype "" then "summary_aggregate" else etype
  | RecFooter _ => "job_summary"
  end.

(** [e.get("column")]. *)
Definition column_of (r : record) : option string :=
  match r with
  | RecEvent e => ev_column e
  | RecSummary _ col _ _ _ => Some col
  | RecFooter _ => None
  end.

(** [e.get("event_type")] and [e.get("reason", "unknown")]. *)
Definition event_type_of (r : record) : option string :=
  match r with
  | RecEvent e => Some (ev_event_type e)
  | RecSummary etype _ _ _ _ => Some etype
  | RecFooter _ => None
  end.

Definition reason_of (r : record) : string :=
  match r with
  | RecEvent e => ev_reason e
  | RecSummary _ _ reason _ _ => reason
  | RecFooter _ => "unknown"
  end.

(** The three counters of the loop over the audit lines. *)
Record counters := {
  action_counts : list (string * nat);
  column_counts : list (string * nat);
  row_drop_reasons : list (string * nat)
}.

Definition count_line (acc : counters) (r : record) : counters :=
  if is_job_summary r then acc
  else
    let mult := multiplicity r in
    {| action_counts := counter_add (action_label r) mult (action_counts acc);
       column_counts :=
         match column_of r with
         | Some col =>
             if negb (String.eqb col "") && negb (String.eqb col "__row__")
             then counter_add col mult (column_counts acc)
             else column_counts acc
         | None => column_counts acc
         end;
       row_drop_reasons :=
         match event_type_of r with
         | Some t =>
             if String.eqb t "row_dropped"
             then counter_add (reason_of r) mult (row_drop_reasons acc)
             else row_drop_reasons acc
         | None => row_drop_reasons acc
         end |}.

Definition count_lines (lines : list record) : counters :=
  fold_left count_line lines
    {| action_counts := []; column_counts := []; row_drop_reasons := [] |}.

(** [actions["row_drops"]["total"]]. *)
Definition row_drops_total (lines : list record) : nat :=
  list_sum (map snd (row_drop_reasons (count_lines lines))).

(** The lines that hit a protected column. *)
Definition protected_hits (protected : list string) (lines : list record)
  : list record :=
  filter (fun r =>
            negb (is_job_summary r)
            && match column_of r with
               | Some col => mem String.eqb col protected
               | None => false
               end) lines.

(** [compliance["protected_columns"]["status"]]. *)
Definition protected_status (protected : list string) (lines : list record)
  : string :=
  match protected_hits protected lines with
  | [] => "pass"
  | _ => "fail"
  end.

End Report.

(* ================================================================== *)
(** * Properties of the policy schema                                   *)
(* ================================================================== *)

Section SchemaFacts.

Import Schema.

Lemma dedupe_fold_NoDup {A} (eqb : A -> A -> bool)
    (eqb_spec : forall x y, eqb x y = true <-> x = y) (l acc : list A) :
  NoDup (acc ++ l) ->
  fold_left (fun acc x => set_add eqb x acc) l acc = (acc ++ l)%list.
Proof.
  revert acc. induction l as [|x l IH]; intros acc H; cbn.
  - rewrite app_nil_r. reflexivity.
  - assert (Hx : mem eqb x acc = false).
    { destruct (mem eqb x acc) eqn:E; [|reflexivity].
      apply (mem_In eqb eqb_spec) in E.
      apply NoDup_remove_2 in H. exfalso. apply H.
      apply in_or_app. left. exact E. }
    unfold set_add at 2. rewrite Hx.
    rewrite IH; rewrite <- app_assoc; [reflexivity | exact H].
Qed.

Lemma dedupe_NoDup_id {A} (eqb : A -> A -> bool)
    (eqb_spec : forall x y, eqb x y = true <-> x = y) (l : list A) :
  NoDup l -> dedupe eqb l = l.
Proof. intro H. unfold dedupe. rewrite dedupe_fold_NoDup; auto. Qed.

(** The loop keeps [seen] and [out] equal. *)
Lemma dedupe_list_fold xs acc :
  fold_left dedupe_step xs (acc, acc)
  = (fold_left (fun a x => set_add String.eqb x a) xs acc,
     fold_left (fun a x => set_add String.eqb x a) xs acc).
Proof.
  revert acc. induction xs as [|x xs IH]; intro acc; cbn; [reflexivity|].
  unfold set_add at 1 2. destruct (mem String.eqb x acc) eqn:E.
  - unfold set_add. rewrite E. apply IH.
  - unfold set_add. rewrite E. apply IH.
Qed.

Lemma dedupe_list_dedupe xs : dedupe_list xs = dedupe String.eqb xs.
Proof. unfold dedupe_list, dedupe. rewrite dedupe_list_fold. reflexivity. Qed.

Lemma dedupe_list_spec (xs : list string) :
  NoDup (dedupe_list xs) /\
  (forall x, In x (dedupe_list xs) <-> In x xs) /\
  (NoDup xs -> dedupe_list xs = xs) /\
  dedupe_list (dedupe_list xs) = dedupe_list xs.
Proof.
  rewrite !dedupe_list_dedupe.
  destruct (dedupe_spec String.eqb String.eqb_eq xs) as [H1 H2].
  split; [exact H1|]. split; [exact H2|]. split.
  - apply (dedupe_NoDup_id String.eqb String.eqb_eq).
  - apply (dedupe_NoDup_id String.eqb String.eqb_eq). exact H1.
Qed.

Lemma normalize_colname_clean s :
  trimmed (normalize_colname s) = true /\
  collapsed_from false (normalize_colname s) = true.
Proof.
  unfold normalize_colname, Text.split_join. split.
  - apply collapse_trimmed. apply strip_trimmed.
  - apply collapse_collapsed.
Qed.

Lemma normalize_clean_fixed t :
  trimmed t = true -> collapsed_from false t = true -> normalize_colname t = t.
Proof.
  intros Ht Hc. unfold normalize_colname, Text.split_join.
  rewrite !(trimmed_fixed t Ht). apply (collapsed_fixed false). exact Hc.
Qed.

Lemma normalize_colname_idem (s : string) :
  normalize_colname (normalize_colname s) = normalize_colname s.
Proof.
  destruct (normalize_colname_clean s) as [H1 H2].
  apply normalize_clean_fixed; assumption.
Qed.

(** [_dedupe_list] returns the distinct elements of its argument, each
    once; it leaves a list without duplicates as it is, and so is
    idempotent. *)
Theorem dedupe_list_keeps_one_of_each (xs : list string) :
  NoDup (dedupe_list xs) /\
  (forall x, In x (dedupe_list xs) <-> In x xs) /\
  (NoDup xs -> dedupe_list xs = xs) /\
  dedupe_list (dedupe_list xs) = dedupe_list xs.
Proof. apply dedupe_list_spec. Qed.

(** A normalized column name has no whitespace at either end and no
    run of whitespace inside, and normalizing it again changes
    nothing. *)
Theorem normalize_colname_is_idempotent (s : string) :
  normalize_colname (normalize_colname s) = normalize_colname s /\
  trimmed (normalize_colname s) = true /\
  collapsed_from false (normalize_colname s) = true.
Proof.
  split; [apply normalize_colname_idem | apply normalize_colname_clean].
Qed.

Lemma normalize_names_spec l :
  NoDup (normalize_names l) /\
  forall x, In x (normalize_names l) -> normalize_colname x = x.
Proof.
  unfold normalize_names.
  destruct (dedupe_list_spec (map normalize_colname l)) as [H1 [H2 _]].
  split; [exact H1|]. intros x Hx. apply H2 in Hx.
  apply in_map_iff in Hx. destruct Hx as [y [<- _]].
  apply normalize_colname_idem.
Qed.

Lemma normalize_names_fixed l :
  normalize_names (normalize_names l) = normalize_names l.
Proof.
  destruct (normalize_names_spec l) as [H1 H2].
  unfold normalize_names at 1.
  replace (map normalize_colname (normalize_names l)) with (normalize_names l).
  - apply (proj1 (proj2 (proj2 (dedupe_list_spec _)))). exact H1.
  - symmetry. rewrite <- (map_id (normalize_names l)) at 2.
    apply map_ext_in. exact H2.
Qed.

Lemma overlap_nil a b :
  overlap a b = [] -> forall x, In x a -> ~ In x b.
Proof.
  unfold overlap. intros H x Ha Hb.
  assert (Hin : In x (sorted str_leb
            (filter (fun x => mem String.eqb x b) (dedupe String.eqb a)))).
  { apply sorted_In. apply filter_In. split.
    - apply (dedupe_spec String.eqb String.eqb_eq). exact Ha.
    - apply (mem_In String.eqb String.eqb_eq). exact Hb. }
  rewrite H in Hin. destruct Hin.
Qed.

(** Roles that pass validation hold normalized names without
    duplicates, share no column between the protected list and the
    standardize or fillable lists, and pass validation again
    unchanged. *)
Theorem validated_roles_are_normal (r r' : RolesSection) :
  normalize_and_validate_roles r = Valid r' ->
  (NoDup (critical_columns r') /\ NoDup (protected_columns r') /\
   NoDup (standardize_columns r') /\ NoDup (fillable_columns r') /\
   NoDup (droppable_columns r')) /\
  (forall c, In c (protected_columns r') ->
             ~ In c (standardize_columns r') /\ ~ In c (fillable_columns r')) /\
  normalize_and_validate_roles r' = Valid r'.
Proof.
  unfold normalize_and_validate_roles. cbn [protected_columns
    standardize_columns fillable_columns].
  destruct (overlap (normalize_names (protected_columns r))
                    (normalize_names (standardize_columns r))) eqn:O1;
    [|discriminate].
  destruct (overlap (normalize_names (protected_columns r))
                    (normalize_names (fillable_columns r))) eqn:O2;
    [|discriminate].
  intro H. inversion H; subst r'. clear H. cbn.
  split; [repeat split; apply normalize_names_spec|].
  split.
  - intros c Hc. split.
    + apply (overlap_nil _ _ O1). exact Hc.
    + apply (overlap_nil _ _ O2). exact Hc.
  - rewrite !normalize_names_fixed, O1, O2. reflexivity.
Qed.

(** ** Declared column types *)

(** Which of the parser's three loops picks a type up. *)
Definition parser_loops (t : string) : list bool :=
  [Text.str_in t boolean_types; Text.str_in t numeric_types;
   Text.str_in t datetime_types].

Lemma valid_type_one_loop t :
  Text.str_in t VALID_COLUMN_TYPES = true ->
  count_true (parser_loops t) = 1%nat.
Proof.
  unfold Text.str_in, VALID_COLUMN_TYPES. cbn [existsb]. intro H.
  repeat (apply orb_true_iff in H; destruct H as [H|H]);
    try discriminate H; apply String.eqb_eq in H; subst t; reflexivity.
Qed.

Lemma normalize_column_types_values types :
  forall normalized out,
  (forall c t, In (c, t) normalized ->
               Text.str_in t VALID_COLUMN_TYPES = true /\
               normalize_colname c = c) ->
  NoDup (map fst normalized) ->
  normalize_column_types types normalized = Valid out ->
  (forall c t, In (c, t) out ->
               Text.str_in t VALID_COLUMN_TYPES = true /\
               normalize_colname c = c) /\
  NoDup (map fst out).
Proof.
  induction types as [|[k v] types IH]; intros normalized out Hall Hnd H;
    cbn [normalize_column_types] in H.
  - inversion H; subst. auto.
  - destruct (Text.str_in v VALID_COLUMN_TYPES) eqn:Ev; [|discriminate].
    apply (IH _ _) in H; [exact H| |].
    + intros c t Hin. apply dict_set_In in Hin.
      destruct Hin as [Heq|Hin]; [|apply Hall; exact Hin].
      inversion Heq; subst. split; [exact Ev | apply normalize_colname_idem].
    + clear - Hnd. induction normalized as [|[k0 v0] d IHd]; cbn.
      * constructor; [intros []|constructor].
      * inversion Hnd; subst.
        destruct (String.eqb_spec (normalize_colname k) k0); cbn.
        -- subst k0. constructor; assumption.
        -- constructor; [|apply IHd; assumption].
           intro Hin. apply in_map_iff in Hin.
           destruct Hin as [[k1 v1] [Hk Hin]]. cbn in Hk. subst k1.
           apply dict_set_In in Hin. destruct Hin as [Heq|Hin].
           ++ inversion Heq. congruence.
           ++ apply H1. apply in_map_iff. exists (k0, v1). auto.
Qed.

(** Column types that pass validation are keyed by distinct normalized
    names, and each declared type is picked up by exactly one of the
    parser's three loops (boolean, numeric, datetime). *)
Theorem validated_types_reach_one_parser (types out : list (string * string)) :
  normalize_column_types types [] = Valid out ->
  NoDup (map fst out) /\
  forall c t, In (c, t) out ->
    normalize_colname c = c /\ count_true (parser_loops t) = 1%nat.
Proof.
  intro H.
  destruct (normalize_column_types_values types [] out) as [H1 H2];
    [intros c t [] | constructor | exact H |].
  split; [exact H2|]. intros c t Hin. destruct (H1 c t Hin) as [Hv Hn].
  split; [exact Hn | apply valid_type_one_loop; exact Hv].
Qed.

(** ** Columns the dataset lacks *)

Lemma missing_from_nil dataset section cols :
  missing_from dataset section cols = [] <->
  forall c, In c cols -> In c dataset.
Proof.
  unfold missing_from. split.
  - intros H c Hc.
    destruct (mem String.eqb c dataset) eqn:E;
      [apply (mem_In String.eqb String.eqb_eq); exact E|].
    exfalso.
    assert (Hin : In (not_found section c)
              (map (not_found section)
                 (filter (fun c => negb (mem String.eqb c dataset)) cols))).
    { apply in_map. apply filter_In. rewrite E. auto. }
    rewrite H in Hin. destruct Hin.
  - intro H.
    replace (filter (fun c => negb (mem String.eqb c dataset)) cols)
      with (@nil string); [reflexivity|].
    symmetry. induction cols as [|c cols IH]; [reflexivity|]. cbn.
    replace (mem String.eqb c dataset) with true.
    + cbn. apply IH. intros x Hx. apply H. right. exact Hx.
    + symmetry. apply (mem_In String.eqb String.eqb_eq). apply H. left.
      reflexivity.
Qed.

Lemma missing_optional_nil dataset section col :
  missing_optional dataset section col = [] <->
  forall c, In c (match col with
                  | Some c => if String.eqb c "" then [] else [c]
                  | None => []
                  end) -> In c dataset.
Proof.
  unfold missing_optional. destruct col as [c|]; [|split; [intros _ c []|auto]].
  destruct (String.eqb c ""); cbn; [split; [intros _ x []|auto]|].
  destruct (mem String.eqb c dataset) eqn:E; cbn.
  - split; [|auto]. intros _ x [<-|[]].
    apply (mem_In String.eqb String.eqb_eq). exact E.
  - split; [discriminate|]. intro H. exfalso.
    assert (Hin : In c dataset) by (apply H; left; reflexivity).
    apply (mem_In String.eqb String.eqb_eq) in Hin. congruence.
Qed.

Lemma app_nil_iff {A} (l1 l2 : list A) :
  (l1 ++ l2)%list = [] <-> l1 = [] /\ l2 = [].
Proof.
  split.
  - apply app_eq_nil.
  - intros [-> ->]. reflexivity.
Qed.

Lemma In_app_forall {A} (P : A -> Prop) (l1 l2 : list A) :
  (forall x, In x (l1 ++ l2) -> P x) <->
  (forall x, In x l1 -> P x) /\ (forall x, In x l2 -> P x).
Proof.
  split.
  - intro H. split; intros x Hx; apply H; apply in_or_app; auto.
  - intros [H1 H2] x Hx. apply in_app_or in Hx. destruct Hx; auto.
Qed.

(** [validate_against_dataset] returns no warning exactly when every
    column the policy names is, as written, among the normalized
    column names of the dataset; and it returns the same warnings for
    the dataset's column names and for their normalized forms. *)
Theorem dataset_warnings_name_every_missing_column (p : PolicyColumns)
    (dataset_columns : list string) :
  (validate_against_dataset p dataset_columns = [] <->
   forall c, In c (referenced p) ->
             In c (map normalize_colname dataset_columns)) /\
  validate_against_dataset p (map normalize_colname dataset_columns)
  = validate_against_dataset p dataset_columns.
Proof.
  split.
  - unfold validate_against_dataset, referenced. cbv zeta.
    repeat rewrite app_nil_iff. repeat rewrite In_app_forall.
    repeat rewrite missing_from_nil. repeat rewrite missing_optional_nil.
    tauto.
  - unfold validate_against_dataset. cbv zeta. rewrite map_map.
    replace (map (fun x => normalize_colname (normalize_colname x))
                 dataset_columns)
      with (map normalize_colname dataset_columns); [reflexivity|].
    apply map_ext. intro x. symmetry. apply normalize_colname_idem.
Qed.

End SchemaFacts.

(* ================================================================== *)
(** * Properties of the runtime validation                              *)
(* ================================================================== *)

Section RuntimeFacts.

Import Runtime.

Lemma difference_In a b x :
  In x (difference a b) <-> In x a /\ ~ In x b.
Proof.
  unfold difference. rewrite sorted_In, filter_In.
  pose proof (proj2 (dedupe_spec String.eqb String.eqb_eq a) x) as Hd.
  pose proof (mem_In String.eqb String.eqb_eq x b) as Hm.
  destruct (mem String.eqb x b); cbn [negb].
  - split; [intros [_ H]; discriminate|].
    intros [_ H]. exfalso. apply H, Hm. reflexivity.
  - split; intros [Ha _]; (split; [apply Hd; exact Ha|]).
    + intro Hin. apply Hm in Hin. discriminate.
    + reflexivity.
Qed.

Lemma difference_nil a b :
  difference a b = [] <-> forall x, In x a -> In x b.
Proof.
  split.
  - intros H x Ha.
    pose proof (mem_In String.eqb String.eqb_eq x b) as Hm.
    destruct (mem String.eqb x b) eqn:E; [apply Hm; reflexivity|].
    exfalso.
    assert (Hin : In x (difference a b)).
    { apply difference_In. split; [exact Ha|].
      intro Hb. apply Hm in Hb. discriminate. }
    rewrite H in Hin. destruct Hin.
  - intro H.
    destruct (difference a b) as [|x l] eqn:E; [reflexivity|].
    exfalso.
    assert (Hin : In x (difference a b)) by (rewrite E; left; reflexivity).
    apply difference_In in Hin. destruct Hin as [Ha Hb]. auto.
Qed.

Lemma threshold_errors_nil bucket thr :
  threshold_errors bucket thr = [] <->
  forall t, thr = Some t -> (0 <= t <= 1)%Q.
Proof.
  unfold threshold_errors. destruct thr as [t|]; [|split; [discriminate 2|auto]].
  destruct (Qltb t 0) eqn:E0; cbn.
  - split; [discriminate|]. intro H. apply Qltb_lt in E0.
    destruct (H t eq_refl). lra.
  - destruct (Qltb 1 t) eqn:E1; cbn.
    + split; [discriminate|]. intro H. apply Qltb_lt in E1.
      destruct (H t eq_refl). lra.
    + split; [|auto]. intros _ t' Ht. inversion Ht; subst.
      apply Qltb_ge in E0. apply Qltb_ge in E1. split; assumption.
Qed.

(** The runtime validation reports no error exactly when every critical
    column is a column of the dataset and every imputation threshold
    that is set lies between 0 and 1; and a critical column that is
    missing is never also reported in the warning about typed
    columns. *)
Theorem runtime_validation_errors (p : PolicyView) (columns : list string) :
  (fst (validate_policy_against_df p columns) = [] <->
   (forall c, In c (pv_critical p) -> In c columns) /\
   (forall t, In (Some t) [pv_numeric_threshold p; pv_categorical_threshold p;
                           pv_datetime_threshold p] -> (0 <= t <= 1)%Q)) /\
  (forall cols c, In (ParsingMissing cols)
                     (snd (validate_policy_against_df p columns)) ->
                  In c cols -> ~ In c (pv_critical p)).
Proof.
  split.
  - unfold validate_policy_against_df. cbn [fst].
    split.
    + intro H. apply app_eq_nil in H. destruct H as [H1 H].
      apply app_eq_nil in H. destruct H as [H2 H].
      apply app_eq_nil in H. destruct H as [H3 H4].
      split.
      * apply difference_nil.
        destruct (difference (pv_critical p) columns); [reflexivity|discriminate].
      * intros t [Ht|[Ht|[Ht|[]]]].
        -- apply (proj1 (threshold_errors_nil _ _) H2). congruence.
        -- apply (proj1 (threshold_errors_nil _ _) H3). congruence.
        -- apply (proj1 (threshold_errors_nil _ _) H4). congruence.
    + intros [Hc Ht].
      rewrite (proj2 (difference_nil _ _) Hc).
      rewrite (proj2 (threshold_errors_nil "numeric" _)),
              (proj2 (threshold_errors_nil "categorical" _)),
              (proj2 (threshold_errors_nil "datetime" _)); [reflexivity| | |];
        intros t E; apply Ht; rewrite <- E; cbn; auto.
  - unfold validate_policy_against_df. cbn [snd]. intros cols c Hin Hc.
    apply in_app_or in Hin. destruct Hin as [Hin|Hin].
    + destruct (difference (difference (pv_column_types p) columns)
                           (pv_critical p)) as [|x l] eqn:E; [destruct Hin|].
      destruct Hin as [Heq|[]]. inversion Heq; subst cols.
      rewrite <- E in Hc. apply difference_In in Hc. tauto.
    + apply in_app_or in Hin. destruct Hin as [Hin|Hin].
      * destruct (pv_critical p); [destruct Hin|].
        destruct (negb (pv_drop_if_missing_critical p)); [|destruct Hin].
        destruct Hin as [Heq|[]]. discriminate.
      * destruct (difference (pv_primary_key p) columns); [destruct Hin|].
        destruct Hin as [Heq|[]]. discriminate.
Qed.

End RuntimeFacts.

(* ================================================================== *)
(** * The profiler and the corrector                                    *)
(* ================================================================== *)

Section ProfileFacts.

Import Profile.

(** The cells that stand for an infinity: an infinite float, or one of
    the four infinity tokens. *)
Definition is_infinite_cell (x : value) : bool :=
  match x with
  | VInf _ => true
  | VStr s => Text.str_in (Text.lower (Text.strip s))
                ["inf"; "-inf"; "infinity"; "-infinity"]
  | _ => false
  end.

Lemma missing_split (x : value) :
  is_effectively_missing x
  = is_effectively_missing_profile x || is_infinite_cell x.
Proof.
  destruct x; try reflexivity.
  cbn. generalize (Text.lower (Text.strip s)). intro t.
  rewrite !orb_false_r, <- !orb_assoc. reflexivity.
Qed.

(** The corrector takes for missing what the profiler takes for
    missing, and the infinities besides. *)
Theorem corrector_missing_is_profiler_missing_or_infinite (x : value) :
  is_effectively_missing x
  = is_effectively_missing_profile x || is_infinite_cell x.
Proof. apply missing_split. Qed.

(** ** Roles *)

Lemma role_fold_get (label : string) cols (m : list (string * string)) c :
  dict_get c (fold_left (fun m c => dict_set c label m) cols m)
  = if mem String.eqb c cols then Some label else dict_get c m.
Proof.
  revert m. induction cols as [|x cols IH]; intro m; [reflexivity|].
  cbn [fold_left]. rewrite IH. unfold mem. cbn [existsb].
  destruct (existsb (String.eqb c) cols);
    [rewrite orb_true_r; reflexivity|]. rewrite orb_false_r.
  destruct (String.eqb_spec c x) as [->|Hne].
  - apply dict_get_set_same.
  - apply dict_get_set_other. exact Hne.
Qed.

(** The role a profile gives a column is the last of critical,
    protected, standardize, fillable, droppable that lists it; so a
    column is profiled as critical only when no other role lists it. *)
Theorem profile_role_is_last_listed (r : Schema.RolesSection) (c : string) :
  role_of r c =
    (if mem String.eqb c (Schema.droppable_columns r) then "droppable"
     else if mem String.eqb c (Schema.fillable_columns r) then "fillable"
     else if mem String.eqb c (Schema.standardize_columns r) then "standardize"
     else if mem String.eqb c (Schema.protected_columns r) then "protected"
     else if mem String.eqb c (Schema.critical_columns r) then "critical"
     else "none").
Proof.
  unfold role_of, role_map, role_lists. cbn [fold_left fst snd].
  rewrite !role_fold_get. cbn [dict_get].
  destruct (mem String.eqb c (Schema.droppable_columns r)); [reflexivity|].
  destruct (mem String.eqb c (Schema.fillable_columns r)); [reflexivity|].
  destruct (mem String.eqb c (Schema.standardize_columns r)); [reflexivity|].
  destruct (mem String.eqb c (Schema.protected_columns r)); [reflexivity|].
  destruct (mem String.eqb c (Schema.critical_columns r)); reflexivity.
Qed.

(** ** Boolean parse failures *)

Section BooleanFailures.

Variable env : Env.

(** The parser fails the cell. *)
Definition parser_fails (cfg : BoolCfg) (v : value) : bool :=
  match parse_boolean_cell env cfg v with
  | Failed _ _ _ => true
  | _ => false
  end.

Lemma on_failure_failed mode val keep reason :
  exists stored drop, on_failure mode val keep reason = Failed stored reason drop.
Proof.
  unfold on_failure. destruct (String.eqb mode "drop_row"); [eauto|].
  destruct (String.eqb mode "null"); [eauto|].
  destruct (String.eqb mode "keep_raw"); eauto.
Qed.

Lemma parser_fails_spec cfg v :
  parser_fails cfg v
  = negb (is_effectively_missing v) && boolean_invalid env cfg v.
Proof.
  unfold parser_fails, parse_boolean_cell, boolean_invalid.
  destruct (is_effectively_missing v); [reflexivity|]. cbn [negb andb].
  destruct (Text.str_in _ (normalized_literals (true_values cfg)));
    [reflexivity|].
  destruct (Text.str_in _ (normalized_literals (false_values cfg)));
    [reflexivity|].
  destruct (on_failure_failed (bool_on_failure cfg) v false "invalid_boolean")
    as [stored [drop ->]]. reflexivity.
Qed.

(** On a column without infinite cells, the number of invalid booleans
    the profiler counts is the number of cells the boolean parser
    fails. *)
Theorem profiler_counts_boolean_parse_failures (cfg : BoolCfg) (s : Series) :
  Forall (fun v => is_infinite_cell v = false) (s_values s) ->
  count_boolean_failures env cfg s
  = List.length (filter (parser_fails cfg) (s_values s)).
Proof.
  unfold count_boolean_failures. intro H. f_equal.
  induction H as [|v l Hv _ IH]; [reflexivity|]. cbn [filter].
  rewrite parser_fails_spec.
  rewrite missing_split, Hv, orb_false_r.
  destruct (is_effectively_missing_profile v); cbn [negb andb filter].
  - exact IH.
  - destruct (boolean_invalid env cfg v); [f_equal|]; exact IH.
Qed.

End BooleanFailures.

End ProfileFacts.

(* ================================================================== *)
(** * The correction report reads the audit stream                      *)
(* ================================================================== *)

Section ReportFacts.

Import Audit.
Import Report.

(** The stream of a closed logger. *)
Lemma closed_lines d ops :
  file_lines (close (run_ops d ops))
  = (match d with
     | detailed => map RecEvent (logged ops)
     | summary =>
         map (summary_line (logged ops))
             (sorted key_leb (dedupe key_eqb (map event_key (logged ops))))
     end ++ [RecFooter (make_footer (run_ops d ops))])%list.
Proof.
  pose proof (tallied_run_ops d ops) as T.
  rewrite (close_lines _ _ _ T), (ta_lines _ _ _ T).
  destruct d; cbn [app].
  - f_equal. rewrite <- (ta_keys _ _ _ T).
    apply map_ext_in. intros k Hk. apply (summary_record_line _ _ _ _ T).
    apply sorted_In in Hk. exact Hk.
  - reflexivity.
Qed.

(** ** Counters *)

(** A counter fed a list of labels with their multiplicities. *)
Definition tally (l : list (string * nat)) (c : list (string * nat))
  : list (string * nat) :=
  fold_left (fun c p => counter_add (fst p) (snd p) c) l c.

Definition weight (t : string) (l : list (string * nat)) : nat :=
  list_sum (map snd (filter (fun p => String.eqb (fst p) t) l)).

Definition present (t : string) (l : list (string * nat)) : bool :=
  existsb (fun p => String.eqb (fst p) t) l.

Lemma weight_absent t l : present t l = false -> weight t l = O.
Proof.
  unfold present, weight. induction l as [|p l IH]; simpl; [reflexivity|].
  destruct (String.eqb (fst p) t); simpl; [discriminate | exact IH].
Qed.

Lemma tally_get t l c :
  dict_get t (tally l c)
  = if present t l then Some (get_or (dict_get t c) O + weight t l)%nat
    else dict_get t c.
Proof.
  revert c. induction l as [|[k n] l IH]; intro c; [reflexivity|].
  unfold tally in *. cbn [fold_left fst snd]. rewrite IH.
  unfold present, weight. cbn [existsb filter fst].
  fold (present t l). fold (weight t l). unfold counter_add.
  destruct (String.eqb_spec k t) as [->|Hne]; cbn [orb].
  - rewrite dict_get_set_same. cbn [get_or map snd list_sum].
    destruct (present t l) eqn:P.
    + f_equal. unfold weight. simpl list_sum. lia.
    + pose proof (weight_absent _ _ P) as W. unfold weight in W.
      simpl list_sum. rewrite W. f_equal. lia.
  - rewrite dict_get_set_other by congruence. reflexivity.
Qed.

Lemma dict_set_total k (v : nat) (c : list (string * nat)) :
  (list_sum (map snd (dict_set k v c)) + get_or (dict_get k c) O
   = list_sum (map snd c) + v)%nat.
Proof.
  induction c as [|[k0 v0] c IH]; simpl; [lia|].
  destruct (String.eqb k k0); simpl; lia.
Qed.

Lemma tally_total l c :
  list_sum (map snd (tally l c))
  = (list_sum (map snd c) + list_sum (map snd l))%nat.
Proof.
  revert c. induction l as [|[k n] l IH]; intro c; simpl; [lia|].
  unfold tally in *. rewrite IH. unfold counter_add. cbn [fst snd].
  pose proof (dict_set_total k (get_or (dict_get k c) O + n) c). lia.
Qed.

(** ** What the loop over the lines feeds its counters *)

Definition actions_of (lines : list record) : list (string * nat) :=
  map (fun r => (action_label r, multiplicity r))
      (filter (fun r => negb (is_job_summary r)) lines).

Definition drops_of (lines : list record) : list (string * nat) :=
  map (fun r => (reason_of r, multiplicity r))
      (filter (fun r => negb (is_job_summary r)
                        && match event_type_of r with
                           | Some t => String.eqb t "row_dropped"
                           | None => false
                           end) lines).

Lemma count_lines_fold lines acc :
  action_counts (fold_left count_line lines acc)
  = tally (actions_of lines) (action_counts acc) /\
  row_drop_reasons (fold_left count_line lines acc)
  = tally (drops_of lines) (row_drop_reasons acc).
Proof.
  revert acc. induction lines as [|r lines IH]; intro acc; [split; reflexivity|].
  cbn [fold_left]. destruct (IH (count_line acc r)) as [H1 H2].
  rewrite H1, H2. unfold actions_of, drops_of, count_line. cbn [filter].
  destruct (is_job_summary r) eqn:J; cbn [negb andb]; [split; reflexivity|].
  cbn [action_counts row_drop_reasons map]. split; [reflexivity|].
  destruct (event_type_of r) as [t|]; [|reflexivity].
  destruct (String.eqb t "row_dropped"); reflexivity.
Qed.

Lemma actions_of_footer body f :
  actions_of (body ++ [RecFooter f]) = actions_of body.
Proof.
  unfold actions_of. rewrite filter_app. cbn. rewrite app_nil_r. reflexivity.
Qed.

Lemma drops_of_footer body f :
  drops_of (body ++ [RecFooter f]) = drops_of body.
Proof.
  unfold drops_of. rewrite filter_app. cbn. rewrite app_nil_r. reflexivity.
Qed.

(** ** Adding up over the keys *)

Definition hit (k0 k : key) : nat := if key_eqb k0 k then 1%nat else O.

Lemma one_hit (g : key -> bool) ks k0 :
  NoDup ks ->
  list_sum (map (hit k0) (filter g ks))
  = if g k0 && mem key_eqb k0 ks then 1%nat else O.
Proof.
  unfold mem. induction 1 as [|k ks Hk Hnd IH]; cbn [filter existsb].
  - rewrite andb_false_r. reflexivity.
  - destruct (key_eqb k0 k) eqn:E; cbn [orb].
    + apply key_eqb_eq in E. subst k.
      assert (M : existsb (key_eqb k0) ks = false).
      { destruct (existsb (key_eqb k0) ks) eqn:M; [|reflexivity].
        exfalso. apply Hk. apply (mem_In key_eqb key_eqb_eq). exact M. }
      rewrite M, andb_false_r in IH. rewrite andb_true_r.
      destruct (g k0); [|exact IH].
      cbn [map list_sum fold_right]. fold (list_sum (map (hit k0) (filter g ks))). rewrite IH. unfold hit.
      rewrite (proj2 (key_eqb_eq k0 k0) eq_refl). reflexivity.
    + destruct (g k); [|exact IH].
      cbn [map list_sum fold_right]. fold (list_sum (map (hit k0) (filter g ks))). rewrite IH. unfold hit. rewrite E. reflexivity.
Qed.

Lemma list_sum_map_add {A} (a b : A -> nat) l :
  list_sum (map (fun x => (a x + b x)%nat) l)
  = (list_sum (map a l) + list_sum (map b l))%nat.
Proof. induction l as [|x l IH]; simpl; [reflexivity | rewrite IH; lia]. Qed.

Lemma list_sum_zero {A} (l : list A) : list_sum (map (fun _ => O) l) = O.
Proof. induction l; simpl; auto. Qed.

(** The events of a type, counted key by key. *)
Lemma count_by_key t ks es :
  NoDup ks ->
  (forall e, In e es -> In (event_key e) ks) ->
  list_sum (map (fun k => List.length (events_of_key k es))
                (filter (fun k => String.eqb (fst (fst k)) t) ks))
  = List.length (events_of_type t es).
Proof.
  intros Hnd. induction es as [|e es IH]; intro Hin.
  - simpl. apply list_sum_zero.
  - rewrite (map_ext _ (fun k => (hit (event_key e) k
                                  + List.length (events_of_key k es))%nat)).
    2:{ intro k. unfold events_of_key, hit. cbn [filter].
        destruct (key_eqb (event_key e) k); reflexivity. }
    rewrite list_sum_map_add, IH by (intros; apply Hin; right; assumption).
    rewrite (one_hit _ _ _ Hnd).
    assert (M : mem key_eqb (event_key e) ks = true).
    { apply (mem_In key_eqb key_eqb_eq). apply Hin. left. reflexivity. }
    rewrite M, andb_true_r. unfold events_of_type. cbn [filter event_key fst].
    destruct (String.eqb (ev_event_type e) t); reflexivity.
Qed.

(** The keys of a stream in summary mode. *)
Definition stream_keys (es : list event) : list key :=
  sorted key_leb (dedupe key_eqb (map event_key es)).

Lemma stream_keys_NoDup es : NoDup (stream_keys es).
Proof.
  unfold stream_keys.
  apply (Permutation_NoDup (sorted_perm key_leb _)).
  apply (dedupe_spec key_eqb key_eqb_eq).
Qed.

Lemma stream_keys_In es k :
  In k (stream_keys es) <-> exists e, In e es /\ event_key e = k.
Proof.
  unfold stream_keys. rewrite sorted_In.
  rewrite (proj2 (dedupe_spec key_eqb key_eqb_eq _) k).
  rewrite in_map_iff. split; intros [e [H1 H2]]; exists e; tauto.
Qed.

Lemma events_of_type_nil t es :
  events_of_type t es = [] <-> forall e, In e es -> ev_event_type e <> t.
Proof.
  unfold events_of_type. induction es as [|e es IH]; simpl.
  - split; [intros _ e [] | reflexivity].
  - destruct (String.eqb_spec (ev_event_type e) t) as [E|E].
    + split; [discriminate|]. intro H. exfalso. apply (H e); auto.
    + rewrite IH. split.
      * intros H x [<-|Hx]; auto.
      * intros H x Hx. apply H. right. exact Hx.
Qed.

Lemma present_spec t l :
  present t l = true <-> exists p, In p l /\ fst p = t.
Proof.
  unfold present. rewrite existsb_exists.
  split; intros [p [H1 H2]]; exists p; (split; [exact H1|]);
    apply String.eqb_eq; exact H2.
Qed.

(** A counter fed the event types of a stream. *)
Lemma tally_events t l es :
  (present t l = true <-> exists e, In e es /\ ev_event_type e = t) ->
  weight t l = List.length (events_of_type t es) ->
  dict_get t (tally l [])
  = match events_of_type t es with
    | [] => None
    | evs => Some (List.length evs)
    end.
Proof.
  intros Hp Hw. rewrite tally_get, Hw. cbn [dict_get get_or].
  destruct (present t l) eqn:P.
  - destruct (proj1 Hp eq_refl) as [e [He Ht]].
    destruct (events_of_type t es) eqn:E; [|reflexivity].
    exfalso. apply (proj1 (events_of_type_nil t es) E e He Ht).
  - destruct (events_of_type t es) as [|e' l'] eqn:E; [reflexivity|].
    exfalso.
    assert (He : In e' (events_of_type t es)) by (rewrite E; left; reflexivity).
    unfold events_of_type in He. apply filter_In in He. destruct He as [H1 H2].
    apply String.eqb_eq in H2.
    assert (false = true) by (apply Hp; eauto). discriminate.
Qed.

(** Every event has an event type. *)
Definition all_typed (es : list event) : Prop :=
  Forall (fun e => ev_event_type e <> "") es.

Lemma actions_of_detailed es :
  all_typed es ->
  actions_of (map RecEvent es) = map (fun e => (ev_event_type e, 1%nat)) es.
Proof.
  unfold actions_of. induction 1 as [|e es He _ IH]; [reflexivity|].
  cbn [map filter is_job_summary record_type negb action_label multiplicity].
  rewrite IH. destruct (String.eqb_spec (ev_event_type e) ""); [contradiction|].
  reflexivity.
Qed.

Lemma actions_of_summary es ks :
  (forall k, In k ks -> fst (fst k) <> "") ->
  actions_of (map (summary_line es) ks)
  = map (fun k => (fst (fst k), List.length (events_of_key k es))) ks.
Proof.
  unfold actions_of. induction ks as [|[[etype col] reason] ks IH]; intro H;
    [reflexivity|].
  cbn [map filter summary_line is_job_summary record_type negb action_label
       multiplicity fst].
  cbn. rewrite <- IH by (intros; apply H; right; assumption).
  destruct (String.eqb_spec etype "") as [E|E]; [|reflexivity].
  exfalso. apply (H (etype, col, reason)); [left; reflexivity | exact E].
Qed.

Lemma weight_detailed t es :
  weight t (map (fun e => (ev_event_type e, 1%nat)) es)
  = List.length (events_of_type t es).
Proof.
  unfold weight, events_of_type. induction es as [|e es IH]; [reflexivity|].
  cbn [map filter fst]. destruct (String.eqb (ev_event_type e) t); simpl;
    rewrite IH; reflexivity.
Qed.

Lemma weight_summary t es ks :
  weight t (map (fun k => (fst (fst k), List.length (events_of_key k es))) ks)
  = list_sum (map (fun k => List.length (events_of_key k es))
                  (filter (fun k => String.eqb (fst (fst k)) t) ks)).
Proof.
  unfold weight. induction ks as [|k ks IH]; [reflexivity|].
  cbn [map filter fst]. destruct (String.eqb (fst (fst k)) t); simpl;
    rewrite IH; reflexivity.
Qed.

Lemma report_action_counts d ops t :
  all_typed (logged ops) ->
  dict_get t (action_counts (count_lines (file_lines (close (run_ops d ops)))))
  = match events_of_type t (logged ops) with
    | [] => None
    | evs => Some (List.length evs)
    end.
Proof.
  intro Hty. unfold count_lines.
  rewrite (proj1 (count_lines_fold _ _)). cbn [action_counts].
  rewrite closed_lines, actions_of_footer. destruct d.
  - fold (stream_keys (logged ops)).
    assert (Hk : forall k, In k (stream_keys (logged ops)) -> fst (fst k) <> "").
    { intros k Hk. apply stream_keys_In in Hk. destruct Hk as [e [He <-]].
      cbn. apply (proj1 (Forall_forall _ _) Hty e He). }
    rewrite (actions_of_summary _ _ Hk). apply tally_events.
    + rewrite present_spec. split.
      * intros [p [Hp Et]]. apply in_map_iff in Hp.
        destruct Hp as [k [<- Hin]]. apply stream_keys_In in Hin.
        destruct Hin as [e [He <-]]. exists e. split; [exact He | exact Et].
      * intros [e [He Et]].
        exists (fst (fst (event_key e)),
                List.length (events_of_key (event_key e) (logged ops))).
        split; [|exact Et].
        apply (in_map (fun k => (fst (fst k),
                                 List.length (events_of_key k (logged ops))))).
        apply stream_keys_In. eauto.
    + rewrite weight_summary. apply count_by_key; [apply stream_keys_NoDup|].
      intros e He. apply stream_keys_In. eauto.
  - rewrite (actions_of_detailed _ Hty). apply tally_events.
    + rewrite present_spec. split.
      * intros [p [Hp Et]]. apply in_map_iff in Hp.
        destruct Hp as [e [<- He]]. eauto.
      * intros [e [He Et]]. exists (ev_event_type e, 1%nat).
        split; [|exact Et].
        apply (in_map (fun e => (ev_event_type e, 1%nat))). exact He.
    + apply weight_detailed.
Qed.

(** In either detail mode, the report counts under each event type the
    events of that type that were logged, and has no entry for a type
    that was not logged; the event types are not empty. *)
Theorem report_counts_events_in_both_modes
    (d : AuditDetail) (ops : list op) (t : string) :
  Forall (fun e => ev_event_type e <> "") (logged ops) ->
  dict_get t (action_counts (count_lines (file_lines (close (run_ops d ops)))))
  = match events_of_type t (logged ops) with
    | [] => None
    | evs => Some (List.length evs)
    end.
Proof. apply report_action_counts. Qed.

Lemma drops_of_detailed es :
  drops_of (map RecEvent es)
  = map (fun e => (ev_reason e, 1%nat)) (events_of_type "row_dropped" es).
Proof.
  unfold drops_of, events_of_type. induction es as [|e es IH]; [reflexivity|].
  cbn [map filter is_job_summary record_type negb andb event_type_of].
  destruct (String.eqb (ev_event_type e) "row_dropped"); cbn [map];
    rewrite IH; reflexivity.
Qed.

Lemma drops_of_summary es ks :
  drops_of (map (summary_line es) ks)
  = map (fun k => (snd k, List.length (events_of_key k es)))
        (filter (fun k => String.eqb (fst (fst k)) "row_dropped") ks).
Proof.
  unfold drops_of. induction ks as [|[[etype col] reason] ks IH]; [reflexivity|].
  cbn [map filter summary_line is_job_summary record_type negb andb
       event_type_of fst].
  destruct (String.eqb etype "row_dropped"); cbn [map snd];
    rewrite <- IH; reflexivity.
Qed.

(** In either detail mode, the total of dropped rows in the report is
    the number of [row_dropped] events that were logged. *)
Theorem report_totals_row_drops (d : AuditDetail) (ops : list op) :
  row_drops_total (file_lines (close (run_ops d ops)))
  = List.length (events_of_type "row_dropped" (logged ops)).
Proof.
  unfold row_drops_total, count_lines.
  rewrite (proj2 (count_lines_fold _ _)). cbn [row_drop_reasons].
  rewrite tally_total, closed_lines, drops_of_footer. cbn [map list_sum plus].
  destruct d.
  - rewrite drops_of_summary, map_map. cbn [snd].
    apply count_by_key; [apply stream_keys_NoDup|].
    intros e He. apply stream_keys_In. eauto.
  - rewrite drops_of_detailed, map_map. cbn [snd].
    generalize (events_of_type "row_dropped" (logged ops)). intro l.
    induction l as [|e l IH]; simpl in *; [reflexivity | rewrite IH; reflexivity].
Qed.

(** ** Protected columns *)

Lemma filter_nil_iff {A} (f : A -> bool) l :
  filter f l = [] <-> forall x, In x l -> f x = false.
Proof.
  induction l as [|x l IH]; simpl.
  - split; [intros _ x [] | reflexivity].
  - destruct (f x) eqn:E.
    + split; [discriminate|]. intro H. rewrite (H x) in E; [discriminate|auto].
    + rewrite IH. split.
      * intros H y [<-|Hy]; auto.
      * intros H y Hy. apply H. right. exact Hy.
Qed.

Lemma protected_status_pass protected lines :
  protected_status protected lines = "pass" <->
  forall r c, In r lines -> is_job_summary r = false ->
              column_of r = Some c -> ~ In c protected.
Proof.
  unfold protected_status.
  assert (E : protected_hits protected lines = [] <->
              forall r c, In r lines -> is_job_summary r = false ->
                          column_of r = Some c -> ~ In c protected).
  { unfold protected_hits. rewrite filter_nil_iff. split.
    - intros H r c Hr Hj Hc Hin. specialize (H r Hr).
      rewrite Hj, Hc in H. cbn in H.
      apply (mem_In String.eqb String.eqb_eq) in Hin. congruence.
    - intros H r Hr. destruct (is_job_summary r) eqn:J; [reflexivity|].
      cbn [negb andb]. destruct (column_of r) as [c|] eqn:C; [|reflexivity].
      destruct (mem String.eqb c protected) eqn:M; [|reflexivity].
      exfalso. apply (H r c Hr J C).
      apply (mem_In String.eqb String.eqb_eq). exact M. }
  rewrite <- E. destruct (protected_hits protected lines);
    split; intro H; try reflexivity; discriminate.
Qed.

(** In either detail mode, the report passes the protected columns
    exactly when no logged event names one of them; the empty name is
    not a protected column. *)
Theorem report_passes_untouched_protected_columns
    (d : AuditDetail) (ops : list op) (protected : list string) :
  ~ In "" protected ->
  (protected_status protected (file_lines (close (run_ops d ops))) = "pass" <->
   forall e c, In e (logged ops) -> ev_column e = Some c -> ~ In c protected).
Proof.
  intro Hempty. rewrite protected_status_pass, closed_lines. split.
  - intros H e c He Hc. destruct d.
    + apply (H (summary_line (logged ops) (event_key e)) c).
      * apply in_or_app. left. apply in_map. apply stream_keys_In. eauto.
      * unfold event_key. reflexivity.
      * unfold event_key. cbn. rewrite Hc. reflexivity.
    + apply (H (RecEvent e) c).
      * apply in_or_app. left. apply in_map. exact He.
      * reflexivity.
      * exact Hc.
  - intros H r c Hr Hj Hc. apply in_app_or in Hr.
    destruct Hr as [Hr|[<-|[]]]; [|discriminate].
    destruct d.
    + apply in_map_iff in Hr. destruct Hr as [k [<- Hk]].
      apply stream_keys_In in Hk. destruct Hk as [e [He <-]].
      unfold event_key in Hc. cbn in Hc. inversion Hc as [Ec].
      destruct (ev_column e) as [c'|] eqn:C; cbn in Ec.
      * subst c'. apply (H e c He C).
      * subst c. exact Hempty.
    + apply in_map_iff in Hr. destruct Hr as [e [<- He]].
      apply (H e c He Hc).
Qed.

End ReportFacts.

(* ================================================================== *)
(** * The properties on concrete tables                                 *)
(* ================================================================== *)

Module MoreExamples.

Import Examples.

Local Open Scope Z_scope.

(** The ledger, with violations nulled. *)
Definition ledger_null_policy : Policy :=
  policy_with (roles_of ["_row_id"] []) default_parsing
    default_standardization default_missing
    {| validity_enabled := true;
       ranges := [("a", (Some 0%Q, Some 10%Q))]; allowed_values := [];
       regex := []; non_negative_columns := ["a"; "bb"];
       on_violation := "null" |}.

(** The critical column of [critical_table], with the row drop on and
    no imputation. *)
Definition gap_policy : Policy :=
  policy_with (roles_of ["x_num"] []) (typed [("x_num", "numeric")])
    default_standardization default_missing default_validity.

(** A boolean column with a gap, and a categorical bucket that fills
    with the mode. *)
Definition flags_table : DataFrame :=
  {| df_index := [0; 1; 2];
     df_data := [("_row_id", int_column [1; 2; 3]);
                 ("paid", object_column [VStr "yes"; VNull; VStr "yes"]);
                 ("city", object_column [VStr "Oslo"; VNull; VStr "Oslo"])] |}.

Definition flags_policy : Policy :=
  policy_with (roles_of ["_row_id"] []) (typed [("paid", "boolean")])
    default_standardization
    {| missing_enabled := true; drop_if_missing_critical := false;
       imputation_numeric := default_bucket;
       imputation_datetime := default_bucket;
       imputation_categorical :=
         {| bucket_default := "mode"; bucket_constants := [];
            allow_if_missing_pct_leq := 1 |} |}
    default_validity.

(** A table without row ids. *)
Definition bare_table : DataFrame :=
  {| df_index := [0]; df_data := [("val", object_column [VStr "x"])] |}.

Definition yes_no : BoolCfg :=
  {| true_values := ["Yes"]; false_values := ["no"];
     bool_on_failure := "null" |}.

Definition answers : Series :=
  object_column [VStr "yes"; VStr "maybe"; VStr " NO "; VStr "n/a"; VNull;
                 VStr "7"].

Definition event_of (etype reason : string) (column : option string)
  : Audit.event :=
  {| Audit.ev_timestamp := Some "2023-01-01T12:00:00Z";
     Audit.ev_event_type := etype; Audit.ev_reason := reason;
     Audit.ev_policy_section := "parsing"; Audit.ev_column := column;
     Audit.ev_row_id := None; Audit.ev_old_value := None;
     Audit.ev_new_value := None; Audit.ev_count := None |}.

Definition session : list Audit.op :=
  [Audit.OpLog (event_of "value_parsed" "numeric" (Some "amount"));
   Audit.OpContext "dataset" "orders";
   Audit.OpLog (event_of "row_dropped" "parse_failure" None);
   Audit.OpLog (event_of "value_parsed" "numeric" (Some "amount"));
   Audit.OpLog (event_of "row_dropped" "critical_missing" None)].

Definition raw_roles : Schema.RolesSection :=
  {| Schema.critical_columns := [" order  id "; "order id"];
     Schema.protected_columns := ["ssn"; " ssn"];
     Schema.standardize_columns := ["name"];
     Schema.fillable_columns := ["city"; "city"];
     Schema.droppable_columns := [] |}.

Definition clean_roles : Schema.RolesSection :=
  {| Schema.critical_columns := ["order id"];
     Schema.protected_columns := ["ssn"];
     Schema.standardize_columns := ["name"];
     Schema.fillable_columns := ["city"];
     Schema.droppable_columns := [] |}.

End MoreExamples.

Section MoreWitnesses.

Import Examples.
Import MoreExamples.

Ltac ran := eexists; eexists; split; [vm_compute; reflexivity|].

Lemma pipeline_keeps_columns_and_row_order_witness :
  exists out st,
    run_correction_pipeline plain_env orders_table orders_policy true
      fixed_clock initial = Ok (out, st) /\
    Frame.columns out = Frame.columns orders_table /\
    exists mask, df_index out = Frame.keep_by mask (df_index orders_table).
Proof.
  ran.
  eapply (pipeline_keeps_columns_and_row_order plain_env orders_table
           orders_policy true fixed_clock initial _ _).
  vm_compute. reflexivity.
Defined.

Lemma pipeline_keeps_protected_column_witness :
  exists out st,
    run_correction_pipeline plain_env note_table note_policy true
      fixed_clock initial = Ok (out, st) /\
    exists mask,
      df_index out = Frame.keep_by mask (df_index note_table) /\
      Frame.col out "secret_note"
      = option_map (restrict mask) (Frame.col note_table "secret_note").
Proof.
  ran.
  eapply (pipeline_keeps_protected_column plain_env note_table note_policy
           true fixed_clock initial _ _ "secret_note").
  - vm_compute. reflexivity.
  - left. reflexivity.
  - left. vm_compute. discriminate.
Defined.

Lemma pipeline_drops_rows_only_on_request_witness :
  exists out st,
    run_correction_pipeline plain_env padded_table trim_policy true
      fixed_clock initial = Ok (out, st) /\
    df_index out = df_index padded_table /\
    Frame.columns out = Frame.columns padded_table.
Proof.
  ran.
  eapply (pipeline_drops_rows_only_on_request plain_env padded_table
           trim_policy true fixed_clock initial _ _);
    try (vm_compute; discriminate).
  - left. reflexivity.
  - vm_compute. reflexivity.
Defined.

Lemma validity_flag_leaves_table_unchanged_witness :
  exists out st,
    apply_validity plain_env ledger_table ledger_policy true fixed_clock
      initial = Ok (out, st) /\
    out = ledger_table.
Proof.
  ran.
  eapply (validity_flag_leaves_table_unchanged plain_env ledger_table
           ledger_policy true fixed_clock initial _ _);
    try (vm_compute; discriminate).
  vm_compute. reflexivity.
Defined.

Lemma drop_critical_missing_leaves_no_gap_witness :
  exists out st,
    drop_critical_missing plain_env critical_table gap_policy true
      fixed_clock initial = Ok (out, st) /\
    exists s', Frame.col out "x_num" = Some s' /\
               Forall (fun v => is_effectively_missing v = false)
                      (s_values s').
Proof.
  ran.
  eapply (drop_critical_missing_leaves_no_gap plain_env critical_table
           gap_policy true fixed_clock initial _ _ "x_num"
           (float_column [VNum 1; VNull; VNum 3; VNull])).
  - repeat constructor.
  - reflexivity.
  - reflexivity.
  - left. reflexivity.
  - reflexivity.
  - vm_compute. reflexivity.
Defined.

Lemma imputation_fills_gaps_only_witness :
  exists out st,
    apply_imputation plain_env critical_table critical_policy true
      fixed_clock initial = Ok (out, st) /\
    exists s', Frame.col out "x_num" = Some s' /\
               fills_only [VNum 1; VNull; VNum 3; VNull] (s_values s').
Proof.
  ran.
  eapply (imputation_fills_gaps_only plain_env critical_table critical_policy
           true fixed_clock initial _ _ "x_num"
           (float_column [VNum 1; VNull; VNum 3; VNull])).
  - vm_compute. reflexivity.
  - reflexivity.
Defined.

Lemma validity_null_enforces_ranges_witness :
  exists out st,
    apply_validity plain_env ledger_table ledger_null_policy true fixed_clock
      initial = Ok (out, st) /\
    exists s', Frame.col out "a" = Some s' /\
               Forall (fun v => within (Some 0%Q) (Some 10%Q) v = true)
                      (s_values s').
Proof.
  ran.
  eapply (validity_null_enforces_ranges plain_env ledger_table
           ledger_null_policy true fixed_clock initial _ _ "a"
           (Some 0%Q) (Some 10%Q) (float_column [VNum (-1)])).
  - reflexivity.
  - reflexivity.
  - left. reflexivity.
  - reflexivity.
  - left. reflexivity.
  - vm_compute. reflexivity.
Defined.

Lemma validity_null_enforces_non_negative_witness :
  exists out st,
    apply_validity plain_env ledger_table ledger_null_policy true fixed_clock
      initial = Ok (out, st) /\
    exists s', Frame.col out "bb" = Some s' /\
               Forall (fun v => lt_num 0 v = false) (s_values s').
Proof.
  ran.
  eapply (validity_null_enforces_non_negative plain_env ledger_table
           ledger_null_policy true fixed_clock initial _ _ "bb"
           (float_column [VNum (-2)])).
  - reflexivity.
  - reflexivity.
  - right. left. reflexivity.
  - reflexivity.
  - left. reflexivity.
  - vm_compute. reflexivity.
Defined.

Lemma standardization_touches_only_unprotected_text_witness :
  exists out st,
    apply_standardization plain_env padded_table trim_policy true fixed_clock
      initial = Ok (out, st) /\
    Frame.columns out = Frame.columns padded_table /\
    df_index out = df_index padded_table /\
    Frame.col out "_row_id" = Frame.col padded_table "_row_id".
Proof.
  ran.
  eapply (standardization_touches_only_unprotected_text plain_env padded_table
           trim_policy true fixed_clock initial _ _ "_row_id").
  - vm_compute. reflexivity.
  - right. split; [intros []|].
    intros s Hs. vm_compute in Hs. inversion Hs. reflexivity.
Defined.

Lemma validated_roles_are_normal_witness :
  Schema.normalize_and_validate_roles raw_roles = Schema.Valid clean_roles /\
  Schema.normalize_and_validate_roles clean_roles = Schema.Valid clean_roles.
Proof.
  split; [vm_compute; reflexivity|].
  eapply (validated_roles_are_normal raw_roles clean_roles).
  vm_compute. reflexivity.
Defined.

Lemma validated_types_reach_one_parser_witness :
  Schema.normalize_column_types
    [(" amount ", "float"); ("amount", "integer"); ("paid", "boolean")] []
  = Schema.Valid [("amount", "integer"); ("paid", "boolean")] /\
  NoDup ["amount"; "paid"].
Proof.
  split; [vm_compute; reflexivity|].
  eapply (validated_types_reach_one_parser
           [(" amount ", "float"); ("amount", "integer"); ("paid", "boolean")]
           [("amount", "integer"); ("paid", "boolean")]).
  vm_compute. reflexivity.
Defined.

Lemma profiler_counts_boolean_parse_failures_witness :
  Profile.count_boolean_failures plain_env yes_no answers = 2%nat /\
  List.length (filter (parser_fails plain_env yes_no) (s_values answers))
  = 2%nat.
Proof.
  split; [vm_compute; reflexivity|].
  rewrite <- (profiler_counts_boolean_parse_failures plain_env yes_no answers).
  - vm_compute. reflexivity.
  - repeat constructor.
Defined.

Lemma report_counts_events_in_both_modes_witness :
  dict_get "row_dropped"
    (Report.action_counts
       (Report.count_lines
          (Audit.file_lines (Audit.close (Audit.run_ops Audit.summary session)))))
  = Some 2%nat.
Proof.
  eapply (report_counts_events_in_both_modes Audit.summary session
           "row_dropped").
  repeat constructor; discriminate.
Defined.

Lemma report_passes_untouched_protected_columns_witness :
  Report.protected_status ["ssn"]
    (Audit.file_lines (Audit.close (Audit.run_ops Audit.summary session)))
  = "pass".
Proof.
  eapply (report_passes_untouched_protected_columns Audit.summary session
           ["ssn"]).
  - intros [H|[]]. discriminate H.
  - intros e c He Hc [<-|[]].
    repeat (destruct He as [<-|He]; [discriminate Hc|]). destruct He.
Defined.

Lemma imputation_skips_declared_boolean_columns_witness :
  exists out st,
    apply_imputation plain_env flags_table flags_policy true fixed_clock
      initial = Ok (out, st) /\
    Frame.col out "paid" = Frame.col flags_table "paid" /\
    Frame.col out "city"
    = Some (object_column [VStr "Oslo"; VStr "Oslo"; VStr "Oslo"]).
Proof.
  ran. split; [|vm_compute; reflexivity].
  eapply (imputation_skips_declared_boolean_columns plain_env flags_table
           flags_policy true fixed_clock initial _ _ "paid").
  - vm_compute. reflexivity.
  - reflexivity.
Defined.

Lemma pipeline_requires_row_id_witness :
  run_correction_pipeline plain_env bare_table default_policy true
    fixed_clock initial = row_id_error.
Proof.
  eapply (pipeline_requires_row_id plain_env bare_table default_policy true
           fixed_clock initial).
  reflexivity.
Defined.

End MoreWitnesses.
